(** * Space catalog backend: coordinate math, catalog queries and the
      two-tier query cache.

    Shallow embedding of
      - [backend/services/gaia_service.py]      (projection and its inverse,
        parallax and colour conversions, cone, frustum),
      - [backend/scripts/download_gaia_catalog.py] (catalog build: selection,
        distance and position columns),
      - [backend/services/local_catalog_service.py] (nearby-star and
        bright-star queries),
      - [backend/services/cache_service.py]     (key derivation, get, set,
        clear_expired, clear_all, stats),
      - [backend/routes/stars_api.py]           (the handlers and their keys).

    Python floats are read as the exact numbers they denote: rationals [Q]
    where the code only compares, adds and multiplies (cache clock, catalog
    rows), reals [R] where it calls trigonometric functions; arithmetic on
    them is exact unless the rounding to a double is written out
    ([PyFloat.nearest_double], as in [Download.stored_distance_pc]).  Where
    the code prints a float (the cache keys), a float is the shortest
    decimal numeral that [repr] gives it ([PyFloat.pyfloat]); [round] and
    [json.dumps] are computed from the double the numeral denotes.

    The definitions come first; the properties start at "Properties". *)

From Stdlib Require Import ZArith NArith QArith Qround Qabs Qpower Reals Psatz List.
From Stdlib Require Import Ascii String.
From stdpp Require Import base option list sorting gmap strings.
Import ListNotations.

Set Default Proof Using "Type".

(** ** Outcomes of Python calls: a value is returned or an exception is raised. *)

Inductive exn : Type :=
| InvalidInput            (* the spec's name for a rejected numeric argument *)
| OperationalError        (* sqlite3 / aiosqlite failures *)
| JSONError               (* json.dumps TypeError, json.loads JSONDecodeError *)
| UpstreamError           (* the remote archive failed *)
| HTTPException.          (* a route answers with status 500 *)

Inductive outcome (A : Type) : Type :=
| Returns (a : A)
| Raises (e : exn).
Arguments Returns {A} a.
Arguments Raises {A} e.

(** ** CoordinateMath *)

Module Coord.

(** The projection code is the same expression over any number type with a
    product and the three numpy functions it calls. *)
Section Projection.
Variable F : Type.
Variable mul : F -> F -> F.
Variables np_radians np_cos np_sin : F -> F.

(** [GaiaService._equatorial_to_cartesian]: no guard, no raise. *)
Definition _equatorial_to_cartesian (ra_deg dec_deg distance_pc : F) : F * F * F :=
  let ra_rad := np_radians ra_deg in
  let dec_rad := np_radians dec_deg in
  let x := mul (mul distance_pc (np_cos dec_rad)) (np_cos ra_rad) in
  let y := mul (mul distance_pc (np_cos dec_rad)) (np_sin ra_rad) in
  let z := mul distance_pc (np_sin dec_rad) in
  (x, y, z).

(** The function as a Python call: its body has no [raise], and numpy's
    float operations return nan/inf instead of raising. *)
Definition equatorialToCartesian (ra_deg dec_deg distance_pc : F) : outcome (F * F * F) :=
  Returns (_equatorial_to_cartesian ra_deg dec_deg distance_pc).

(** [download_bright_catalog], the x, y, z columns of one catalog row. *)
Definition download_xyz (ra dec distance_pc : F) : F * F * F :=
  let ra_rad := np_radians ra in
  let dec_rad := np_radians dec in
  let x := mul (mul distance_pc (np_cos dec_rad)) (np_cos ra_rad) in
  let y := mul distance_pc (np_sin dec_rad) in
  let z := mul (mul distance_pc (np_cos dec_rad)) (np_sin ra_rad) in
  (x, y, z).
End Projection.

(** The instance over the reals. *)
Definition radians (deg : R) : R := (deg * (PI / 180))%R.

Definition service_xyz : R -> R -> R -> R * R * R :=
  _equatorial_to_cartesian R Rmult radians cos sin.

Definition service_call : R -> R -> R -> outcome (R * R * R) :=
  equatorialToCartesian R Rmult radians cos sin.

Definition catalog_xyz : R -> R -> R -> R * R * R :=
  download_xyz R Rmult radians cos sin.

End Coord.

(** ** hashlib.sha256

    32-bit words are integers in [0, 2^32); every addition wraps. *)

Module Sha256.
Local Open Scope Z_scope.

Definition add32 (a b : Z) : Z := (a + b) mod 2 ^ 32.
Definition rotr (n x : Z) : Z :=
  Z.lor (Z.shiftr x n) ((Z.shiftl x (32 - n)) mod 2 ^ 32).
Definition not32 (x : Z) : Z := Z.lxor x 0xffffffff.

Definition Ch (x y z : Z) : Z := Z.lxor (Z.land x y) (Z.land (not32 x) z).
Definition Maj (x y z : Z) : Z :=
  Z.lxor (Z.lxor (Z.land x y) (Z.land x z)) (Z.land y z).
Definition bsig0 (x : Z) : Z := Z.lxor (Z.lxor (rotr 2 x) (rotr 13 x)) (rotr 22 x).
Definition bsig1 (x : Z) : Z := Z.lxor (Z.lxor (rotr 6 x) (rotr 11 x)) (rotr 25 x).
Definition ssig0 (x : Z) : Z := Z.lxor (Z.lxor (rotr 7 x) (rotr 18 x)) (Z.shiftr x 3).
Definition ssig1 (x : Z) : Z := Z.lxor (Z.lxor (rotr 17 x) (rotr 19 x)) (Z.shiftr x 10).

(** The round constants are the first 32 bits of the fractional parts of
    the cube roots of the first 64 primes; the initial hash value takes the
    square roots of the first 8. *)
Definition is_prime (n : Z) : bool :=
  (1 <? n) && forallb (fun d => negb (n mod d =? 0))
                      (map Z.of_nat (seq 2 (Z.to_nat n - 2))).

Definition primes (count : nat) : list Z :=
  firstn count (List.filter is_prime (map Z.of_nat (seq 2 310))).

Definition cube_root (n : Z) : Z :=
  fold_left (fun r b => let r' := r + 2 ^ b in if r' * r' * r' <=? n then r' else r)
            (map Z.of_nat (rev (seq 0 36))) 0.

Definition frac_cbrt32 (p : Z) : Z := cube_root (p * 2 ^ 96) mod 2 ^ 32.
Definition frac_sqrt32 (p : Z) : Z := Z.sqrt (p * 2 ^ 64) mod 2 ^ 32.

Definition K : list Z := Eval vm_compute in map frac_cbrt32 (primes 64).

(** Big-endian bytes of [x], [n] of them. *)
Definition be_bytes (n : nat) (x : Z) : list Z :=
  map (fun i => (Z.shiftr x (8 * Z.of_nat i)) mod 256) (rev (seq 0 n)).

(** Padding: 0x80, zeros up to 56 modulo 64, the bit length on 8 bytes. *)
Definition pad (msg : list Z) : list Z :=
  let len := Z.of_nat (List.length msg) in
  let zeros := Z.to_nat ((55 - len) mod 64) in
  msg ++ [0x80] ++ repeat 0 zeros ++ be_bytes 8 (8 * len).

Fixpoint be_word (bs : list Z) : Z :=
  match bs with
  | [] => 0
  | b :: bs' => Z.lor (Z.shiftl b (8 * Z.of_nat (List.length bs'))) (be_word bs')
  end.

Fixpoint chunks (fuel n : nat) (l : list Z) : list (list Z) :=
  match fuel, l with
  | O, _ | _, [] => []
  | S f, _ => firstn n l :: chunks f n (skipn n l)
  end.

(** Message schedule, kept newest first: [w] is W[t-1], W[t-2], ... *)
Fixpoint extend (n : nat) (w : list Z) : list Z :=
  match n with
  | O => w
  | S n' =>
      let new := add32 (add32 (add32 (ssig1 (nth 1 w 0)) (nth 6 w 0))
                              (ssig0 (nth 14 w 0))) (nth 15 w 0) in
      extend n' (new :: w)
  end.

Definition schedule (block : list Z) : list Z :=
  rev (extend 48 (rev (map be_word (chunks 16 4 block)))).

Record regs := { ra : Z; rb : Z; rc : Z; rd : Z; re : Z; rf : Z; rg : Z; rh : Z }.

Definition round (s : regs) (kw : Z * Z) : regs :=
  let t1 := add32 (add32 (add32 (add32 (rh s) (bsig1 (re s))) (Ch (re s) (rf s) (rg s)))
                         (fst kw)) (snd kw) in
  let t2 := add32 (bsig0 (ra s)) (Maj (ra s) (rb s) (rc s)) in
  {| ra := add32 t1 t2; rb := ra s; rc := rb s; rd := rc s;
     re := add32 (rd s) t1; rf := re s; rg := rf s; rh := rg s |}.

Definition compress (h : regs) (block : list Z) : regs :=
  let s := fold_left round (combine K (schedule block)) h in
  {| ra := add32 (ra h) (ra s); rb := add32 (rb h) (rb s);
     rc := add32 (rc h) (rc s); rd := add32 (rd h) (rd s);
     re := add32 (re h) (re s); rf := add32 (rf h) (rf s);
     rg := add32 (rg h) (rg s); rh := add32 (rh h) (rh s) |}.

Definition init : regs :=
  Eval vm_compute in
    let h := map frac_sqrt32 (primes 8) in
    {| ra := nth 0 h 0; rb := nth 1 h 0; rc := nth 2 h 0; rd := nth 3 h 0;
       re := nth 4 h 0; rf := nth 5 h 0; rg := nth 6 h 0; rh := nth 7 h 0 |}.

Definition bytes_of (msg : string) : list Z :=
  map (fun c => Z.of_nat (nat_of_ascii c)) (list_ascii_of_string msg).

Definition digest_words (msg : list Z) : regs :=
  let p := pad msg in
  fold_left compress (chunks (List.length p) 64 p) init.

Definition words (s : regs) : list Z :=
  [ra s; rb s; rc s; rd s; re s; rf s; rg s; rh s].

Definition hex_digit (d : Z) : ascii :=
  ascii_of_nat (Z.to_nat (if d <? 10 then 48 + d else 87 + d)).

Definition hex_word (w : Z) : list ascii :=
  map (fun i => hex_digit ((Z.shiftr w (4 * Z.of_nat i)) mod 16)) (rev (seq 0 8)).

(** [hashlib.sha256(msg).hexdigest()] *)
Definition hexdigest (msg : string) : string :=
  string_of_list_ascii (List.concat (map hex_word (words (digest_words (bytes_of msg))))).

End Sha256.

(** ** Python floats, as far as the API layer uses them

    A float is written the way [repr] prints it: a sign, a decimal
    coefficient and a power of ten.  The double behind the numeral is the
    nearest one ([nearest_double]); [round] and [format] work on that exact
    binary value, as CPython's correctly rounded conversions do.  The result
    of [round(x, n)] is the double next to the rounded decimal, written as
    [repr] writes it: the shortest numeral that reads back as that double. *)

Module PyFloat.
Local Open Scope Z_scope.

Record pyfloat := mk { f_neg : bool; f_coef : N; f_exp : Z }.

Definition pow10 (e : Z) : Q :=
  if 0 <=? e then inject_Z (10 ^ e) else Qinv (inject_Z (10 ^ (- e))).

Definition pow2 (e : Z) : Q :=
  if 0 <=? e then inject_Z (2 ^ e) else Qinv (inject_Z (2 ^ (- e))).

Definition decimal_value (f : pyfloat) : Q :=
  Qmult (Qmult (if f_neg f then (-1)%Q else 1%Q) (inject_Z (Z.of_N (f_coef f))))
        (pow10 (f_exp f)).

Definition round_half_even (x : Q) : Z :=
  let fl := Qfloor x in
  match Qcompare (Qminus x (inject_Z fl)) (1 # 2) with
  | Lt => fl
  | Gt => fl + 1
  | Eq => if Z.even fl then fl else fl + 1
  end.

(** Round to the 53-bit grid (denormals below 2^-1022; overflow is not
    modelled). *)
Definition nearest_double (q : Q) : Q :=
  match Qnum q with
  | Z0 => 0%Q
  | _ =>
      let a := Qabs q in
      let k0 := Z.log2 (Qnum a) - Z.log2 (Zpos (Qden a)) in
      let k := if Qle_bool (pow2 k0) a then k0 else k0 - 1 in
      let e := Z.max (k - 52) (-1074) in
      let m := round_half_even (Qdiv a (pow2 e)) in
      let r := Qred (Qmult (inject_Z m) (pow2 e)) in
      if Qle_bool 0 q then r else Qopp r
  end.

(** The number a float denotes. *)
Definition float_value (f : pyfloat) : Q := nearest_double (decimal_value f).

(** The numbers that are doubles: rounding leaves them as they are. *)
Definition is_double (q : Q) : Prop := Qeq (nearest_double q) q.

Fixpoint strip_zeros (fuel : nat) (c : N) (e : Z) : N * Z :=
  match fuel with
  | O => (c, e)
  | S fuel' =>
      if N.eqb c 0 then (0%N, 0)
      else if N.eqb (c mod 10) 0 then strip_zeros fuel' (c / 10)%N (e + 1)
      else (c, e)
  end.

(** The shortest numeral: no trailing zero in the coefficient. *)
Definition normalize (neg : bool) (c : N) (e : Z) : pyfloat :=
  let '(c', e') := strip_zeros (S (N.to_nat (N.log2 c))) c e in
  mk neg c' e'.

Definition canon (f : pyfloat) : pyfloat := normalize (f_neg f) (f_coef f) (f_exp f).

(** No trailing zero in the coefficient; zero is written 0e0. *)
Definition canonical (c : N) (e : Z) : Prop :=
  (c = 0%N /\ e = 0%Z) \/ (c <> 0%N /\ (c mod 10)%N <> 0%N).

(** The decimal exponent of a positive number: the [e] with
    10^e <= a < 10^(e+1).  The binary logarithm gives it within one. *)
Definition decimal_exponent (a : Q) : Z :=
  let b := Z.log2 (Qnum a) - Z.log2 (Zpos (Qden a)) in
  let e0 := (b * 30103) / 100000 in
  if Qle_bool (pow10 (e0 + 1)) a then e0 + 1
  else if Qle_bool (pow10 e0) a then e0
  else if Qle_bool (pow10 (e0 - 1)) a then e0 - 1
  else e0 - 2.

(** The [k]-digit numerals next to the positive double [r] that read back
    as [r]; of two, the nearer one (the even one on a tie). *)
Definition digits_of_length (r : Q) (k : Z) : option (N * Z) :=
  let s := decimal_exponent r - k + 1 in
  let x := Qdiv r (pow10 s) in
  let lo := Qfloor x in
  let hi := lo + 1 in
  let back c := Qeq_bool (nearest_double (Qmult (inject_Z c) (pow10 s))) r in
  match back lo, back hi with
  | true, true =>
      match Qcompare (Qminus x (inject_Z lo)) (1 # 2) with
      | Lt => Some (Z.to_N lo, s)
      | Gt => Some (Z.to_N hi, s)
      | Eq => Some (Z.to_N (if Z.even lo then lo else hi), s)
      end
  | true, false => Some (Z.to_N lo, s)
  | false, true => Some (Z.to_N hi, s)
  | false, false => None
  end.

Fixpoint shortest_from (fuel : nat) (r : Q) (k : Z) : N * Z :=
  match fuel with
  | O => (Z.to_N (round_half_even (Qdiv r (pow10 (decimal_exponent r - 16)))),
          decimal_exponent r - 16)
  | S fuel' =>
      match digits_of_length r k with
      | Some ce => ce
      | None => shortest_from fuel' r (k + 1)
      end
  end.

(** [float.__repr__] picks the shortest numeral that reads back as the
    float: the float with value [r] and sign [neg], as that numeral. *)
Definition of_value (neg : bool) (r : Q) : pyfloat :=
  match Qnum r with
  | Z0 => mk neg 0 0
  | _ => let '(c, e) := shortest_from 16 (Qabs r) 1 in normalize neg c e
  end.

(** [round(x, ndigits)]: the exact value is rounded half to even at
    [ndigits] decimals, the decimal read back as a float; the sign of the
    argument is kept, also on a zero result. *)
Definition py_round (f : pyfloat) (ndigits : Z) : pyfloat :=
  let v := float_value f in
  let k := round_half_even (Qmult v (pow10 ndigits)) in
  let rounded := nearest_double (Qmult (inject_Z (Z.abs k)) (pow10 (- ndigits))) in
  of_value (f_neg f) rounded.

(** Decimal digits of a natural number, most significant first. *)
Fixpoint digits_aux (fuel : nat) (n : N) (acc : string) : string :=
  match fuel with
  | O => acc
  | S fuel' =>
      let acc' := String (ascii_of_N (48 + n mod 10)) acc in
      if (n <? 10)%N then acc' else digits_aux fuel' (n / 10)%N acc'
  end.

Definition digits (n : N) : string :=
  digits_aux (S (N.to_nat (N.log2 n))) n EmptyString.

Fixpoint zeros (n : nat) : string :=
  match n with O => EmptyString | S n' => String "0" (zeros n') end.

(** The slices [s[:n]] and [s[n:]]. *)
Fixpoint str_take (n : nat) (s : string) : string :=
  match n, s with
  | S n', String c s' => String c (str_take n' s')
  | _, _ => EmptyString
  end.

Fixpoint str_drop (n : nat) (s : string) : string :=
  match n, s with
  | S n', String _ s' => str_drop n' s'
  | _, _ => s
  end.

Definition exp_digits (e : Z) : string :=
  (if e <? 0 then "-" else "+") +:+ (if Z.abs e <? 10 then "0" else EmptyString) +:+
  digits (Z.to_N (Z.abs e)).

(** [float.__repr__]: positional when -4 < decpt <= 16, else scientific. *)
Definition float_repr (f0 : pyfloat) : string :=
  let f := canon f0 in
  let ds := digits (f_coef f) in
  let n := Z.of_nat (String.length ds) in
  let decpt := if N.eqb (f_coef f) 0 then 1 else n + f_exp f in
  let body :=
    if (-4 <? decpt) && (decpt <=? 16) then
      if decpt <=? 0 then "0." +:+ zeros (Z.to_nat (- decpt)) +:+ ds
      else if decpt <? n then
        str_take (Z.to_nat decpt) ds +:+ "." +:+ str_drop (Z.to_nat decpt) ds
      else ds +:+ zeros (Z.to_nat (decpt - n)) +:+ ".0"
    else
      str_take 1 ds +:+ (if 1 <? n then "." +:+ str_drop 1 ds else EmptyString) +:+
      "e" +:+ exp_digits (decpt - 1) in
  (if f_neg f then "-" else EmptyString) +:+ body.

(** [format(x, '.<prec>f')], as in an f-string [{x:.2f}]. *)
Definition format_f (f : pyfloat) (prec : nat) : string :=
  let v := float_value f in
  let k := Z.abs (round_half_even (Qmult v (pow10 (Z.of_nat prec)))) in
  let ds := digits (Z.to_N k) in
  let ds := zeros (S prec - String.length ds) +:+ ds in
  let n := String.length ds in
  (if f_neg f then "-" else EmptyString) +:+ str_take (n - prec) ds +:+
  (if Nat.eqb prec 0 then EmptyString else "." +:+ str_drop (n - prec) ds).

(** [str(int)] *)
Definition int_repr (z : Z) : string :=
  (if z <? 0 then "-" else EmptyString) +:+ digits (Z.to_N (Z.abs z)).

(** Reading a numeral back, as [float(s)] and [int(s)] do on what [repr]
    and [str] print. *)
Definition digit_val (c : ascii) : N := (N_of_ascii c - 48)%N.

Fixpoint digits_val (acc : N) (s : string) : N :=
  match s with
  | EmptyString => acc
  | String c s' => digits_val (acc * 10 + digit_val c)%N s'
  end.

Fixpoint split_at (c : ascii) (s : string) : string * option string :=
  match s with
  | EmptyString => (EmptyString, None)
  | String a s' =>
      if Ascii.eqb a c then (EmptyString, Some s')
      else let '(l, r) := split_at c s' in (String a l, r)
  end.

Definition signed (s : string) : bool * string :=
  match s with
  | String c r => if Ascii.eqb c "-" then (true, r) else (false, s)
  | EmptyString => (false, s)
  end.

Definition parse_exp (s : string) : Z :=
  match s with
  | String c d =>
      if Ascii.eqb c "-" then - Z.of_N (digits_val 0 d) else Z.of_N (digits_val 0 d)
  | EmptyString => 0
  end.

Definition float_parse (s : string) : pyfloat :=
  let '(neg, body) := signed s in
  let '(mant, ex) := split_at "e" body in
  let '(ip, fp) := split_at "." mant in
  let fp := match fp with Some f => f | None => EmptyString end in
  let e := match ex with Some x => parse_exp x | None => 0 end in
  normalize neg (digits_val 0 (ip +:+ fp)) (e - Z.of_nat (String.length fp)).

Definition int_parse (s : string) : Z :=
  let '(neg, body) := signed s in
  if neg then - Z.of_N (digits_val 0 body) else Z.of_N (digits_val 0 body).

End PyFloat.

(** ** Characters of a string *)

Module Text.

Fixpoint all_chars (P : ascii -> bool) (s : string) : bool :=
  match s with
  | EmptyString => true
  | String c s' => P c && all_chars P s'
  end.

Definition is_digit (c : ascii) : bool :=
  (48 <=? N_of_ascii c)%N && (N_of_ascii c <=? 57)%N.

Definition is_not (c : ascii) (a : ascii) : bool := negb (Ascii.eqb a c).

Definition is_numeric (c : ascii) : bool :=
  is_digit c || Ascii.eqb c "-" || Ascii.eqb c "+" || Ascii.eqb c "." || Ascii.eqb c "e".

Definition sign_str (neg : bool) : string := if neg then "-" else EmptyString.

End Text.

(** ** json.dumps *)

Module Json.
Import PyFloat.

(** A dict is the list of its items in insertion order. *)
#[local] Unset Elimination Schemes.
Inductive t : Type :=
| JNull
| JBool (b : bool)
| JInt (z : Z)
| JFloat (f : pyfloat)
| JStr (s : string)
| JList (l : list t)
| JDict (d : list (string * t)).
#[local] Set Elimination Schemes.

Definition hex4 (n : nat) : string :=
  string_of_list_ascii
    (map (fun i => Sha256.hex_digit ((Z.shiftr (Z.of_nat n) (4 * Z.of_nat i)) mod 16))
         [3%nat; 2%nat; 1%nat; 0%nat]).

Definition dquote : ascii := ascii_of_nat 34.

(** [ensure_ascii] escaping of one code point. *)
Definition escape_char (c : ascii) : string :=
  let n := nat_of_ascii c in
  if Nat.eqb n 34 then String "\" (String dquote EmptyString)
  else if Nat.eqb n 92 then "\\"
  else if Nat.eqb n 10 then "\n"
  else if Nat.eqb n 13 then "\r"
  else if Nat.eqb n 9 then "\t"
  else if Nat.eqb n 8 then "\b"
  else if Nat.eqb n 12 then "\f"
  else if (Nat.leb 32 n) && (Nat.leb n 126) then String c EmptyString
  else "\u" +:+ hex4 n.

Fixpoint escape (s : string) : string :=
  match s with
  | EmptyString => EmptyString
  | String c s' => escape_char c +:+ escape s'
  end.

Definition quote (s : string) : string :=
  String dquote (escape s +:+ String dquote EmptyString).

Fixpoint join (sep : string) (l : list string) : string :=
  match l with
  | [] => EmptyString
  | [x] => x
  | x :: l' => x +:+ sep +:+ join sep l'
  end.

(** Items are ordered by key, code point by code point. *)
Definition key_le (a b : string * string) : Prop := String.leb (fst a) (fst b) = true.

Global Instance key_le_dec a b : Decision (key_le a b).
Proof. unfold key_le. apply _. Defined.

Definition sorted_items (items : list (string * string)) : list (string * string) :=
  merge_sort key_le items.

Definition render_item (kv : string * string) : string :=
  quote (fst kv) +:+ ": " +:+ snd kv.

(** [json.dumps(obj, sort_keys=sort_keys)] with the default separators. *)
Fixpoint dumps (sort_keys : bool) (j : t) : string :=
  match j with
  | JNull => "null"
  | JBool true => "true"
  | JBool false => "false"
  | JInt z => int_repr z
  | JFloat f => float_repr f
  | JStr s => quote s
  | JList l => "[" +:+ join ", " (map (dumps sort_keys) l) +:+ "]"
  | JDict d =>
      let items := map (fun kv => (fst kv, dumps sort_keys (snd kv))) d in
      let items := if sort_keys then sorted_items items else items in
      "{" +:+ join ", " (map render_item items) +:+ "}"
  end.

(** Python's [==] on these values: numbers by value, whatever their type
    and the sign of a zero; lists item by item; dicts key by key, whatever
    the insertion order.  (The keys of a dict are distinct.) *)
Definition number (j : t) : option Q :=
  match j with
  | JBool b => Some (if b then 1%Q else 0%Q)
  | JInt z => Some (inject_Z z)
  | JFloat f => Some (float_value f)
  | _ => None
  end.

Fixpoint item (k : string) (d : list (string * t)) : option t :=
  match d with
  | [] => None
  | (k', v) :: d' => if String.eqb k k' then Some v else item k d'
  end.

Fixpoint py_eq (a b : t) : bool :=
  match a, b with
  | JNull, JNull => true
  | JStr s, JStr s' => String.eqb s s'
  | JList l, JList l' =>
      (fix items (l : list t) (l' : list t) : bool :=
         match l, l' with
         | [], [] => true
         | x :: l, y :: l' => py_eq x y && items l l'
         | _, _ => false
         end) l l'
  | JDict d, JDict d' =>
      Nat.eqb (length d) (length d') &&
      (fix items (d : list (string * t)) : bool :=
         match d with
         | [] => true
         | (k, v) :: d =>
             match item k d' with
             | Some v' => py_eq v v'
             | None => false
             end && items d
         end) d
  | _, _ =>
      match number a, number b with
      | Some x, Some y => Qeq_bool x y
      | _, _ => false
      end
  end.

End Json.

(** ** Cache keys *)

Module Key.
Import PyFloat Json.

(** [CacheService._generate_key] *)
Definition _generate_key (query_params : Json.t) : string :=
  let sorted_params := dumps true query_params in
  Sha256.hexdigest sorted_params.

(** Request bodies, after pydantic validation. *)
Record ConeQueryParams := {
  cone_ra : pyfloat; cone_dec : pyfloat; cone_radius : pyfloat;
  cone_max_stars : Z; cone_min_magnitude : pyfloat }.

Record FrustumQueryParams := {
  camera_x : pyfloat; camera_y : pyfloat; camera_z : pyfloat;
  direction_x : pyfloat; direction_y : pyfloat; direction_z : pyfloat;
  fov : pyfloat; fr_max_distance : pyfloat; fr_max_stars : Z }.

(** [query_cone], the [cache_key] dict. *)
Definition cone_cache_key (params : ConeQueryParams) : Json.t :=
  JDict [ ("type", JStr "cone");
          ("ra", JFloat (py_round (cone_ra params) 4));
          ("dec", JFloat (py_round (cone_dec params) 4));
          ("radius", JFloat (py_round (cone_radius params) 4));
          ("max_stars", JInt (cone_max_stars params));
          ("min_mag", JFloat (cone_min_magnitude params)) ].

(** [query_frustum], the [cache_key] dict. *)
Definition frustum_cache_key (params : FrustumQueryParams) : Json.t :=
  JDict [ ("type", JStr "frustum");
          ("cam", JList [ JFloat (py_round (camera_x params) 2);
                          JFloat (py_round (camera_y params) 2);
                          JFloat (py_round (camera_z params) 2) ]);
          ("dir", JList [ JFloat (py_round (direction_x params) 3);
                          JFloat (py_round (direction_y params) 3);
                          JFloat (py_round (direction_z params) 3) ]);
          ("fov", JFloat (py_round (fov params) 1));
          ("dist", JFloat (py_round (fr_max_distance params) 1));
          ("max", JInt (fr_max_stars params)) ].

(** [query_region], the [cache_key] f-string. *)
Definition region_cache_key (ra dec radius : pyfloat) (limit : Z) : Json.t :=
  JStr ("stars:region:" +:+ format_f ra 2 +:+ ":" +:+ format_f dec 2 +:+ ":" +:+
        format_f radius 2 +:+ ":" +:+ int_repr limit).

(** The cone request of the route's docstring, with a radius to choose. *)
Definition galactic_cone (radius : pyfloat) : ConeQueryParams :=
  {| cone_ra := mk false 2664 (-1); cone_dec := mk true 29 0; cone_radius := radius;
     cone_max_stars := 10000; cone_min_magnitude := mk false 18 0 |}.

(** Two cone requests on either side of the equator, dec = -0.00001 and
    dec = 0.00001, alike in the other fields. *)
Definition south_of_equator : ConeQueryParams :=
  {| cone_ra := mk false 10 0; cone_dec := mk true 1 (-5); cone_radius := mk false 5 0;
     cone_max_stars := 10000; cone_min_magnitude := mk false 18 0 |}.

Definition north_of_equator : ConeQueryParams :=
  {| cone_ra := mk false 10 0; cone_dec := mk false 1 (-5); cone_radius := mk false 5 0;
     cone_max_stars := 10000; cone_min_magnitude := mk false 18 0 |}.

End Key.

(** ** CacheService: a dict in memory in front of a SQLite table *)

Module Cache.
Import Key.

(** The operations on the aiosqlite connection; each of them can raise. *)
Inductive db_op : Type := OpConnect | OpSelect | OpExecute | OpCommit.

(** Which operations raise during one call of [get] or [set]. *)
Definition faults : Type := db_op -> bool.
Definition no_faults : faults := fun _ => false.

Definition Qlt_bool (x y : Q) : bool := negb (Qle_bool y x).

Section Service.
Context {V : Type}.                       (* the cached value, a List[Dict] *)
Variable json_dumps : V -> outcome string.  (* json.dumps(value) *)
Variable json_loads : string -> outcome V.  (* json.loads(value_json) *)

Record mem_entry : Type := { value : V; timestamp : Q }.
Record db_row : Type := { row_value : string; row_timestamp : Q }.

Record CacheService : Type := {
  memory_cache : gmap string mem_entry;
  query_cache : gmap string db_row;        (* table query_cache of cache.db *)
  enabled : bool;
  ttl : Z }.

Definition with_memory (m : gmap string mem_entry) (s : CacheService) : CacheService :=
  {| memory_cache := m; query_cache := query_cache s;
     enabled := enabled s; ttl := ttl s |}.

Definition with_table (d : gmap string db_row) (s : CacheService) : CacheService :=
  {| memory_cache := memory_cache s; query_cache := d;
     enabled := enabled s; ttl := ttl s |}.

(** State and exceptions: a call ends with a value or an exception, and
    leaves the service in some state either way. *)
Definition M (A : Type) : Type := CacheService -> outcome A * CacheService.

Definition ret {A} (a : A) : M A := fun s => (Returns a, s).

Definition bind {A B} (c : M A) (k : A -> M B) : M B :=
  fun s => match c s with
           | (Returns a, s') => k a s'
           | (Raises e, s') => (Raises e, s')
           end.

Definition lift {A} (r : outcome A) : M A := fun s => (r, s).

(** [try: body / except Exception: handler] *)
Definition try_except {A} (body : M A) (handler : exn -> M A) : M A :=
  fun s => match body s with
           | (Returns a, s') => (Returns a, s')
           | (Raises e, s') => handler e s'
           end.

Definition get_state : M CacheService := fun s => (Returns s, s).
Definition modify (f : CacheService -> CacheService) : M unit :=
  fun s => (Returns tt, f s).

Local Notation "'do' x <- c1 ; c2" := (bind c1 (fun x => c2))
  (at level 10, x name, c1 at level 100, c2 at level 200).
Local Notation "'run' c1 ; c2" := (bind c1 (fun _ => c2))
  (at level 10, c1 at level 100, c2 at level 200).

(** The durable tier.  A statement changes the table only once it is
    committed. *)
Definition raise_if (o : faults) (op : db_op) : M unit :=
  fun s => if o op then (Raises OperationalError, s) else (Returns tt, s).

Definition db_connect (o : faults) : M unit := raise_if o OpConnect.

Definition db_select (o : faults) (key : string) : M (option db_row) :=
  run raise_if o OpSelect;
  do s <- get_state;
  ret (query_cache s !! key).

Definition db_execute (o : faults) (stmt : gmap string db_row -> gmap string db_row)
  : M (gmap string db_row) :=
  run raise_if o OpExecute;
  do s <- get_state;
  ret (stmt (query_cache s)).

Definition db_commit (o : faults) (pending : gmap string db_row) : M unit :=
  run raise_if o OpCommit;
  modify (with_table pending).

(** [get], the body of the [try] block. *)
Definition get_durable (o : faults) (current_time : Q) (key : string) : M (option V) :=
  run db_connect o;
  do row <- db_select o key;
  match row with
  | Some r =>
      do s <- get_state;
      if Qlt_bool (current_time - row_timestamp r) (inject_Z (ttl s)) then
        do v <- lift (json_loads (row_value r));
        run modify (fun s => with_memory
               (<[key := {| value := v; timestamp := row_timestamp r |}]> (memory_cache s)) s);
        ret (Some v)
      else
        do pending <- db_execute o (delete key);
        run db_commit o pending;
        ret None
  | None => ret None
  end.

(** [get], the memory check; [Some v] is the early [return cached['value']]. *)
Definition get_memory (current_time : Q) (key : string) : M (option V) :=
  do s <- get_state;
  match memory_cache s !! key with
  | Some cached =>
      if Qlt_bool (current_time - timestamp cached) (inject_Z (ttl s)) then
        ret (Some (value cached))
      else
        run modify (fun s => with_memory (delete key (memory_cache s)) s);
        ret None
  | None => ret None
  end.

(** [CacheService.get]; [current_time] is what [time.time()] returns. *)
Definition get (o : faults) (current_time : Q) (query_params : Json.t) : M (option V) :=
  do s <- get_state;
  if negb (enabled s) then ret None
  else
    let key := _generate_key query_params in
    do hit <- get_memory current_time key;
    match hit with
    | Some v => ret (Some v)
    | None => try_except (get_durable o current_time key) (fun _ => ret None)
    end.

(** [set], the body of the [try] block. *)
Definition set_durable (o : faults) (now : Q) (key : string) (new_value : V) : M unit :=
  do value_json <- lift (json_dumps new_value);
  run db_connect o;
  do pending <- db_execute o
      (insert key {| row_value := value_json; row_timestamp := now |});
  db_commit o pending.

(** [CacheService.set]; [now] is what [time.time()] returns. *)
Definition set (o : faults) (now : Q) (query_params : Json.t) (new_value : V) : M unit :=
  do s <- get_state;
  if negb (enabled s) then ret tt
  else
    let key := _generate_key query_params in
    run modify (fun s => with_memory
           (<[key := {| value := new_value; timestamp := now |}]> (memory_cache s)) s);
    try_except (set_durable o now key new_value) (fun _ => ret tt).

(** The durable part of [get] raised: some operation on the connection, or
    the decoding of the stored value, failed. *)
Definition durable_lookup_raises (o : faults) (now : Q) (key : string)
    (s : CacheService) : Prop :=
  exists err, fst (get_durable o now key (snd (get_memory now key s))) = Raises err.

(** No fresh entry in the volatile tier: none at all, or an expired one. *)
Definition no_fresh_entry (now : Q) (key : string) (s : CacheService) : Prop :=
  forall e, memory_cache s !! key = Some e ->
            (inject_Z (ttl s) <= now - timestamp e)%Q.

(** No row of the durable tier is stamped later than [t]: the state of a
    service whose clock has not run backwards, seen at time [t]. *)
Definition stamped_before (t : Q) (s : CacheService) : Prop :=
  forall key r, query_cache s !! key = Some r -> (row_timestamp r <= t)%Q.

End Service.

Arguments mem_entry : clear implicits.
Arguments db_row : clear implicits.
Arguments CacheService : clear implicits.
Arguments M : clear implicits.

End Cache.

(** ** Stars, as the services return them (one dict per star) *)

Module Star.
Record t : Type := {
  source_id : option string;
  ra : Q; dec : Q;
  x : Q; y : Q; z : Q;
  parallax : option Q;
  distance_pc : Q;
  magnitude : Q;
  color_bp_rp : option Q;
  r : Q; g : Q; b : Q;
  pm_ra : Q; pm_dec : Q;
  radial_velocity : option Q;
  temperature : option Q }.
End Star.

(** ** LocalCatalogService *)

Module Catalog.
Import Cache.
Local Open Scope Q_scope.

(** One row of table [stars].  The columns the service converts with a bare
    [float(...)] are never NULL in a catalog the build script wrote. *)
Record row : Type := {
  source_id : Z;
  ra : Q; dec : Q;
  x : Q; y : Q; z : Q;
  parallax : option Q;
  distance_pc : Q;
  magnitude : Q;
  bp_rp : option Q;
  pmra : option Q; pmdec : option Q;
  radial_velocity : option Q;
  temperature : option Q }.

(** The database file: absent, present but unreadable (sqlite3 raises), or
    holding the table. *)
Inductive database : Type :=
| NotFound
| Failing
| Table (stars : list row).

(** [v if v else None]: NULL and 0.0 are both false. *)
Definition if_true (v : option Q) : option Q :=
  match v with
  | Some q => if Qeq_bool q 0 then None else Some q
  | None => None
  end.

(** [LocalCatalogService._bp_rp_to_rgb] *)
Definition _bp_rp_to_rgb (bp_rp : Q) : Q * Q * Q :=
  let m := if Qlt_bool bp_rp 4 then bp_rp else 4 in       (* min(4.0, bp_rp) *)
  let bp_rp := if Qlt_bool (- (1 # 2)) m then m else - (1 # 2) in  (* max(-0.5, .) *)
  if Qlt_bool bp_rp 0 then (6 # 10, 7 # 10, 1)
  else if Qlt_bool bp_rp (1 # 2) then (8 # 10, 9 # 10, 1)
  else if Qlt_bool bp_rp 1 then (1, 1, 1)
  else if Qlt_bool bp_rp (3 # 2) then (1, 95 # 100, 7 # 10)
  else if Qlt_bool bp_rp (5 # 2) then (1, 8 # 10, 5 # 10)
  else (1, 6 # 10, 4 # 10).

(** The loop body of [_query_nearby_stars_sync]. *)
Definition star_of_row (rw : row) : Star.t :=
  let bp_rp := match bp_rp rw with Some c => c | None => 0 end in
  let rgb := _bp_rp_to_rgb bp_rp in
  {| Star.source_id := Some (PyFloat.int_repr (source_id rw));
     Star.ra := ra rw; Star.dec := dec rw;
     Star.x := x rw; Star.y := y rw; Star.z := z rw;
     Star.parallax := if_true (parallax rw);
     Star.distance_pc := distance_pc rw;
     Star.magnitude := magnitude rw;
     Star.color_bp_rp := Some bp_rp;
     Star.r := fst (fst rgb); Star.g := snd (fst rgb); Star.b := snd rgb;
     Star.pm_ra := match if_true (pmra rw) with Some p => p | None => 0 end;
     Star.pm_dec := match if_true (pmdec rw) with Some p => p | None => 0 end;
     Star.radial_velocity := if_true (radial_velocity rw);
     Star.temperature := if_true (temperature rw) |}.

(** ORDER BY distance_from_camera ASC, magnitude ASC, on rows paired with
    their computed distance. *)
Definition nearby_leb (a b : Q * row) : bool :=
  Qlt_bool (fst a) (fst b) ||
  (Qeq_bool (fst a) (fst b) && Qle_bool (magnitude (snd a)) (magnitude (snd b))).

Definition nearby_le (a b : Q * row) : Prop := nearby_leb a b = true.

Global Instance nearby_le_dec a b : Decision (nearby_le a b).
Proof. unfold nearby_le. apply _. Defined.

(** LIMIT n; a negative n is no limit in SQLite. *)
Definition sql_limit {A} (n : Z) (l : list A) : list A :=
  if (n <? 0)%Z then l else firstn (Z.to_nat n) l.

(** What SQLite checks of a SELECT before it runs it.  A HAVING clause needs
    a GROUP BY clause or an aggregate among the result columns: without
    them the statement is not compiled ("HAVING clause on a non-aggregate
    query"; before version 3.39, "a GROUP BY clause is required before
    HAVING") and [conn.execute] raises [sqlite3.OperationalError]. *)
Record select_shape : Type := {
  has_aggregate : bool;
  has_group_by : bool;
  has_having : bool }.

Definition sqlite_prepare (q : select_shape) : outcome unit :=
  if has_having q && negb (has_group_by q) && negb (has_aggregate q)
  then Raises OperationalError
  else Returns tt.

(** The statement of [_query_nearby_stars_sync]: plain columns and
    SQRT(...), FROM, WHERE, HAVING, ORDER BY, LIMIT. *)
Definition nearby_statement : select_shape :=
  {| has_aggregate := false; has_group_by := false; has_having := true |}.

Section Query.
Variable SQRT : Q -> Q.    (* SQLite's math function *)

Definition distance_from_camera (camera_x camera_y camera_z : Q) (rw : row) : Q :=
  SQRT ((x rw - camera_x) * (x rw - camera_x) +
        (y rw - camera_y) * (y rw - camera_y) +
        (z rw - camera_z) * (z rw - camera_z)).

(** The clauses of the SELECT statement of [_query_nearby_stars_sync], read
    as the rows they describe. *)
Definition select_nearby (stars : list row)
    (camera_x camera_y camera_z mag_limit max_distance : Q) (max_stars : Z)
  : list (Q * row) :=
  let where_ := List.filter (fun rw => Qlt_bool (magnitude rw) mag_limit) stars in
  let computed := map (fun rw => (distance_from_camera camera_x camera_y camera_z rw, rw))
                      where_ in
  let having := List.filter (fun dr => Qlt_bool (fst dr) max_distance) computed in
  let ordered := merge_sort nearby_le having in
  sql_limit max_stars ordered.

(** [LocalCatalogService._query_nearby_stars_sync] *)
Definition _query_nearby_stars_sync (db : database)
    (camera_x camera_y camera_z max_distance : Q) (max_stars : Z) (mag_limit : Q)
  : list Star.t :=
  match db with
  | NotFound => []                      (* db_path.exists() is false *)
  | Failing => []                       (* except Exception: return [] *)
  | Table stars =>
      match sqlite_prepare nearby_statement with    (* conn.execute(query, ...) *)
      | Returns _ =>
          map (fun dr => star_of_row (snd dr))
              (select_nearby stars camera_x camera_y camera_z mag_limit max_distance
                             max_stars)
      | Raises _ => []                  (* except Exception: return [] *)
      end
  end.

(** The order of a result: nearer the camera first, and at the same
    distance the brighter first. *)
Definition star_distance (camera_x camera_y camera_z : Q) (p : Star.t) : Q :=
  SQRT ((Star.x p - camera_x) * (Star.x p - camera_x) +
        (Star.y p - camera_y) * (Star.y p - camera_y) +
        (Star.z p - camera_z) * (Star.z p - camera_z)).

Definition by_distance_then_magnitude (camera_x camera_y camera_z : Q)
    (p1 p2 : Star.t) : Prop :=
  star_distance camera_x camera_y camera_z p1 < star_distance camera_x camera_y camera_z p2 \/
  (star_distance camera_x camera_y camera_z p1 == star_distance camera_x camera_y camera_z p2 /\
   Star.magnitude p1 <= Star.magnitude p2).

(** [query_nearby_stars_async]: the same call on the executor. *)
Definition query_nearby_stars_async := _query_nearby_stars_sync.

(** The defaults of [query_nearby_stars_async]. *)
Definition default_max_distance : Q := 1000.
Definition default_max_stars : Z := 50000.
Definition default_mag_limit : Q := 15.
End Query.
End Catalog.

(** ** GaiaService *)

Module Gaia.
Import Cache.
Local Open Scope Q_scope.

(** One row of gaiadr3.gaia_source, the selected columns.  Rows without a G
    magnitude never pass the WHERE clause and are left out. *)
Record row : Type := {
  source_id : option Z;
  ra : Q; dec : Q;
  parallax : option Q;
  pmra : option Q; pmdec : option Q;
  phot_g_mean_mag : Q;
  bp_rp : option Q;
  radial_velocity : option Q;
  temperature : option Q }.

(** The archive, attempt by attempt: it fails, or it holds a table. *)
Definition archive : Type := nat -> option (list row).

(** [GaiaService._parallax_to_distance] *)
Definition _parallax_to_distance (parallax_mas : option Q) : Q :=
  match parallax_mas with
  | None => 1000
  | Some p =>
      if Qle_bool p 0 then 1000
      else
        let distance := 1000 / p in
        let m := if Qlt_bool 100000 distance then 100000 else distance in  (* min(distance, 100000.0) *)
        if Qlt_bool (1 # 10) m then m else 1 # 10                          (* max(0.1, .) *)
  end.

(** [GaiaService._bp_rp_to_rgb], its sums and products as exact numbers. *)
Definition _bp_rp_to_rgb (bp_rp : Q) : Q * Q * Q :=
  let normalized := (bp_rp + (1 # 2)) / (9 # 2) in
  let m := if Qlt_bool normalized 1 then normalized else 1 in
  let normalized := if Qlt_bool 0 m then m else 0 in
  if Qlt_bool normalized (2 # 10) then
    ((6 # 10) + normalized * 2, (7 # 10) + normalized * (3 # 2), 1)
  else if Qlt_bool normalized (5 # 10) then
    (1, 1, 1 - (normalized - (2 # 10)) * 2)
  else if Qlt_bool normalized (7 # 10) then
    (1, 1 - (normalized - (5 # 10)) * (3 # 2), 4 # 10)
  else
    (1, (6 # 10) - (normalized - (7 # 10)) * 1, 3 # 10).

Definition order_leb (a b : row) : bool := Qle_bool (phot_g_mean_mag a) (phot_g_mean_mag b).
Definition order_le (a b : row) : Prop := order_leb a b = true.

Global Instance order_le_dec a b : Decision (order_le a b).
Proof. unfold order_le. apply _. Defined.

(** The order of a cone result: by magnitude only. *)
Definition by_magnitude (p1 p2 : Star.t) : Prop := Star.magnitude p1 <= Star.magnitude p2.

(** The order the ordering invariant asks of a cone result: by the star's
    distance, then by magnitude. *)
Definition by_distance_pc_then_magnitude (p1 p2 : Star.t) : Prop :=
  Star.distance_pc p1 <= Star.distance_pc p2 \/
  (Star.distance_pc p1 == Star.distance_pc p2 /\ Star.magnitude p1 <= Star.magnitude p2).

(** Bounded retry with [reraise]: the last attempt's outcome stands. *)
Fixpoint retry {A} (attempts first : nat) (call : nat -> outcome A) : outcome A :=
  match attempts with
  | O => Raises UpstreamError
  | S O => call first
  | S n =>
      match call first with
      | Returns a => Returns a
      | Raises _ => retry n (S first) call
      end
  end.

Section Service.
(** numpy's functions on floats, and the archive's circle test
    [CONTAINS(POINT(ra, dec), CIRCLE(ra0, dec0, radius))]. *)
Variables np_radians np_degrees np_cos np_sin np_sqrt np_arcsin np_log10 : Q -> Q.
Variable np_arctan2 : Q -> Q -> Q.
Variable CONTAINS : Q -> Q -> Q -> Q -> Q -> bool.

Definition _equatorial_to_cartesian : Q -> Q -> Q -> Q * Q * Q :=
  Coord._equatorial_to_cartesian Q Qmult np_radians np_cos np_sin.

(** [GaiaService._cartesian_to_equatorial] *)
Definition _cartesian_to_equatorial (x y z : Q) : Q * Q :=
  let distance := np_sqrt (x * x + y * y + z * z) in
  if Qeq_bool distance 0 then (0, 0)
  else
    let ra_rad := np_arctan2 y x in
    let dec_rad := np_arcsin (z / distance) in
    let ra_deg := np_degrees ra_rad in
    let ra_deg := if Qlt_bool ra_deg 0 then ra_deg + 360 else ra_deg in
    let dec_deg := np_degrees dec_rad in
    (ra_deg, dec_deg).

(** The loop body of [_query_cone_sync]. *)
Definition star_of_row (rw : row) : Star.t :=
  let parallax_val := parallax rw in
  let bp_rp_val := bp_rp rw in
  let distance_pc := _parallax_to_distance parallax_val in
  let xyz := _equatorial_to_cartesian (ra rw) (dec rw) distance_pc in
  let color_rgb := _bp_rp_to_rgb (match bp_rp_val with Some c => c | None => 0 end) in
  {| Star.source_id := option_map PyFloat.int_repr (source_id rw);
     Star.ra := ra rw; Star.dec := dec rw;
     Star.x := fst (fst xyz); Star.y := snd (fst xyz); Star.z := snd xyz;
     Star.parallax := parallax_val;
     Star.distance_pc := distance_pc;
     Star.magnitude := phot_g_mean_mag rw;
     Star.color_bp_rp := bp_rp_val;
     Star.r := fst (fst color_rgb); Star.g := snd (fst color_rgb); Star.b := snd color_rgb;
     Star.pm_ra := match pmra rw with Some p => p | None => 0 end;
     Star.pm_dec := match pmdec rw with Some p => p | None => 0 end;
     Star.radial_velocity := radial_velocity rw;
     Star.temperature := temperature rw |}.

(** The ADQL query: SELECT TOP max_stars ... WHERE ... ORDER BY
    phot_g_mean_mag ASC.  TOP takes an unsigned integer. *)
Definition adql_cone (table : list row) (ra dec radius_deg : Q) (max_stars : Z)
    (min_magnitude : Q) : outcome (list row) :=
  if (max_stars <? 0)%Z then Raises UpstreamError
  else
    let where_ := List.filter
      (fun rw => CONTAINS (Gaia.ra rw) (Gaia.dec rw) ra dec radius_deg &&
                 Qlt_bool (phot_g_mean_mag rw) min_magnitude) table in
    let ordered := merge_sort order_le where_ in
    Returns (firstn (Z.to_nat max_stars) ordered).

(** [GaiaService._query_cone_sync], against the archive's answer to one
    attempt. *)
Definition _query_cone_sync (answer : option (list row))
    (ra dec radius_deg : Q) (max_stars : Z) (min_magnitude : Q)
  : outcome (list Star.t) :=
  match answer with
  | None => Raises UpstreamError        (* logged and re-raised *)
  | Some table =>
      match adql_cone table ra dec radius_deg max_stars min_magnitude with
      | Returns rows => Returns (map star_of_row rows)
      | Raises e => Raises e
      end
  end.

(** [GaiaService.query_cone_async], under [@retry(stop_after_attempt(3))]. *)
Definition query_cone_async (gaia : archive)
    (ra dec radius_deg : Q) (max_stars : Z) (min_magnitude : Q)
  : outcome (list Star.t) :=
  retry 3 0 (fun attempt =>
    _query_cone_sync (gaia attempt) ra dec radius_deg max_stars min_magnitude).

(** [GaiaService.query_frustum_async] *)
Definition query_frustum_async (gaia : archive)
    (camera_position camera_direction : Q * Q * Q)
    (fov_deg max_distance : Q) (max_stars : Z) : outcome (list Star.t) :=
  let '(dx, dy, dz) := camera_direction in
  let '(ra, dec) := _cartesian_to_equatorial dx dy dz in
  let radius_deg := fov_deg * (75 # 100) in
  let m := 15 + np_log10 (max_distance / 100) in
  let mag_limit := if Qlt_bool m 20 then m else 20 in      (* min(20.0, m) *)
  query_cone_async gaia ra dec radius_deg max_stars mag_limit.
End Service.
End Gaia.

(** ** Routes *)

Module Api.
Import Cache Key PyFloat.
Local Open Scope Q_scope.

Record StarResponse : Type := {
  count : nat;
  stars : list Star.t;
  cached : bool;
  query_time_ms : option Q }.

(** The readings of [time.time()] during one request, in call order. *)
Record clock : Type := { start_time : Q; get_time : Q; set_time : Q; end_time : Q }.

Section Routes.
Variable SQRT : Q -> Q.
Variable json_dumps : list Star.t -> outcome string.
Variable json_loads : string -> outcome (list Star.t).

Local Notation "'do' x <- c1 ; c2" := (bind c1 (fun x => c2))
  (at level 10, x name, c1 at level 100, c2 at level 200).
Local Notation "'run' c1 ; c2" := (bind c1 (fun _ => c2))
  (at level 10, c1 at level 100, c2 at level 200).

(** The catalog query of [query_region]: the request's parameters do not
    occur in it, and [max_stars] is left to its default. *)
Definition region_stars (db : Catalog.database) : list Star.t :=
  Catalog.query_nearby_stars_async SQRT db 0 0 0 1000 Catalog.default_max_stars 12.

(** [query_region], GET /api/stars/region *)
Definition query_region (db : Catalog.database) (o_get o_set : faults) (clk : clock)
    (ra dec radius : pyfloat) (limit : Z) : M (list Star.t) StarResponse :=
  try_except
    (let cache_key := region_cache_key ra dec radius limit in
     do cached_result <- get json_loads o_get (get_time clk) cache_key;
     match cached_result with
     | Some (st :: rest) =>             (* [if cached_result:] a non-empty list *)
         ret {| count := List.length (st :: rest); stars := st :: rest;
                cached := true; query_time_ms := Some 0 |}
     | _ =>
         let stars := region_stars db in
         run set json_dumps o_set (set_time clk) cache_key stars;
         let query_time := (end_time clk - start_time clk) * 1000 in
         ret {| count := List.length stars; stars := stars;
                cached := false; query_time_ms := Some query_time |}
     end)
    (fun _ => lift (Raises HTTPException)).
End Routes.

(** No entry under the request's key, in either tier. *)
Definition uncached (ra dec radius : pyfloat) (limit : Z)
    (s : CacheService (list Star.t)) : Prop :=
  memory_cache s !! _generate_key (region_cache_key ra dec radius limit) = None /\
  query_cache s !! _generate_key (region_cache_key ra dec radius limit) = None.

End Api.

(** ** Small instances, for the examples below *)

Module Examples.
Import PyFloat Key Cache Api.
Local Open Scope Q_scope.

(** A small instance: values are strings, stored as they are. *)
Definition demo_dumps (v : string) : outcome string := Returns v.
Definition demo_loads (js : string) : outcome string := Returns js.
Definition demo_query : Json.t := Json.JStr "stars:bright_catalog:7.0".

Definition demo_empty : CacheService string :=
  {| memory_cache := ∅; query_cache := ∅; enabled := true; ttl := 3600 |}.

(** The state after a restart: one row in the durable tier, stamped 100. *)
Definition demo_restarted : CacheService string :=
  {| memory_cache := ∅;
     query_cache := {[ _generate_key demo_query :=
                         {| row_value := "sirius"; row_timestamp := 100 |} ]};
     enabled := true; ttl := 3600 |}.

(** The storage is unavailable: every connection attempt raises. *)
Definition demo_unavailable : faults :=
  fun op => match op with OpConnect => true | _ => false end.

(** A small sky: two stars, the brighter one the farther. *)
Definition far_bright : Gaia.row :=
  {| Gaia.source_id := Some 1%Z; Gaia.ra := 0; Gaia.dec := 0;
     Gaia.parallax := Some 10; Gaia.pmra := None; Gaia.pmdec := None;
     Gaia.phot_g_mean_mag := 1; Gaia.bp_rp := None;
     Gaia.radial_velocity := None; Gaia.temperature := None |}.

Definition near_faint : Gaia.row :=
  {| Gaia.source_id := Some 2%Z; Gaia.ra := 1; Gaia.dec := 1;
     Gaia.parallax := Some 100; Gaia.pmra := None; Gaia.pmdec := None;
     Gaia.phot_g_mean_mag := 2; Gaia.bp_rp := None;
     Gaia.radial_velocity := None; Gaia.temperature := None |}.

Definition demo_archive : Gaia.archive := fun _ => Some [near_faint; far_bright].

Definition demo_cone (max_stars : Z) : outcome (list Star.t) :=
  Gaia.query_cone_async (fun v => v) (fun v => v) (fun v => v)
    (fun _ _ _ _ _ => true) demo_archive 0 0 5 max_stars 20.

(** A catalog of two stars and an empty cache. *)
Definition sirius : Catalog.row :=
  {| Catalog.source_id := 1%Z; Catalog.ra := 101; Catalog.dec := -17;
     Catalog.x := -1; Catalog.y := -1; Catalog.z := 2;
     Catalog.parallax := Some 379; Catalog.distance_pc := 3;
     Catalog.magnitude := -1; Catalog.bp_rp := Some 0;
     Catalog.pmra := None; Catalog.pmdec := None;
     Catalog.radial_velocity := None; Catalog.temperature := None |}.

Definition vega : Catalog.row :=
  {| Catalog.source_id := 2%Z; Catalog.ra := 279; Catalog.dec := 39;
     Catalog.x := 1; Catalog.y := 5; Catalog.z := -6;
     Catalog.parallax := Some 130; Catalog.distance_pc := 8;
     Catalog.magnitude := 0; Catalog.bp_rp := Some 0;
     Catalog.pmra := None; Catalog.pmdec := None;
     Catalog.radial_velocity := None; Catalog.temperature := None |}.

Definition two_stars : Catalog.database := Catalog.Table [vega; sirius].

Definition cold_cache : CacheService (list Star.t) :=
  {| memory_cache := ∅; query_cache := ∅; enabled := true; ttl := 3600 |}.

Definition never_dumps (v : list Star.t) : outcome string := Raises JSONError.
Definition never_loads (js : string) : outcome (list Star.t) := Raises JSONError.
Definition noon : clock :=
  {| start_time := 0; get_time := 0; set_time := 1; end_time := 2 |}.

End Examples.

(** ** CacheService: maintenance (clear_expired, clear_all, stats, restart) *)

Module CacheAdmin.
Import Key Cache.

(** What [stats] returns. *)
Record Stats : Type := {
  stats_enabled : bool;
  memory_entries : nat;
  db_entries : nat;
  ttl_seconds : Z }.

Section Service.
Context {V : Type}.

Local Notation "'do' x <- c1 ; c2" := (bind c1 (fun x => c2))
  (at level 10, x name, c1 at level 100, c2 at level 200).
Local Notation "'run' c1 ; c2" := (bind c1 (fun _ => c2))
  (at level 10, c1 at level 100, c2 at level 200).

(** [clear_expired], the memory part: the keys whose entry is stamped before
    the cutoff are collected, then deleted one by one. *)
Definition expired_keys (cutoff : Q) (m : gmap string (mem_entry V)) : list string :=
  map fst (List.filter (fun kv => Qlt_bool (timestamp (snd kv)) cutoff) (map_to_list m)).

Definition delete_keys (keys : list string) (m : gmap string (mem_entry V))
  : gmap string (mem_entry V) :=
  fold_left (fun acc key => delete key acc) keys m.

(** DELETE FROM query_cache WHERE timestamp < cutoff *)
Definition delete_before (cutoff : Q) (d : gmap string db_row) : gmap string db_row :=
  filter (fun kr => Qlt_bool (row_timestamp (snd kr)) cutoff = false) d.

(** [CacheService.clear_expired] *)
Definition clear_expired (o : faults) (current_time : Q) : M V unit :=
  do s <- get_state;
  if negb (enabled s) then ret tt
  else
    let cutoff := (current_time - inject_Z (ttl s))%Q in
    run modify (fun s =>
          with_memory (delete_keys (expired_keys cutoff (memory_cache s)) (memory_cache s)) s);
    try_except
      (run db_connect o;
       do pending <- db_execute o (delete_before cutoff);
       db_commit o pending)
      (fun _ => ret tt).

(** SELECT COUNT( * ) FROM query_cache *)
Definition db_count (o : faults) : M V nat :=
  run raise_if o OpSelect;
  do s <- get_state;
  ret (size (query_cache s)).

(** [CacheService.stats] *)
Definition stats (o : faults) : M V Stats :=
  do s <- get_state;
  let stats0 := {| stats_enabled := enabled s;
                   memory_entries := size (memory_cache s);
                   db_entries := 0;
                   ttl_seconds := ttl s |} in
  try_except
    (run db_connect o;
     do n <- db_count o;
     ret {| stats_enabled := stats_enabled stats0;
            memory_entries := memory_entries stats0;
            db_entries := n;
            ttl_seconds := ttl_seconds stats0 |})
    (fun _ => ret stats0).

(** [CacheService.clear_all]; it does not look at [enabled]. *)
Definition clear_all (o : faults) : M V unit :=
  run modify (with_memory ∅);
  try_except
    (run db_connect o;
     do pending <- db_execute o (fun _ => ∅);
     db_commit o pending)
    (fun _ => ret tt).

(** A new process on the same cache.db: [__init__] starts with an empty
    dict, the table is what the file holds. *)
Definition restart (s : CacheService V) : CacheService V := with_memory ∅ s.

(** What a lookup answers, as a function of the row and of the entry found
    under the key: the durable part, then the whole of [get]. *)
Definition durable_answer (json_loads : string -> outcome V) (o : faults) (now : Q)
    (ttl : Z) (row : option db_row) : option V :=
  if o OpConnect || o OpSelect then None
  else match row with
       | Some r =>
           if Qlt_bool (now - row_timestamp r) (inject_Z ttl) then
             match json_loads (row_value r) with
             | Returns v => Some v
             | Raises _ => None
             end
           else None
       | None => None
       end.

Definition answer (json_loads : string -> outcome V) (o : faults) (now : Q) (ttl : Z)
    (cached : option (mem_entry V)) (row : option db_row) : option V :=
  match cached with
  | Some e =>
      if Qlt_bool (now - timestamp e) (inject_Z ttl) then Some (value e)
      else durable_answer json_loads o now ttl row
  | None => durable_answer json_loads o now ttl row
  end.

(** An entry or row under [key] that is expired at time [t], if there is any. *)
Definition expired_at (t : Q) (key : string) (s : CacheService V) : Prop :=
  (forall e, memory_cache s !! key = Some e -> (inject_Z (ttl s) <= t - timestamp e)%Q) /\
  (forall r, query_cache s !! key = Some r -> (inject_Z (ttl s) <= t - row_timestamp r)%Q).

End Service.
End CacheAdmin.

(** ** LocalCatalogService: the bright-star query *)

Module BrightCatalog.
Import Cache Catalog.
Local Open Scope Q_scope.

(** ORDER BY magnitude ASC *)
Definition bright_leb (a b : row) : bool := Qle_bool (magnitude a) (magnitude b).
Definition bright_le (a b : row) : Prop := bright_leb a b = true.

Global Instance bright_le_dec a b : Decision (bright_le a b).
Proof. unfold bright_le. apply _. Defined.

(** SELECT * FROM stars WHERE magnitude < ? ORDER BY magnitude ASC *)
Definition select_bright (stars : list row) (mag_limit : Q) : list row :=
  let where_ := List.filter (fun rw => Qlt_bool (magnitude rw) mag_limit) stars in
  merge_sort bright_le where_.

(** [LocalCatalogService._query_all_bright_stars_sync]; the loop body is
    the one of the nearby-star query. *)
Definition _query_all_bright_stars_sync (db : database) (mag_limit : Q) : list Star.t :=
  match db with
  | NotFound => []                      (* db_path.exists() is false *)
  | Failing => []                       (* except Exception: return [] *)
  | Table stars => map star_of_row (select_bright stars mag_limit)
  end.

(** [query_all_bright_stars_async]: the same call on the executor. *)
Definition query_all_bright_stars_async := _query_all_bright_stars_sync.

End BrightCatalog.

(** ** GaiaService: what a cone query selects *)

Module ConeSelection.
Local Open Scope Q_scope.

(** A star of a cone result: brighter than the limit, inside the circle
    ([CONTAINS] is the archive's test), at a distance the service can
    report. *)
Definition cone_star (CONTAINS : Q -> Q -> Q -> Q -> Q -> bool)
    (ra dec radius min_magnitude : Q) (p : Star.t) : Prop :=
  Star.magnitude p < min_magnitude /\
  CONTAINS (Star.ra p) (Star.dec p) ra dec radius = true /\
  1 # 10 <= Star.distance_pc p /\ Star.distance_pc p <= 100000.

End ConeSelection.

(** ** download_gaia_catalog.py: the columns the build script computes *)

Module Download.
Import Cache.
Local Open Scope Q_scope.

(** [Series.clip(lower=...)], one value. *)
Definition clip_lower (lower v : Q) : Q := if Qlt_bool v lower then lower else v.

(** df['distance_pc'] = 1000.0 / df['parallax'].clip(lower=0.001), the
    quotient as the exact number. *)
Definition distance_pc (parallax : Q) : Q := 1000 / clip_lower (1 # 1000) parallax.

(** The same column as the script stores it: 0.001 is the double the literal
    denotes, and the quotient is rounded to a double. *)
Definition stored_distance_pc (parallax : Q) : Q :=
  PyFloat.nearest_double (1000 / clip_lower (PyFloat.nearest_double (1 # 1000)) parallax).

(** min_parallax = 1000.0 / max_distance_pc, a division of doubles. *)
Definition min_parallax (max_distance_pc : Q) : Q :=
  PyFloat.nearest_double (1000 / max_distance_pc).

(** The WHERE clause of the download: phot_g_mean_mag < mag_limit AND
    parallax IS NOT NULL, and, when [max_distance_pc] is given and not zero
    ([if max_distance_pc:]), AND parallax > min_parallax. *)
Definition where_clause (mag_limit : Q) (max_distance_pc : option Q) (rw : Gaia.row) : bool :=
  Qlt_bool (Gaia.phot_g_mean_mag rw) mag_limit &&
  match Gaia.parallax rw with
  | None => false
  | Some parallax =>
      match max_distance_pc with
      | None => true
      | Some d =>
          if Qeq_bool d 0 then true
          else Qlt_bool (min_parallax d) parallax
      end
  end.

End Download.

(** ** CoordinateMath, the way back: Cartesian to equatorial, over the reals *)

Module Equatorial.
Import Coord.
Local Open Scope R_scope.

(** [np.degrees] *)
Definition degrees (rad : R) : R := rad * (180 / PI).

(** [np.arctan2(y, x)]: the angle of the point (x, y), in (-pi, pi]; 0 at
    the origin. *)
Definition arctan2 (y x : R) : R :=
  if Rlt_dec 0 x then atan (y / x)
  else if Rlt_dec x 0 then
    if Rle_dec 0 y then atan (y / x) + PI else atan (y / x) - PI
  else if Rlt_dec 0 y then PI / 2
  else if Rlt_dec y 0 then - (PI / 2)
  else 0.

(** [GaiaService._cartesian_to_equatorial] *)
Definition _cartesian_to_equatorial (x y z : R) : R * R :=
  let distance := sqrt (x ^ 2 + y ^ 2 + z ^ 2) in
  if Req_dec_T distance 0 then (0, 0)
  else
    let ra_rad := arctan2 y x in
    let dec_rad := asin (z / distance) in
    let ra_deg := degrees ra_rad in
    let ra_deg := if Rlt_dec ra_deg 0 then ra_deg + 360 else ra_deg in
    let dec_deg := degrees dec_rad in
    (ra_deg, dec_deg).

(** The distance of a point from the origin. *)
Definition norm (p : R * R * R) : R :=
  let '(x, y, z) := p in sqrt (x ^ 2 + y ^ 2 + z ^ 2).

End Equatorial.

(** ** Characters of a key and of a key text *)

Module KeyText.

(** A lowercase hexadecimal digit. *)
Definition is_hex (c : ascii) : bool :=
  let n := nat_of_ascii c in
  (48 <=? n)%nat && (n <=? 57)%nat || (97 <=? n)%nat && (n <=? 102)%nat.

(** A character [json.dumps] writes as it is: printable ASCII other than
    the double quote and the backslash. *)
Definition is_plain (c : ascii) : bool :=
  let n := nat_of_ascii c in
  (32 <=? n)%nat && (n <=? 126)%nat && negb (n =? 34)%nat && negb (n =? 92)%nat.

End KeyText.

(** ** Routes: bright-catalog, cone, frustum, galactic-center *)

Module StarsApi.
Import Cache Key PyFloat Api.
Local Open Scope Q_scope.

Record BrightCatalogResponse : Type := {
  bright_count : nat;
  bright_stars : list Star.t;
  magnitude_limit : pyfloat;
  bright_cached : bool;
  bright_query_time_ms : option Q }.

(** What the body of a handler can raise: an exception of a service, a
    name the module does not define, a request model that fails
    validation. *)
Inductive raised : Type :=
| Of (e : exn)
| NameError (name : string)
| ValidationError (model : string).

(** The names routes/stars_api.py binds at module level: its imports, then
    its classes, its router and its handlers. *)
Definition module_globals : list string :=
  [ "APIRouter"; "HTTPException"; "Query";
    "List"; "Dict"; "Optional";
    "BaseModel"; "Field";
    "logger";
    "local_catalog_service";
    "cache_service";
    "settings";
    "router";
    "StarResponse"; "BrightCatalogResponse";
    "query_region"; "get_bright_catalog";
    "ConeQueryParams"; "FrustumQueryParams";
    "query_cone"; "query_frustum"; "query_galactic_center" ].

(** A handler body: state of the cache service, and a value or what was
    raised. *)
Definition H (A : Type) : Type :=
  CacheService (list Star.t) -> (A + raised) * CacheService (list Star.t).

Definition hret {A} (a : A) : H A := fun s => (inl a, s).

Definition hbind {A B} (c : H A) (k : A -> H B) : H B :=
  fun s => match c s with
           | (inl a, s') => k a s'
           | (inr e, s') => (inr e, s')
           end.

Definition hraise {A} (e : raised) : H A := fun s => (inr e, s).

(** A call into the cache service. *)
Definition of_service {A} (c : M (list Star.t) A) : H A :=
  fun s => match c s with
           | (Returns a, s') => (inl a, s')
           | (Raises e, s') => (inr (Of e), s')
           end.

(** A call that touches no state. *)
Definition of_call {A} (r : outcome A) : H A :=
  fun s => match r with
           | Returns a => (inl a, s)
           | Raises e => (inr (Of e), s)
           end.

(** Evaluating a global name. *)
Definition global (name : string) : H unit :=
  fun s => if existsb (String.eqb name) module_globals then (inl tt, s)
           else (inr (NameError name), s).

(** [try: body / except Exception as e: raise HTTPException(status_code=500, ...)] *)
Definition or_http_500 {A} (body : H A) : M (list Star.t) A :=
  fun s => match body s with
           | (inl a, s') => (Returns a, s')
           | (inr _, s') => (Raises HTTPException, s')
           end.

(** The bounds pydantic checks when a [ConeQueryParams] is built. *)
Definition cone_valid (p : ConeQueryParams) : bool :=
  Qle_bool 0 (float_value (cone_ra p)) && Qle_bool (float_value (cone_ra p)) 360 &&
  Qle_bool (-90) (float_value (cone_dec p)) && Qle_bool (float_value (cone_dec p)) 90 &&
  Qlt_bool 0 (float_value (cone_radius p)) && Qle_bool (float_value (cone_radius p)) 10 &&
  (1 <=? cone_max_stars p)%Z && (cone_max_stars p <=? 100000)%Z &&
  Qle_bool 0 (float_value (cone_min_magnitude p)) &&
  Qle_bool (float_value (cone_min_magnitude p)) 25.

(** [ConeQueryParams(ra=..., ...)] *)
Definition ConeQueryParams_init (ra dec radius : pyfloat) (max_stars : Z)
    (min_magnitude : pyfloat) : H ConeQueryParams :=
  let p := {| cone_ra := ra; cone_dec := dec; cone_radius := radius;
              cone_max_stars := max_stars; cone_min_magnitude := min_magnitude |} in
  if cone_valid p then hret p else hraise (ValidationError "ConeQueryParams").

(** The bounds FastAPI checks on the parameters of /galactic-center. *)
Definition galactic_center_valid (radius : pyfloat) (max_stars : Z) : bool :=
  Qle_bool (1 # 10) (float_value radius) && Qle_bool (float_value radius) 20 &&
  (100 <=? max_stars)%Z && (max_stars <=? 100000)%Z.

Section Routes.
Variables np_radians np_degrees np_cos np_sin np_sqrt np_arcsin np_log10 : Q -> Q.
Variable np_arctan2 : Q -> Q -> Q.
Variable CONTAINS : Q -> Q -> Q -> Q -> Q -> bool.
Variable json_dumps : list Star.t -> outcome string.
Variable json_loads : string -> outcome (list Star.t).

Local Notation "'do' x <- c1 ; c2" := (hbind c1 (fun x => c2))
  (at level 10, x name, c1 at level 100, c2 at level 200).
Local Notation "'run' c1 ; c2" := (hbind c1 (fun _ => c2))
  (at level 10, c1 at level 100, c2 at level 200).

(** [get_bright_catalog], the [cache_key] f-string. *)
Definition bright_cache_key (mag_limit : pyfloat) : Json.t :=
  Json.JStr ("stars:bright_catalog:" +:+ float_repr mag_limit).

(** [get_bright_catalog], GET /api/stars/bright-catalog *)
Definition get_bright_catalog (db : Catalog.database) (o_get o_set : faults) (clk : clock)
    (mag_limit : pyfloat) : M (list Star.t) BrightCatalogResponse :=
  or_http_500
    (let cache_key := bright_cache_key mag_limit in
     do cached_result <- of_service (get json_loads o_get (get_time clk) cache_key);
     match cached_result with
     | Some (st :: rest) =>
         hret {| bright_count := List.length (st :: rest); bright_stars := st :: rest;
                 magnitude_limit := mag_limit; bright_cached := true;
                 bright_query_time_ms := Some 0 |}
     | _ =>
         let stars := BrightCatalog.query_all_bright_stars_async db (float_value mag_limit) in
         run of_service (set json_dumps o_set (set_time clk) cache_key stars);
         let query_time := (end_time clk - start_time clk) * 1000 in
         hret {| bright_count := List.length stars; bright_stars := stars;
                 magnitude_limit := mag_limit; bright_cached := false;
                 bright_query_time_ms := Some query_time |}
     end).

(** [query_cone], POST /api/stars/cone *)
Definition query_cone (gaia : Gaia.archive) (o_get o_set : faults) (clk : clock)
    (params : ConeQueryParams) : M (list Star.t) StarResponse :=
  or_http_500
    (let cache_key := cone_cache_key params in
     do cached_result <- of_service (get json_loads o_get (get_time clk) cache_key);
     match cached_result with
     | Some (st :: rest) =>
         hret {| count := List.length (st :: rest); stars := st :: rest;
                 cached := true; query_time_ms := None |}
     | _ =>
         run global "gaia_service";
         do stars <- of_call
             (Gaia.query_cone_async np_radians np_cos np_sin CONTAINS gaia
                (float_value (cone_ra params)) (float_value (cone_dec params))
                (float_value (cone_radius params)) (cone_max_stars params)
                (float_value (cone_min_magnitude params)));
         run of_service (set json_dumps o_set (set_time clk) cache_key stars);
         let query_time := (end_time clk - start_time clk) * 1000 in
         hret {| count := List.length stars; stars := stars;
                 cached := false; query_time_ms := Some query_time |}
     end).

(** [query_frustum], POST /api/stars/frustum *)
Definition query_frustum (gaia : Gaia.archive) (o_get o_set : faults) (clk : clock)
    (params : FrustumQueryParams) : M (list Star.t) StarResponse :=
  or_http_500
    (let cache_key := frustum_cache_key params in
     do cached_result <- of_service (get json_loads o_get (get_time clk) cache_key);
     match cached_result with
     | Some (st :: rest) =>
         hret {| count := List.length (st :: rest); stars := st :: rest;
                 cached := true; query_time_ms := None |}
     | _ =>
         run global "gaia_service";
         do stars <- of_call
             (Gaia.query_frustum_async np_radians np_degrees np_cos np_sin np_sqrt
                np_arcsin np_log10 np_arctan2 CONTAINS gaia
                (float_value (camera_x params), float_value (camera_y params),
                 float_value (camera_z params))
                (float_value (direction_x params), float_value (direction_y params),
                 float_value (direction_z params))
                (float_value (fov params)) (float_value (fr_max_distance params))
                (fr_max_stars params));
         run of_service (set json_dumps o_set (set_time clk) cache_key stars);
         let query_time := (end_time clk - start_time clk) * 1000 in
         hret {| count := List.length stars; stars := stars;
                 cached := false; query_time_ms := Some query_time |}
     end).

(** [query_galactic_center], GET /api/stars/galactic-center: the request
    model is built outside any [try], then [query_cone] is called as a
    plain function. *)
Definition query_galactic_center (gaia : Gaia.archive) (o_get o_set : faults) (clk : clock)
    (radius : pyfloat) (max_stars : Z) : H StarResponse :=
  do params <- ConeQueryParams_init (mk false 2664 (-1)) (mk true 29 0) radius max_stars
                 (mk false 18 0);
  of_service (query_cone gaia o_get o_set clk params).

End Routes.

(** What the cache answers a handler: a non-empty list is a hit
    ([if cached_result:]). *)
Definition cache_hit (r : outcome (option (list Star.t))) : option (list Star.t) :=
  match r with
  | Returns (Some (st :: rest)) => Some (st :: rest)
  | _ => None
  end.

End StarsApi.

(** ** More small instances *)

Module MoreExamples.
Import Key Cache Examples.
Local Open Scope Q_scope.

(** The service with [CACHE_ENABLED] off. *)
Definition demo_disabled : CacheService string :=
  {| memory_cache := ∅; query_cache := ∅; enabled := false; ttl := 3600 |}.

Definition other_query : Json.t := Json.JStr "stars:bright_catalog:6.5".

(** The row of [demo_restarted]. *)
Definition sirius_row : db_row := {| row_value := "sirius"; row_timestamp := 100 |}.

(** A star whose parallax is the double next to 1000 / 17. *)
Definition parallax_17 : Q := PyFloat.float_value (PyFloat.mk false 5882352941176471 (-14)).

Definition at_17_parsecs : Gaia.row :=
  {| Gaia.source_id := Some 3%Z; Gaia.ra := 1; Gaia.dec := 1;
     Gaia.parallax := Some parallax_17; Gaia.pmra := None; Gaia.pmdec := None;
     Gaia.phot_g_mean_mag := 2; Gaia.bp_rp := None;
     Gaia.radial_velocity := None; Gaia.temperature := None |}.

(** A cache that holds an empty list for one region request. *)
Definition small_region : Json.t :=
  region_cache_key (PyFloat.mk false 10 0) (PyFloat.mk false 20 0) (PyFloat.mk false 1 0) 1.

Definition empty_cached : CacheService (list Star.t) :=
  {| memory_cache := {[ _generate_key small_region := {| value := []; timestamp := 0 |} ]};
     query_cache := ∅; enabled := true; ttl := 3600 |}.

End MoreExamples.

(** * Properties *)

(** ** CoordinateMath *)

Module CoordSpec.
Import Coord.
Local Open Scope R_scope.

Lemma radians_0 : radians 0 = 0.
Proof. unfold radians. field. Qed.

Lemma radians_90 : radians 90 = PI / 2.
Proof. unfold radians. field. Qed.

(** The catalog build writes the service's triple with y and z exchanged. *)
Lemma catalog_xyz_swaps (ra dec d : R) :
  catalog_xyz ra dec d =
  (fst (fst (service_xyz ra dec d)), snd (service_xyz ra dec d),
   snd (fst (service_xyz ra dec d))).
Proof. reflexivity. Qed.

(** C8, as the code has it: for every ra, dec and every distance, a negative
    one included, the projection returns the triple
    (d cos dec cos ra, d cos dec sin ra, d sin dec) and raises nothing; at
    distance -d it is the point opposite the one at distance d. *)
Theorem equatorial_to_cartesian_total (ra dec d : R) :
  service_call ra dec d =
    Returns (d * cos (radians dec) * cos (radians ra),
             d * cos (radians dec) * sin (radians ra),
             d * sin (radians dec)) /\
  service_xyz ra dec (- d) =
    (- fst (fst (service_xyz ra dec d)), - snd (fst (service_xyz ra dec d)),
     - snd (service_xyz ra dec d)).
Proof.
  split; [reflexivity |].
  unfold service_xyz, _equatorial_to_cartesian; cbn [fst snd].
  f_equal; [f_equal |]; ring.
Qed.

(** C8 as stated fails: at ra = 0, dec = 0, distance = -1 the call returns
    (-1, 0, 0) instead of raising InvalidInput. *)
Lemma negative_distance_is_projected :
  -1 < 0 /\
  service_call 0 0 (-1) = Returns (-1, 0, 0) /\
  service_call 0 0 (-1) <> Raises InvalidInput.
Proof.
  split; [lra |]. split; [| discriminate].
  unfold service_call, equatorialToCartesian, _equatorial_to_cartesian.
  rewrite radians_0, cos_0, sin_0.
  do 2 f_equal; [f_equal |]; ring.
Qed.

(** C9: at ra = 90, dec = 0, distance = 1 the query service returns
    (0, 1, 0) and the catalog build stores (0, 0, 1): the two conversions
    do not follow one convention. *)
Theorem projection_conventions_differ :
  service_xyz 90 0 1 = (0, 1, 0) /\
  catalog_xyz 90 0 1 = (0, 0, 1) /\
  service_xyz 90 0 1 <> catalog_xyz 90 0 1.
Proof.
  assert (Hs : service_xyz 90 0 1 = (0, 1, 0)).
  { unfold service_xyz, _equatorial_to_cartesian.
    rewrite radians_0, radians_90, cos_0, sin_0, cos_PI2, sin_PI2.
    f_equal; [f_equal |]; ring. }
  assert (Hc : catalog_xyz 90 0 1 = (0, 0, 1)).
  { rewrite catalog_xyz_swaps, Hs. reflexivity. }
  split; [exact Hs |]. split; [exact Hc |].
  rewrite Hs, Hc. intros H. injection H as H1 H2. lra.
Qed.

End CoordSpec.

(** ** CacheEngine *)

Module CacheSpec.
Import Key Cache Examples.

Lemma Qlt_bool_true (x y : Q) : Qlt_bool x y = true <-> (x < y)%Q.
Proof.
  unfold Qlt_bool. rewrite negb_true_iff. split.
  - intros H. apply Qnot_le_lt. intros Hle. apply Qle_bool_iff in Hle. congruence.
  - intros H. destruct (Qle_bool y x) eqn:E; [| reflexivity].
    apply Qle_bool_iff in E. exfalso. apply (Qlt_not_le _ _ H E).
Qed.

Lemma Qlt_bool_false (x y : Q) : Qlt_bool x y = false <-> (y <= x)%Q.
Proof.
  unfold Qlt_bool. rewrite negb_false_iff. apply Qle_bool_iff.
Qed.

Section Facts.
Context {V : Type}.
Variable json_dumps : V -> outcome string.
Variable json_loads : string -> outcome V.

Implicit Types (s : CacheService V) (o : faults) (e : mem_entry V).

Ltac run_monad :=
  unfold get, set, get_memory, get_durable, set_durable, db_connect, db_select,
    db_execute, db_commit, raise_if, try_except, bind, ret, lift, get_state, modify;
  cbn [fst snd enabled ttl memory_cache query_cache with_memory with_table negb].

(** The memory check alone. *)
Lemma get_memory_fresh now key s e :
  memory_cache s !! key = Some e ->
  (now - timestamp e < inject_Z (ttl s))%Q ->
  get_memory now key s = (Returns (Some (value e)), s).
Proof.
  intros Hm Hf. run_monad. rewrite Hm.
  apply Qlt_bool_true in Hf. rewrite Hf. reflexivity.
Qed.

Lemma get_memory_expired now key s e :
  memory_cache s !! key = Some e ->
  (inject_Z (ttl s) <= now - timestamp e)%Q ->
  get_memory now key s =
    (Returns None, with_memory (delete key (memory_cache s)) s).
Proof.
  intros Hm Hf. run_monad. rewrite Hm.
  apply Qlt_bool_false in Hf. rewrite Hf. reflexivity.
Qed.

Lemma get_memory_absent now key s :
  memory_cache s !! key = None ->
  get_memory now key s = (Returns None, s).
Proof. intros Hm. run_monad. rewrite Hm. reflexivity. Qed.

Lemma get_memory_miss now key s :
  no_fresh_entry now key s ->
  get_memory now key s =
    (Returns None, with_memory (delete key (memory_cache s)) s).
Proof.
  intros Hn. destruct (memory_cache s !! key) as [e |] eqn:Hm.
  - apply (get_memory_expired _ _ _ e); auto.
  - rewrite get_memory_absent by assumption.
    rewrite delete_id by assumption. destruct s; reflexivity.
Qed.

(** [get] is the memory check followed, on a miss, by the guarded durable
    lookup. *)
Lemma get_unfold o now q s :
  enabled s = true ->
  get json_loads o now q s =
    match get_memory now (_generate_key q) s with
    | (Returns (Some v), s') => (Returns (Some v), s')
    | (Returns None, s') =>
        match get_durable json_loads o now (_generate_key q) s' with
        | (Returns r, s'') => (Returns r, s'')
        | (Raises _, s'') => (Returns None, s'')
        end
    | (Raises e, s') => (Raises e, s')
    end.
Proof.
  intros He. unfold get at 1. unfold bind at 1. unfold get_state at 1.
  rewrite He. cbn [negb]. unfold bind at 1.
  destruct (get_memory now (_generate_key q) s) as [[[v |] | e] s']; reflexivity.
Qed.


(** The durable lookup, case by case. *)
Lemma get_durable_promote o now key s r v :
  o OpConnect = false -> o OpSelect = false ->
  query_cache s !! key = Some r ->
  (now - row_timestamp r < inject_Z (ttl s))%Q ->
  json_loads (row_value r) = Returns v ->
  get_durable json_loads o now key s =
    (Returns (Some v),
     with_memory (<[key := {| value := v; timestamp := row_timestamp r |}]>
                    (memory_cache s)) s).
Proof.
  intros Hc Hs Hr Hf Hl. run_monad. rewrite Hc, Hs, Hr.
  apply Qlt_bool_true in Hf. rewrite Hf, Hl. reflexivity.
Qed.

Lemma get_durable_delete o now key s r :
  (forall op, o op = false) ->
  query_cache s !! key = Some r ->
  (inject_Z (ttl s) <= now - row_timestamp r)%Q ->
  get_durable json_loads o now key s =
    (Returns None, with_table (delete key (query_cache s)) s).
Proof.
  intros Ho Hr Hf. run_monad. rewrite !Ho, Hr.
  apply Qlt_bool_false in Hf. rewrite Hf. reflexivity.
Qed.

Lemma get_durable_absent o now key s :
  query_cache s !! key = None ->
  get_durable json_loads o now key s = (Returns None, s) \/
  get_durable json_loads o now key s = (Raises OperationalError, s).
Proof.
  intros Hr. run_monad.
  destruct (o OpConnect); [right; reflexivity |].
  destruct (o OpSelect); [right; reflexivity |].
  rewrite Hr. left; reflexivity.
Qed.

(** Whatever fails, a durable lookup that finds no unexpired row yields no
    value. *)
Lemma get_durable_stale o now key s :
  (forall r, query_cache s !! key = Some r ->
             (inject_Z (ttl s) <= now - row_timestamp r)%Q) ->
  forall v, fst (get_durable json_loads o now key s) <> Returns (Some v).
Proof.
  intros Hst v. run_monad.
  destruct (o OpConnect); [discriminate |].
  destruct (o OpSelect); [discriminate |].
  destruct (query_cache s !! key) as [r |] eqn:Hr; [| discriminate].
  specialize (Hst r eq_refl). apply Qlt_bool_false in Hst. rewrite Hst.
  destruct (o OpExecute); [discriminate |].
  destruct (o OpCommit); discriminate.
Qed.

(** [get] has no exit by exception. *)
Lemma get_never_raises o now q s :
  exists r s', get json_loads o now q s = (Returns r, s').
Proof.
  destruct (enabled s) eqn:He.
  - rewrite get_unfold by assumption.
    destruct (get_memory now (_generate_key q) s) as [[[v |] | e] s'] eqn:Hm.
    + eauto.
    + destruct (get_durable json_loads o now (_generate_key q) s') as [[r | e] s''];
        eauto.
    + exfalso. revert Hm. run_monad.
      destruct (memory_cache s !! _generate_key q) as [c |]; [| discriminate].
      destruct (Qlt_bool _ _); discriminate.
  - exists None, s. unfold get, bind, get_state, ret. rewrite He. reflexivity.
Qed.

(** [set] writes the volatile tier first and survives the durable tier. *)
Lemma set_unfold o now q v s :
  enabled s = true ->
  set json_dumps o now q v s =
    let s1 := with_memory
                (<[_generate_key q := {| value := v; timestamp := now |}]>
                   (memory_cache s)) s in
    (Returns tt, snd (set_durable json_dumps o now (_generate_key q) v s1)).
Proof.
  intros He. unfold set, bind at 1, get_state. rewrite He. cbn [negb].
  unfold bind at 1, modify, try_except. cbn zeta.
  destruct (set_durable _ _ _ _ _ _) as [[[] | e] s']; reflexivity.
Qed.

Lemma set_durable_state o now key v s :
  let s' := snd (set_durable json_dumps o now key v s) in
  memory_cache s' = memory_cache s /\ enabled s' = enabled s /\ ttl s' = ttl s /\
  (query_cache s' = query_cache s \/
   exists js, query_cache s' =
              <[key := {| row_value := js; row_timestamp := now |}]> (query_cache s)).
Proof.
  run_monad.
  destruct (json_dumps v) as [js | e]; [| cbn; auto].
  destruct (o OpConnect); [cbn; auto |].
  destruct (o OpExecute); [cbn; auto |].
  destruct (o OpCommit); cbn; eauto 6.
Qed.


(** Nothing stored under the key: [get] finds nothing and changes nothing. *)
Lemma get_absent o now q s :
  memory_cache s !! _generate_key q = None ->
  query_cache s !! _generate_key q = None ->
  get json_loads o now q s = (Returns None, s).
Proof.
  intros Hm Hd. destruct (enabled s) eqn:He.
  - rewrite get_unfold by assumption. rewrite get_memory_absent by assumption.
    destruct (get_durable_absent o now _ s Hd) as [-> | ->]; reflexivity.
  - unfold get, bind, get_state, ret. rewrite He. reflexivity.
Qed.

Lemma set_never_raises o now q v s :
  exists s', set json_dumps o now q v s = (Returns tt, s').
Proof.
  destruct (enabled s) eqn:He.
  - rewrite set_unfold by assumption. eauto.
  - exists s. unfold set, bind, get_state, ret. rewrite He. reflexivity.
Qed.

(** C3: [get] consults the volatile tier first and returns its entry when
    its age is below the TTL; otherwise it consults the durable tier, where
    an unexpired row is decoded, copied into the volatile tier with the
    row's timestamp and returned, and an expired row is deleted and [get]
    returns nothing.  The durable cases are those in which no durable
    operation raises. *)
Theorem get_two_tiers (now : Q) (q : Json.t) s :
  enabled s = true ->
  let key := _generate_key q in
  (forall o e,
      memory_cache s !! key = Some e ->
      (now - timestamp e < inject_Z (ttl s))%Q ->
      get json_loads o now q s = (Returns (Some (value e)), s)) /\
  (forall r v,
      no_fresh_entry now key s ->
      query_cache s !! key = Some r ->
      (now - row_timestamp r < inject_Z (ttl s))%Q ->
      json_loads (row_value r) = Returns v ->
      get json_loads no_faults now q s =
        (Returns (Some v),
         with_memory (<[key := {| value := v; timestamp := row_timestamp r |}]>
                        (memory_cache s)) s)) /\
  (forall r,
      no_fresh_entry now key s ->
      query_cache s !! key = Some r ->
      (inject_Z (ttl s) <= now - row_timestamp r)%Q ->
      get json_loads no_faults now q s =
        (Returns None,
         with_table (delete key (query_cache s))
           (with_memory (delete key (memory_cache s)) s))).
Proof.
  intros He key. repeat split.
  - intros o e Hm Hf. rewrite get_unfold by assumption.
    fold key. rewrite (get_memory_fresh _ _ _ e) by assumption. reflexivity.
  - intros r v Hn Hr Hf Hl. rewrite get_unfold by assumption. fold key.
    rewrite get_memory_miss by assumption.
    rewrite (get_durable_promote _ _ _ _ r v); try reflexivity; try assumption.
    unfold with_memory; cbn. rewrite insert_delete_eq. reflexivity.
  - intros r Hn Hr Hf. rewrite get_unfold by assumption. fold key.
    rewrite get_memory_miss by assumption.
    rewrite (get_durable_delete _ _ _ _ r); try reflexivity; assumption.
Qed.

(** C2: with the cache enabled, after [set(q, v)] at time [t] a [get(q)] at
    time [t'] returns [v] when [t' - t < TTL] and nothing when
    [t' - t >= TTL], whatever durable operations fail in either call.  The
    clock is taken not to run backwards: no durable row is stamped later
    than [t]. *)
Theorem set_then_get (o1 o2 : faults) (t t' : Q) (q : Json.t) (v : V) s :
  enabled s = true ->
  stamped_before t s ->
  let s1 := snd (set json_dumps o1 t q v s) in
  fst (set json_dumps o1 t q v s) = Returns tt /\
  ((t' - t < inject_Z (ttl s))%Q ->
     fst (get json_loads o2 t' q s1) = Returns (Some v)) /\
  ((inject_Z (ttl s) <= t' - t)%Q ->
     fst (get json_loads o2 t' q s1) = Returns None).
Proof.
  intros He Hst. rewrite set_unfold by assumption. cbn zeta. cbn [fst snd].
  set (key := _generate_key q).
  set (s0 := with_memory _ s).
  destruct (set_durable_state o1 t key v s0) as (Hm & He1 & Ht1 & Hq).
  set (s1 := snd (set_durable json_dumps o1 t key v s0)) in *.
  assert (Hmem : memory_cache s1 !! key = Some {| value := v; timestamp := t |}).
  { rewrite Hm. unfold s0; cbn. apply lookup_insert_eq. }
  assert (Hen : enabled s1 = true) by (rewrite He1; exact He).
  assert (Httl : ttl s1 = ttl s) by (rewrite Ht1; reflexivity).
  split; [reflexivity |]. split.
  - intros Hf. rewrite get_unfold by assumption. fold key.
    rewrite (get_memory_fresh _ _ _ _ Hmem); [reflexivity |].
    rewrite Httl. exact Hf.
  - intros Hx. rewrite get_unfold by assumption. fold key.
    rewrite (get_memory_expired _ _ _ _ Hmem) by (rewrite Httl; exact Hx).
    set (s2 := with_memory _ s1).
    assert (Hstale : forall r, query_cache s2 !! key = Some r ->
               (inject_Z (ttl s2) <= t' - row_timestamp r)%Q).
    { intros r Hr. unfold s2 in *; cbn in *. rewrite Httl.
      assert (Hle : (row_timestamp r <= t)%Q).
      { destruct Hq as [Hq | [js Hq]]; rewrite Hq in Hr.
        - exact (Hst key r Hr).
        - rewrite lookup_insert_eq in Hr. injection Hr as <-. cbn. apply Qle_refl. }
      lra. }
    pose proof (get_durable_stale o2 t' key s2 Hstale) as Hno.
    destruct (get_durable json_loads o2 t' key s2) as [[[w |] | e] s3];
      cbn [fst] in *; try reflexivity.
    exfalso. exact (Hno w eq_refl).
Qed.

(** C7: whichever durable operations raise, [set] and [get] return; [set]
    has recorded the entry in the volatile tier; and a [get] whose durable
    part raised answers as on a miss when the volatile tier has no fresh
    entry -- in particular when the connection cannot be opened. *)
Theorem durable_faults_contained (o : faults) (now : Q) (q : Json.t) (v : V) s :
  enabled s = true ->
  let key := _generate_key q in
  (exists s', set json_dumps o now q v s = (Returns tt, s') /\
              memory_cache s' !! key = Some {| value := v; timestamp := now |}) /\
  (exists r s', get json_loads o now q s = (Returns r, s')) /\
  (no_fresh_entry now key s ->
     (durable_lookup_raises json_loads o now key s \/ o OpConnect = true) ->
     fst (get json_loads o now q s) = Returns None).
Proof.
  intros He key. split; [| split].
  - rewrite set_unfold by assumption. cbn zeta. fold key.
    set (s0 := with_memory _ s).
    destruct (set_durable_state o now key v s0) as (Hm & _).
    eexists; split; [reflexivity |].
    rewrite Hm. unfold s0; cbn. apply lookup_insert_eq.
  - apply get_never_raises.
  - intros Hn Hr. rewrite get_unfold by assumption. fold key.
    rewrite get_memory_miss by assumption.
    assert (Hd : durable_lookup_raises json_loads o now key s).
    { destruct Hr as [Hr | Hc]; [exact Hr |].
      exists OperationalError. rewrite get_memory_miss by assumption.
      run_monad. rewrite Hc. reflexivity. }
    destruct Hd as [e Hd]. rewrite get_memory_miss in Hd by assumption.
    cbn [snd] in Hd.
    destruct (get_durable json_loads o now key _) as [[r | e'] s3];
      cbn [fst] in *; [discriminate | reflexivity].
Qed.

End Facts.

Lemma get_two_tiers_witness :
  enabled demo_restarted = true /\
  get demo_loads no_faults 200 demo_query demo_restarted =
    (Returns (Some "sirius"),
     with_memory (<[_generate_key demo_query := {| value := "sirius"; timestamp := 100 |}]> ∅)
       demo_restarted).
Proof.
  split; [reflexivity |].
  destruct (get_two_tiers demo_loads 200 demo_query demo_restarted eq_refl)
    as (_ & Hpromote & _).
  apply (Hpromote {| row_value := "sirius"; row_timestamp := 100 |} "sirius").
  - intros e He. unfold demo_restarted in He. cbn [memory_cache] in He.
    rewrite lookup_empty in He. discriminate.
  - unfold demo_restarted. cbn [query_cache]. apply lookup_singleton_eq.
  - reflexivity.
  - reflexivity.
Defined.

Lemma set_then_get_witness :
  enabled demo_empty = true /\
  stamped_before 0 demo_empty /\
  fst (get demo_loads no_faults 3599
         demo_query (snd (set demo_dumps no_faults 0 demo_query "sirius" demo_empty)))
    = Returns (Some "sirius") /\
  fst (get demo_loads no_faults 3600
         demo_query (snd (set demo_dumps no_faults 0 demo_query "sirius" demo_empty)))
    = Returns None.
Proof.
  assert (Hst : stamped_before 0 demo_empty).
  { intros key r Hr. unfold demo_empty in Hr. cbn [query_cache] in Hr.
    rewrite lookup_empty in Hr. discriminate. }
  split; [reflexivity |]. split; [exact Hst |]. split.
  - apply (set_then_get demo_dumps demo_loads no_faults no_faults 0 3599
             demo_query "sirius" demo_empty eq_refl Hst).
    reflexivity.
  - apply (set_then_get demo_dumps demo_loads no_faults no_faults 0 3600
             demo_query "sirius" demo_empty eq_refl Hst).
    apply Qle_bool_iff. reflexivity.
Defined.

Lemma durable_faults_contained_witness :
  enabled demo_restarted = true /\
  fst (get demo_loads demo_unavailable 200 demo_query demo_restarted) = Returns None /\
  exists s', set demo_dumps demo_unavailable 200 demo_query "vega" demo_restarted
               = (Returns tt, s') /\
             memory_cache s' !! _generate_key demo_query
               = Some {| value := "vega"; timestamp := 200 |}.
Proof.
  destruct (durable_faults_contained demo_dumps demo_loads demo_unavailable 200
              demo_query "vega" demo_restarted eq_refl) as (Hset & _ & Hget).
  split; [reflexivity |]. split; [| exact Hset].
  apply Hget.
  - intros e He. unfold demo_restarted in He. cbn [memory_cache] in He.
    rewrite lookup_empty in He. discriminate.
  - right. reflexivity.
Defined.

End CacheSpec.

(** ** SpatialQueryEngine and CatalogStore *)

Module QuerySpec.
Import Cache CacheSpec Examples.
Local Open Scope Q_scope.

Lemma Sorted_firstn {A} (R : relation A) (n : nat) (l : list A) :
  Sorted R l -> Sorted R (firstn n l).
Proof.
  intros Hs. revert n. induction Hs as [| a l Hs IH Hd]; intros [| n]; cbn;
    try constructor.
  - apply IH.
  - destruct Hd as [| b l' Hab]; destruct n; cbn; constructor. exact Hab.
Qed.

Lemma Sorted_map {A B} (f : A -> B) (R1 : relation A) (R2 : relation B) (l : list A) :
  (forall a b, R1 a b -> R2 (f a) (f b)) -> Sorted R1 l -> Sorted R2 (map f l).
Proof.
  intros Himp Hs. induction Hs as [| a l Hs IH Hd]; cbn; constructor; [exact IH |].
  destruct Hd as [| b l' Hab]; cbn; constructor. apply Himp, Hab.
Qed.

Global Instance order_le_total : Total Gaia.order_le.
Proof.
  intros a b. unfold Gaia.order_le, Gaia.order_leb.
  destruct (Qlt_le_dec (Gaia.phot_g_mean_mag b) (Gaia.phot_g_mean_mag a)) as [H | H].
  - right. apply Qle_bool_iff, Qlt_le_weak, H.
  - left. apply Qle_bool_iff, H.
Qed.

Lemma retry_3_returns {A} (call : nat -> outcome A) (a : A) :
  Gaia.retry 3 0 call = Returns a ->
  call 0%nat = Returns a \/ call 1%nat = Returns a \/ call 2%nat = Returns a.
Proof.
  cbn. destruct (call 0%nat); [intros [= ->]; auto |].
  destruct (call 1%nat); [intros [= ->]; auto |]. auto.
Qed.

Lemma retry_3_first {A} (call : nat -> outcome A) (a : A) :
  call 0%nat = Returns a -> Gaia.retry 3 0 call = Returns a.
Proof. intros H. cbn. rewrite H. reflexivity. Qed.

Section Engine.
Variable SQRT : Q -> Q.
Variables np_radians np_degrees np_cos np_sin np_sqrt np_arcsin np_log10 : Q -> Q.
Variable np_arctan2 : Q -> Q -> Q.
Variable CONTAINS : Q -> Q -> Q -> Q -> Q -> bool.

Let sync := Gaia._query_cone_sync np_radians np_cos np_sin CONTAINS.
Let cone := Gaia.query_cone_async np_radians np_cos np_sin CONTAINS.
Let frustum := Gaia.query_frustum_async np_radians np_degrees np_cos np_sin
                 np_sqrt np_arcsin np_log10 np_arctan2 CONTAINS.
Let nearby := Catalog._query_nearby_stars_sync SQRT.

(** One attempt of the cone query: what it returns is in magnitude order
    and no longer than [max_stars]. *)
Lemma _query_cone_sync_result answer ra dec radius max_stars min_magnitude stars :
  sync answer ra dec radius max_stars min_magnitude = Returns stars ->
  Sorted Gaia.by_magnitude stars /\
  (Z.of_nat (List.length stars) <= max_stars)%Z.
Proof.
  unfold sync, Gaia._query_cone_sync, Gaia.adql_cone.
  destruct answer as [table |]; [| discriminate].
  destruct (Z.ltb_spec max_stars 0); [discriminate |].
  intros [= <-]. split.
  - apply (Sorted_map _ Gaia.order_le Gaia.by_magnitude).
    + intros a b Hab. unfold Gaia.by_magnitude, Gaia.star_of_row. cbn.
      apply Qle_bool_iff. exact Hab.
    + apply Sorted_firstn. apply Sorted_merge_sort. apply _.
  - rewrite length_map.
    pose proof (firstn_le_length (Z.to_nat max_stars)
      (merge_sort Gaia.order_le
         (List.filter (fun rw =>
            CONTAINS (Gaia.ra rw) (Gaia.dec rw) ra dec radius &&
            Qlt_bool (Gaia.phot_g_mean_mag rw) min_magnitude) table))).
    lia.
Qed.

Lemma query_cone_async_result gaia ra dec radius max_stars min_magnitude stars :
  cone gaia ra dec radius max_stars min_magnitude = Returns stars ->
  Sorted Gaia.by_magnitude stars /\
  (Z.of_nat (List.length stars) <= max_stars)%Z.
Proof.
  intros H. unfold cone, Gaia.query_cone_async in H. apply retry_3_returns in H.
  destruct H as [H | [H | H]]; exact (_query_cone_sync_result _ _ _ _ _ _ _ H).
Qed.

(** The cone query returns as soon as the archive answers. *)
Lemma query_cone_async_returns gaia table ra dec radius max_stars min_magnitude :
  gaia 0%nat = Some table -> (0 <= max_stars)%Z ->
  exists stars, cone gaia ra dec radius max_stars min_magnitude = Returns stars.
Proof.
  intros Hg Hn. unfold cone, Gaia.query_cone_async.
  eexists. apply retry_3_first. unfold Gaia._query_cone_sync, Gaia.adql_cone.
  rewrite Hg. destruct (Z.ltb_spec max_stars 0); [lia |]. reflexivity.
Qed.



(** SQLite does not compile the nearby-star statement, and the function
    answers every exception with the empty list. *)
Lemma nearby_empty db cx cy cz max_distance max_stars mag_limit :
  nearby db cx cy cz max_distance max_stars mag_limit = [].
Proof. unfold nearby, Catalog._query_nearby_stars_sync. destruct db; reflexivity. Qed.

Lemma nearby_sorted db cx cy cz max_distance max_stars mag_limit :
  Sorted (Catalog.by_distance_then_magnitude SQRT cx cy cz)
         (nearby db cx cy cz max_distance max_stars mag_limit).
Proof. rewrite nearby_empty. constructor. Qed.



(** C4, as the code has it: a Region result is ordered by distance from
    the camera and, at equal distance, by magnitude -- the nearby-star
    query returns the empty list, SQLite not accepting its statement, so no
    pair of a Region result is out of order; a Cone result is ordered by
    magnitude alone (ORDER BY phot_g_mean_mag ASC), and the cone query does
    return once the archive answers. *)
Theorem result_order db cx cy cz max_distance max_stars mag_limit
    gaia ra dec radius cone_max min_magnitude :
  Sorted (Catalog.by_distance_then_magnitude SQRT cx cy cz)
         (nearby db cx cy cz max_distance max_stars mag_limit) /\
  (forall stars,
      cone gaia ra dec radius cone_max min_magnitude = Returns stars ->
      Sorted Gaia.by_magnitude stars) /\
  (forall table,
      gaia 0%nat = Some table -> (0 <= cone_max)%Z ->
      exists stars, cone gaia ra dec radius cone_max min_magnitude = Returns stars).
Proof.
  split; [apply nearby_sorted |]. split.
  - intros stars H. apply (query_cone_async_result _ _ _ _ _ _ _ H).
  - intros table Hg Hn. exact (query_cone_async_returns gaia table _ _ _ _ _ Hg Hn).
Qed.


End Engine.

(** C4 as stated fails for Cone results: the cone query over the two-star
    sky returns the star at 100 pc before the star at 10 pc. *)
Lemma cone_result_not_by_distance :
  exists p1 p2,
    demo_cone 10 = Returns [p1; p2] /\
    Star.distance_pc p1 == 100 /\ Star.distance_pc p2 == 10 /\
    ~ Gaia.by_distance_pc_then_magnitude p1 p2.
Proof.
  eexists. eexists. split; [vm_compute; reflexivity |].
  cbn [Star.distance_pc Star.magnitude].
  split; [reflexivity |]. split; [reflexivity |].
  unfold Gaia.by_distance_pc_then_magnitude. cbn [Star.distance_pc Star.magnitude].
  intros [H | [H _]]; revert H; unfold Qle, Qeq; cbn; lia.
Qed.


End QuerySpec.

(** ** Routes *)

Module ApiSpec.
Import PyFloat Key Cache CacheSpec Api Examples.
Local Open Scope Q_scope.

Section Region.
Variable SQRT : Q -> Q.
Variable json_dumps : list Star.t -> outcome string.
Variable json_loads : string -> outcome (list Star.t).

Let handler := query_region SQRT json_dumps json_loads.

(** An uncached region request is answered from the catalog alone. *)
Lemma query_region_uncached db o_get o_set clk ra dec radius limit s :
  uncached ra dec radius limit s ->
  exists s',
    handler db o_get o_set clk ra dec radius limit s =
      (Returns {| count := List.length (region_stars SQRT db);
                  stars := region_stars SQRT db;
                  cached := false;
                  query_time_ms := Some ((end_time clk - start_time clk) * 1000) |},
       s').
Proof.
  intros [Hm Hd]. unfold handler, query_region, try_except, bind at 1.
  rewrite (get_absent json_loads o_get _ _ s Hm Hd).
  unfold bind.
  destruct (set_never_raises json_dumps o_set (set_time clk)
              (region_cache_key ra dec radius limit) (region_stars SQRT db) s)
    as [s' ->].
  exists s'. reflexivity.
Qed.

(** C10: two region requests, whatever their ra, dec, radius and limit,
    both without a cache entry, against the same catalog: both are answered,
    uncached, with the same star list -- the nearby-star query from the
    origin with max_distance 1000, mag_limit 12 and the default max_stars. *)
Theorem region_noninterference db o_get o_set clk o_get' o_set' clk'
    ra dec radius limit ra' dec' radius' limit' s :
  uncached ra dec radius limit s ->
  uncached ra' dec' radius' limit' s ->
  exists resp resp' s1 s1',
    handler db o_get o_set clk ra dec radius limit s = (Returns resp, s1) /\
    handler db o_get' o_set' clk' ra' dec' radius' limit' s = (Returns resp', s1') /\
    cached resp = false /\ cached resp' = false /\
    stars resp = stars resp' /\
    stars resp =
      Catalog._query_nearby_stars_sync SQRT db 0 0 0 1000 50000 12.
Proof.
  intros H1 H2.
  destruct (query_region_uncached db o_get o_set clk _ _ _ _ s H1) as [s1 E1].
  destruct (query_region_uncached db o_get' o_set' clk' _ _ _ _ s H2) as [s1' E2].
  do 4 eexists. split; [exact E1 |]. split; [exact E2 |].
  repeat split; reflexivity.
Qed.
End Region.

Lemma cold_cache_uncached ra dec radius limit : uncached ra dec radius limit cold_cache.
Proof. split; apply lookup_empty. Qed.

Lemma region_noninterference_witness :
  uncached (mk false 2664 (-1)) (mk true 29 0) (mk false 5 0) 100 cold_cache /\
  uncached (mk false 10 0) (mk false 20 0) (mk false 1 0) 1 cold_cache /\
  exists resp resp' s1 s1',
    query_region (fun v => v) never_dumps never_loads two_stars no_faults no_faults noon
      (mk false 2664 (-1)) (mk true 29 0) (mk false 5 0) 100 cold_cache = (Returns resp, s1) /\
    query_region (fun v => v) never_dumps never_loads two_stars no_faults no_faults noon
      (mk false 10 0) (mk false 20 0) (mk false 1 0) 1 cold_cache = (Returns resp', s1') /\
    stars resp = stars resp'.
Proof.
  split; [apply cold_cache_uncached |]. split; [apply cold_cache_uncached |].
  destruct (region_noninterference (fun v => v) never_dumps never_loads two_stars
              no_faults no_faults noon no_faults no_faults noon
              (mk false 2664 (-1)) (mk true 29 0) (mk false 5 0) 100
              (mk false 10 0) (mk false 20 0) (mk false 1 0) 1 cold_cache
              (cold_cache_uncached _ _ _ _) (cold_cache_uncached _ _ _ _))
    as (resp & resp' & s1 & s1' & E1 & E2 & _ & _ & Es & _).
  exists resp, resp', s1, s1'. auto.
Defined.

End ApiSpec.

(** ** Cache keys *)

Module KeySpec.
Import PyFloat Text Json Key.
#[local] Arguments String.append !_ _ / : simpl nomatch.

(** *** Strings *)

Lemma sapp_assoc (a b c : string) : (a +:+ b) +:+ c = a +:+ b +:+ c.
Proof. induction a as [| x a IH]; cbn; [reflexivity | now rewrite IH]. Qed.

Lemma sapp_nil_r (a : string) : a +:+ EmptyString = a.
Proof. induction a as [| x a IH]; cbn; [reflexivity | now rewrite IH]. Qed.

Lemma slen_app (a b : string) :
  String.length (a +:+ b) = (String.length a + String.length b)%nat.
Proof. induction a as [| x a IH]; cbn; [reflexivity | now rewrite IH]. Qed.

Lemma all_chars_app P (a b : string) :
  all_chars P (a +:+ b) = all_chars P a && all_chars P b.
Proof.
  induction a as [| x a IH]; cbn; [reflexivity |].
  rewrite IH. now rewrite andb_assoc.
Qed.

Lemma all_chars_impl (P P' : ascii -> bool) (s : string) :
  (forall c, P c = true -> P' c = true) ->
  all_chars P s = true -> all_chars P' s = true.
Proof.
  intros Himp. induction s as [| x s IH]; cbn; [reflexivity |].
  intros H. apply andb_true_iff in H. destruct H as [Hx Hs].
  apply andb_true_iff. split; [apply Himp, Hx | apply IH, Hs].
Qed.

Lemma take_drop (n : nat) (s : string) : str_take n s +:+ str_drop n s = s.
Proof.
  revert s. induction n as [| n IH]; intros [| c s]; cbn; try reflexivity.
  now rewrite IH.
Qed.

Lemma length_take (n : nat) (s : string) :
  (n <= String.length s)%nat -> String.length (str_take n s) = n.
Proof.
  revert s. induction n as [| n IH]; intros [| c s]; cbn; intros H;
    try reflexivity; try lia.
  rewrite IH; [reflexivity | lia].
Qed.

Lemma all_chars_take_drop P (n : nat) (s : string) :
  all_chars P s = true ->
  all_chars P (str_take n s) = true /\ all_chars P (str_drop n s) = true.
Proof.
  intros H. rewrite <- (take_drop n s), all_chars_app in H.
  apply andb_true_iff in H. exact H.
Qed.

(** Cutting at the first occurrence of a character. *)
Lemma split_at_found (c : ascii) (a b : string) :
  all_chars (is_not c) a = true ->
  split_at c (a +:+ String c b) = (a, Some b).
Proof.
  induction a as [| x a IH]; cbn.
  - intros _. now rewrite Ascii.eqb_refl.
  - intros H. apply andb_true_iff in H. destruct H as [Hx Ha].
    unfold is_not in Hx. apply negb_true_iff in Hx. rewrite Hx, (IH Ha). reflexivity.
Qed.

Lemma split_at_missing (c : ascii) (a : string) :
  all_chars (is_not c) a = true -> split_at c a = (a, None).
Proof.
  induction a as [| x a IH]; cbn; [reflexivity |].
  intros H. apply andb_true_iff in H. destruct H as [Hx Ha].
  unfold is_not in Hx. apply negb_true_iff in Hx. rewrite Hx, (IH Ha). reflexivity.
Qed.

(** Two strings cut at the same character have the same pieces. *)
Lemma cut_inj (c : ascii) (a a' b b' : string) :
  all_chars (is_not c) a = true -> all_chars (is_not c) a' = true ->
  a +:+ String c b = a' +:+ String c b' -> a = a' /\ b = b'.
Proof.
  intros Ha Ha' E.
  pose proof (split_at_found c a b Ha) as S1.
  pose proof (split_at_found c a' b' Ha') as S2.
  rewrite E in S1. rewrite S1 in S2. injection S2 as -> ->. split; reflexivity.
Qed.

Lemma is_digit_not (c d : ascii) :
  is_digit c = false -> is_digit d = true -> is_not c d = true.
Proof.
  intros Hc Hd. unfold is_not. apply negb_true_iff.
  destruct (Ascii.eqb_spec d c) as [-> | Hne]; [congruence | reflexivity].
Qed.

(** *** Decimal digits *)

Lemma digit_char (d : N) :
  (d < 10)%N ->
  is_digit (ascii_of_N (48 + d)) = true /\ digit_val (ascii_of_N (48 + d)) = d.
Proof.
  intros Hd. unfold is_digit, digit_val.
  rewrite N_ascii_embedding by lia.
  split; [apply andb_true_iff; split; apply N.leb_le; lia | lia].
Qed.

Lemma digits_val_app (acc : N) (a b : string) :
  digits_val acc (a +:+ b) = digits_val (digits_val acc a) b.
Proof. revert acc. induction a as [| x a IH]; intros acc; cbn; [reflexivity | apply IH]. Qed.

Lemma digits_val_zeros (acc : N) (k : nat) :
  digits_val acc (zeros k) = (acc * 10 ^ N.of_nat k)%N.
Proof.
  revert acc. induction k as [| k IH]; intros acc.
  - cbn. lia.
  - cbn [zeros digits_val]. rewrite IH.
    replace (digit_val "0") with 0%N by reflexivity.
    rewrite Nat2N.inj_succ, N.pow_succ_r by lia. lia.
Qed.

Lemma all_chars_zeros (k : nat) : all_chars is_digit (zeros k) = true.
Proof. induction k as [| k IH]; cbn; [reflexivity | exact IH]. Qed.

Lemma length_zeros (k : nat) : String.length (zeros k) = k.
Proof. induction k as [| k IH]; cbn; [reflexivity | now rewrite IH]. Qed.

Lemma digits_aux_spec (fuel : nat) (n : N) (acc : string) :
  (n < 2 ^ N.of_nat fuel)%N ->
  exists ds, digits_aux fuel n acc = ds +:+ acc /\
             all_chars is_digit ds = true /\ digits_val 0 ds = n.
Proof.
  revert n acc. induction fuel as [| fuel IH]; intros n acc Hn.
  - exists EmptyString. cbn in *. repeat split. lia.
  - cbn [digits_aux].
    assert (Hd : (n mod 10 < 10)%N) by (apply N.mod_lt; lia).
    destruct (digit_char _ Hd) as [Hc Hv].
    destruct (N.ltb_spec n 10) as [Hlt | Hge].
    + exists (String (ascii_of_N (48 + n mod 10)) EmptyString). cbn.
      rewrite Hc, Hv. repeat split. rewrite N.mod_small by lia. reflexivity.
    + destruct (IH (n / 10)%N (String (ascii_of_N (48 + n mod 10)) acc))
        as (ds & E & Hds & Hval).
      { rewrite Nat2N.inj_succ, N.pow_succ_r in Hn by lia.
        apply N.Div0.div_lt_upper_bound. lia. }
      exists (ds +:+ String (ascii_of_N (48 + n mod 10)) EmptyString).
      rewrite E, sapp_assoc. cbn [append]. repeat split.
      * rewrite all_chars_app, Hds. cbn. now rewrite Hc.
      * rewrite digits_val_app, Hval. cbn. rewrite Hv.
        pose proof (N.div_mod n 10 ltac:(lia)). lia.
Qed.

Lemma digits_spec (n : N) :
  all_chars is_digit (digits n) = true /\ digits_val 0 (digits n) = n /\
  exists c r, digits n = String c r /\ is_digit c = true.
Proof.
  unfold digits.
  destruct (digits_aux_spec (S (N.to_nat (N.log2 n))) n EmptyString) as (ds & E & Hds & Hv).
  { rewrite Nat2N.inj_succ, N2Nat.id.
    destruct n as [| p]; [reflexivity |]. apply N.log2_spec. lia. }
  rewrite E, sapp_nil_r. repeat split; try assumption.
  rewrite sapp_nil_r in E. rewrite <- E.
  cbn [digits_aux].
  assert (Hd : (n mod 10 < 10)%N) by (apply N.mod_lt; lia).
  destruct (digit_char _ Hd) as [Hc _].
  destruct (n <? 10)%N.
  - eauto.
  - destruct (digits_aux_spec (N.to_nat (N.log2 n)) (n / 10)
                (String (ascii_of_N (48 + n mod 10)) EmptyString)) as (ds' & E' & Hds' & _).
    { rewrite N2Nat.id. destruct n as [| p]; [reflexivity |].
      apply N.Div0.div_lt_upper_bound.
      pose proof (N.log2_spec (N.pos p) ltac:(lia)) as [_ Hu].
      rewrite N.pow_succ_r in Hu by lia. lia. }
    rewrite E'. destruct ds' as [| c r]; cbn.
    + eauto.
    + cbn in Hds'. apply andb_true_iff in Hds'. destruct Hds' as [Hc' _]. eauto.
Qed.

(** *** Shortest numerals *)

Lemma strip_zeros_scaled (fuel : nat) (c : N) (e : Z) (j : nat) :
  c <> 0%N -> (c mod 10)%N <> 0%N ->
  (c * 10 ^ N.of_nat j < 2 ^ N.of_nat fuel)%N ->
  strip_zeros fuel (c * 10 ^ N.of_nat j) (e - Z.of_nat j) = (c, e).
Proof.
  intros Hc Hm. revert fuel e. induction j as [| j IH]; intros fuel e Hlt.
  - cbn [N.of_nat] in *. rewrite N.pow_0_r, N.mul_1_r in *.
    replace (e - Z.of_nat 0)%Z with e by lia.
    destruct fuel as [| fuel]; [reflexivity |]. cbn [strip_zeros].
    destruct (N.eqb_spec c 0); [contradiction |].
    destruct (N.eqb_spec (c mod 10) 0); [contradiction | reflexivity].
  - rewrite Nat2N.inj_succ, N.pow_succ_r in * by lia.
    assert (Hpos : (0 < c * 10 ^ N.of_nat j)%N).
    { apply N.mul_pos_pos; [lia |]. apply N.neq_0_lt_0, N.pow_nonzero. lia. }
    destruct fuel as [| fuel]; [cbn in Hlt; lia |].
    cbn [strip_zeros].
    replace (c * (10 * 10 ^ N.of_nat j))%N with (c * 10 ^ N.of_nat j * 10)%N in * by lia.
    destruct (N.eqb_spec (c * 10 ^ N.of_nat j * 10) 0); [lia |].
    rewrite N.Div0.mod_mul, N.eqb_refl, N.div_mul by lia.
    replace (e - Z.of_nat (S j) + 1)%Z with (e - Z.of_nat j)%Z by lia.
    apply IH. rewrite Nat2N.inj_succ, N.pow_succ_r in Hlt by lia. lia.
Qed.

Lemma log2_fuel (c : N) : (c < 2 ^ N.of_nat (S (N.to_nat (N.log2 c))))%N.
Proof.
  rewrite Nat2N.inj_succ, N2Nat.id.
  destruct c as [| p]; [reflexivity |]. apply N.log2_spec. lia.
Qed.

Lemma normalize_scaled (neg : bool) (c : N) (e : Z) (j : nat) :
  c <> 0%N -> (c mod 10)%N <> 0%N ->
  normalize neg (c * 10 ^ N.of_nat j) (e - Z.of_nat j) = mk neg c e.
Proof.
  intros Hc Hm. unfold normalize.
  rewrite strip_zeros_scaled; auto using log2_fuel.
Qed.

Lemma normalize_zero (neg : bool) (e : Z) : normalize neg 0 e = mk neg 0 0.
Proof. reflexivity. Qed.

Lemma normalize_fixed (neg : bool) (c : N) (e : Z) :
  canonical c e -> normalize neg c e = mk neg c e.
Proof.
  intros [[-> ->] | [Hc Hm]]; [reflexivity |].
  pose proof (normalize_scaled neg c e 0 Hc Hm) as H.
  cbn [N.of_nat Z.of_nat] in H. rewrite N.pow_0_r, N.mul_1_r, Z.sub_0_r in H. exact H.
Qed.

Lemma strip_zeros_canonical (fuel : nat) (c : N) (e : Z) :
  (c < 2 ^ N.of_nat fuel)%N -> (0 < fuel)%nat ->
  canonical (fst (strip_zeros fuel c e)) (snd (strip_zeros fuel c e)).
Proof.
  revert c e. induction fuel as [| fuel IH]; intros c e Hlt Hf; [lia |].
  cbn [strip_zeros].
  destruct (N.eqb_spec c 0) as [-> | Hc]; [left; split; reflexivity |].
  destruct (N.eqb_spec (c mod 10) 0) as [Hm | Hm]; [| right; split; assumption].
  assert (Hdiv : (c / 10 <> 0)%N).
  { pose proof (N.div_mod c 10 ltac:(lia)). lia. }
  apply IH.
  - rewrite Nat2N.inj_succ, N.pow_succ_r in Hlt by lia.
    apply N.Div0.div_lt_upper_bound. lia.
  - destruct fuel; [| lia]. cbn in Hlt.
    pose proof (N.div_mod c 10 ltac:(lia)). lia.
Qed.

Lemma canon_canonical (f : pyfloat) :
  exists c e, canon f = mk (f_neg f) c e /\ canonical c e.
Proof.
  unfold canon, normalize.
  pose proof (strip_zeros_canonical (S (N.to_nat (N.log2 (f_coef f)))) (f_coef f) (f_exp f)
                (log2_fuel _) ltac:(lia)) as H.
  destruct (strip_zeros _ _ _) as [c e]. eauto.
Qed.

Lemma canon_idempotent (f : pyfloat) : canon (canon f) = canon f.
Proof.
  destruct (canon_canonical f) as (c & e & E & Hc). rewrite E.
  unfold canon. cbn [f_neg f_coef f_exp]. apply normalize_fixed, Hc.
Qed.

Lemma float_repr_canon (f : pyfloat) : float_repr (canon f) = float_repr f.
Proof. unfold float_repr. now rewrite canon_idempotent. Qed.

(** *** Reading back what [repr] prints *)

Lemma signed_sign (neg : bool) (c : ascii) (r : string) :
  is_digit c = true -> signed (sign_str neg +:+ String c r) = (neg, String c r).
Proof.
  intros Hc. destruct neg; [reflexivity |]. cbn.
  destruct (Ascii.eqb_spec c "-") as [-> | _]; [discriminate | reflexivity].
Qed.

Lemma digits_not (c : ascii) (s : string) :
  is_digit c = false -> all_chars is_digit s = true -> all_chars (is_not c) s = true.
Proof. intros Hc. apply all_chars_impl. intros d. apply is_digit_not, Hc. Qed.

Lemma parse_exp_digits (x : Z) : parse_exp (exp_digits x) = x.
Proof.
  unfold exp_digits.
  destruct (digits_spec (Z.to_N (Z.abs x))) as (_ & Hv & _).
  assert (Hpad : digits_val 0 ((if (Z.abs x <? 10)%Z then "0" else EmptyString)
                               +:+ digits (Z.to_N (Z.abs x))) = Z.to_N (Z.abs x)).
  { destruct (Z.abs x <? 10)%Z; cbn; exact Hv. }
  destruct (Z.ltb_spec x 0); cbn [append]; unfold parse_exp.
  - rewrite Ascii.eqb_refl, Hpad. lia.
  - change (Ascii.eqb "+" "-") with false. cbn iota. rewrite Hpad. lia.
Qed.

(** A positional numeral and the two scientific ones. *)
Lemma float_parse_positional (neg : bool) (ip fp : string) :
  all_chars is_digit ip = true -> all_chars is_digit fp = true ->
  ip <> EmptyString ->
  float_parse (sign_str neg +:+ ip +:+ String "." fp) =
    normalize neg (digits_val 0 (ip +:+ fp)) (0 - Z.of_nat (String.length fp)).
Proof.
  intros Hi Hf Hne. destruct ip as [| c r]; [contradiction |].
  cbn [append]. unfold float_parse.
  cbn in Hi. apply andb_true_iff in Hi. destruct Hi as [Hc Hr].
  rewrite signed_sign by assumption.
  change (String c (r +:+ String "." fp)) with (String c r +:+ String "." fp).
  assert (Hic : all_chars is_digit (String c r) = true) by (cbn; now rewrite Hc, Hr).
  rewrite split_at_missing.
  2:{ rewrite all_chars_app. apply andb_true_iff. split.
      - apply (digits_not "e" _ eq_refl Hic).
      - change (all_chars (is_not "e") (String "." fp))
          with (is_not "e" "." && all_chars (is_not "e") fp).
        rewrite (digits_not "e" _ eq_refl Hf). reflexivity. }
  rewrite split_at_found by (apply (digits_not "." _ eq_refl Hic)).
  reflexivity.
Qed.

Lemma float_parse_scientific (neg : bool) (ip fp : string) (x : Z) :
  all_chars is_digit ip = true -> all_chars is_digit fp = true ->
  ip <> EmptyString ->
  float_parse (sign_str neg +:+ ip +:+ (String "." fp) +:+ String "e" (exp_digits x)) =
    normalize neg (digits_val 0 (ip +:+ fp)) (x - Z.of_nat (String.length fp)).
Proof.
  intros Hi Hf Hne. destruct ip as [| c r]; [contradiction |].
  cbn [append]. unfold float_parse.
  cbn in Hi. apply andb_true_iff in Hi. destruct Hi as [Hc Hr].
  rewrite signed_sign by assumption.
  change (String c (r +:+ String "." (fp +:+ String "e" (exp_digits x))))
    with (String c r +:+ (String "." fp) +:+ String "e" (exp_digits x)).
  assert (Hic : all_chars is_digit (String c r) = true) by (cbn; now rewrite Hc, Hr).
  rewrite <- sapp_assoc.
  rewrite split_at_found.
  2:{ rewrite all_chars_app. apply andb_true_iff. split.
      - apply (digits_not "e" _ eq_refl Hic).
      - change (all_chars (is_not "e") (String "." fp))
          with (is_not "e" "." && all_chars (is_not "e") fp).
        rewrite (digits_not "e" _ eq_refl Hf). reflexivity. }
  rewrite split_at_found by (apply (digits_not "." _ eq_refl Hic)).
  rewrite parse_exp_digits. reflexivity.
Qed.

Lemma float_parse_scientific_int (neg : bool) (ip : string) (x : Z) :
  all_chars is_digit ip = true -> ip <> EmptyString ->
  float_parse (sign_str neg +:+ ip +:+ String "e" (exp_digits x)) =
    normalize neg (digits_val 0 ip) x.
Proof.
  intros Hi Hne. destruct ip as [| c r]; [contradiction |].
  cbn [append]. unfold float_parse.
  cbn in Hi. apply andb_true_iff in Hi. destruct Hi as [Hc Hr].
  rewrite signed_sign by assumption.
  change (String c (r +:+ String "e" (exp_digits x)))
    with (String c r +:+ String "e" (exp_digits x)).
  assert (Hic : all_chars is_digit (String c r) = true) by (cbn; now rewrite Hc, Hr).
  rewrite split_at_found by (apply (digits_not "e" _ eq_refl Hic)).
  rewrite split_at_missing by (apply (digits_not "." _ eq_refl Hic)).
  rewrite parse_exp_digits, sapp_nil_r. cbn [String.length Z.of_nat].
  now rewrite Z.sub_0_r.
Qed.

Lemma length_drop (n : nat) (s : string) :
  String.length (str_drop n s) = (String.length s - n)%nat.
Proof.
  revert s. induction n as [| n IH]; intros [| c s]; cbn; try reflexivity.
  apply IH.
Qed.

Lemma take_nonempty (n : nat) (s : string) :
  (0 < n)%nat -> s <> EmptyString -> str_take n s <> EmptyString.
Proof. destruct n, s; cbn; intros; try lia; congruence. Qed.

(** [float(repr(x)) == x]: the numeral [repr] prints reads back as the
    float it was printed from. *)
Lemma float_parse_repr_canonical (neg : bool) (c : N) (e : Z) :
  canonical c e -> float_parse (float_repr (mk neg c e)) = mk neg c e.
Proof.
  intros Hcan. unfold float_repr, canon. cbn [f_neg f_coef f_exp].
  rewrite (normalize_fixed neg c e Hcan). cbn [f_neg f_coef f_exp].
  destruct Hcan as [[-> ->] | [Hc Hm]]; [destruct neg; vm_compute; reflexivity |].
  destruct (N.eqb_spec c 0) as [| _]; [contradiction |].
  destruct (digits_spec c) as (Hds & Hv & c0 & r0 & Hhead & Hc0).
  assert (Hne : digits c <> EmptyString) by (rewrite Hhead; discriminate).
  assert (Hlen : (1 <= String.length (digits c))%nat) by (rewrite Hhead; cbn; lia).
  fold (sign_str neg).
  set (ds := digits c) in *. set (n := Z.of_nat (String.length ds)).
  destruct ((-4 <? n + e)%Z && (n + e <=? 16)%Z).
  - destruct (Z.leb_spec (n + e) 0) as [Hle | Hgt].
    + change ("0." +:+ zeros (Z.to_nat (- (n + e))) +:+ ds)
        with ("0" +:+ String "." (zeros (Z.to_nat (- (n + e))) +:+ ds)).
      rewrite float_parse_positional; [| reflexivity | | discriminate].
      2:{ rewrite all_chars_app, all_chars_zeros, Hds. reflexivity. }
      cbn [append digits_val].
      rewrite digits_val_app, digits_val_zeros.
      replace (0 * 10 + digit_val "0")%N with 0%N by reflexivity.
      rewrite N.mul_0_l, Hv, slen_app, length_zeros.
      replace (0 - Z.of_nat (Z.to_nat (- (n + e)) + String.length ds))%Z with e
        by (unfold n; lia).
      apply normalize_fixed. right; split; assumption.
    + destruct (Z.ltb_spec (n + e) n) as [Hlt | Hge].
      * change (str_take (Z.to_nat (n + e)) ds +:+ "." +:+ str_drop (Z.to_nat (n + e)) ds)
          with (str_take (Z.to_nat (n + e)) ds +:+
                String "." (str_drop (Z.to_nat (n + e)) ds)).
        destruct (all_chars_take_drop is_digit (Z.to_nat (n + e)) ds Hds) as [Ht Hd].
        rewrite float_parse_positional; [| assumption | assumption |].
        2:{ apply take_nonempty; [lia | assumption]. }
        rewrite take_drop, Hv, length_drop.
        replace (0 - Z.of_nat (String.length ds - Z.to_nat (n + e)))%Z with e
          by (unfold n; lia).
        apply normalize_fixed. right; split; assumption.
      * change (ds +:+ zeros (Z.to_nat (n + e - n)) +:+ ".0")
          with (ds +:+ zeros (Z.to_nat (n + e - n)) +:+ String "." "0").
        rewrite <- (sapp_assoc ds).
        rewrite float_parse_positional; [| | reflexivity |].
        2:{ rewrite all_chars_app, all_chars_zeros, Hds. reflexivity. }
        2:{ rewrite Hhead. discriminate. }
        rewrite !digits_val_app, Hv, digits_val_zeros.
        cbn [digits_val String.length].
        replace (digit_val "0") with 0%N by reflexivity.
        replace (c * 10 ^ N.of_nat (Z.to_nat (n + e - n)) * 10 + 0)%N
          with (c * 10 ^ N.of_nat (S (Z.to_nat (n + e - n))))%N
          by (rewrite Nat2N.inj_succ, N.pow_succ_r by lia; lia).
        replace (0 - Z.of_nat 1)%Z with (e - Z.of_nat (S (Z.to_nat (n + e - n))))%Z by lia.
        apply normalize_scaled; assumption.
  - destruct (all_chars_take_drop is_digit 1 ds Hds) as [Ht Hd].
    destruct (Z.ltb_spec 1 n) as [Hlt | Hge].
    + change (str_take 1 ds +:+ ("." +:+ str_drop 1 ds) +:+ "e" +:+ exp_digits (n + e - 1))
        with (str_take 1 ds +:+ (String "." (str_drop 1 ds)) +:+
              String "e" (exp_digits (n + e - 1))).
      rewrite float_parse_scientific; [| assumption | assumption |].
      2:{ apply take_nonempty; [lia | assumption]. }
      rewrite take_drop, Hv, length_drop.
      replace (n + e - 1 - Z.of_nat (String.length ds - 1))%Z with e by (unfold n; lia).
      apply normalize_fixed. right; split; assumption.
    + change (str_take 1 ds +:+ EmptyString +:+ "e" +:+ exp_digits (n + e - 1))
        with (str_take 1 ds +:+ String "e" (exp_digits (n + e - 1))).
      rewrite float_parse_scientific_int; [| assumption |].
      2:{ apply take_nonempty; [lia | assumption]. }
      assert (Hone : String.length ds = 1%nat) by (unfold n in Hge; lia).
      assert (Hall : str_take 1 ds = ds).
      { rewrite <- (take_drop 1 ds) at 2.
        pose proof (length_drop 1 ds) as Hd0. rewrite Hone in Hd0.
        destruct (str_drop 1 ds); [now rewrite sapp_nil_r | discriminate]. }
      rewrite Hall, Hv.
      replace (n + e - 1)%Z with e by (unfold n; lia).
      apply normalize_fixed. right; split; assumption.
Qed.

Lemma float_parse_repr (f : pyfloat) : float_parse (float_repr f) = canon f.
Proof.
  rewrite <- float_repr_canon.
  destruct (canon_canonical f) as (c & e & -> & Hc).
  apply float_parse_repr_canonical, Hc.
Qed.

(** Two floats print alike only if they are the same float. *)
Lemma float_repr_inj (f g : pyfloat) :
  float_repr f = float_repr g -> canon f = canon g.
Proof.
  intros E. rewrite <- (float_parse_repr f), <- (float_parse_repr g), E. reflexivity.
Qed.

(** *** The characters of a number *)

Lemma digit_numeric (s : string) :
  all_chars is_digit s = true -> all_chars is_numeric s = true.
Proof.
  apply all_chars_impl. intros c H. unfold is_numeric. now rewrite H.
Qed.

Lemma numeric_not (c : ascii) (s : string) :
  is_numeric c = false -> all_chars is_numeric s = true -> all_chars (is_not c) s = true.
Proof.
  intros Hc. apply all_chars_impl. intros d Hd. unfold is_not. apply negb_true_iff.
  destruct (Ascii.eqb_spec d c) as [-> | _]; [congruence | reflexivity].
Qed.

Lemma digits_numeric (n : N) : all_chars is_numeric (digits n) = true.
Proof. apply digit_numeric, digits_spec. Qed.

Lemma zeros_numeric (k : nat) : all_chars is_numeric (zeros k) = true.
Proof. apply digit_numeric, all_chars_zeros. Qed.

Lemma take_numeric (k : nat) (s : string) :
  all_chars is_numeric s = true -> all_chars is_numeric (str_take k s) = true.
Proof. intros H. apply (all_chars_take_drop _ k s H). Qed.

Lemma drop_numeric (k : nat) (s : string) :
  all_chars is_numeric s = true -> all_chars is_numeric (str_drop k s) = true.
Proof. intros H. apply (all_chars_take_drop _ k s H). Qed.

Lemma exp_digits_numeric (x : Z) : all_chars is_numeric (exp_digits x) = true.
Proof.
  unfold exp_digits. rewrite !all_chars_app, digits_numeric.
  destruct (x <? 0)%Z, (Z.abs x <? 10)%Z; reflexivity.
Qed.

Lemma float_repr_numeric (f : pyfloat) : all_chars is_numeric (float_repr f) = true.
Proof.
  unfold float_repr.
  set (ds := digits (f_coef (canon f))).
  assert (Hds : all_chars is_numeric ds = true) by apply digits_numeric.
  rewrite all_chars_app. apply andb_true_iff. split; [destruct (f_neg (canon f)); reflexivity |].
  destruct (_ && _).
  - destruct (_ <=? 0)%Z; [| destruct (_ <? _)%Z].
    + change ("0." +:+ ?a) with (String "0" (String "." a)).
      cbn [all_chars]. rewrite all_chars_app, zeros_numeric, Hds. reflexivity.
    + rewrite !all_chars_app, take_numeric, drop_numeric by assumption. reflexivity.
    + rewrite !all_chars_app, zeros_numeric, Hds. reflexivity.
  - rewrite !all_chars_app, take_numeric, exp_digits_numeric by assumption.
    destruct (1 <? _)%Z; [| reflexivity].
    rewrite all_chars_app, drop_numeric by assumption. reflexivity.
Qed.

Lemma int_repr_numeric (z : Z) : all_chars is_numeric (int_repr z) = true.
Proof.
  unfold int_repr. rewrite all_chars_app, digits_numeric.
  destruct (z <? 0)%Z; reflexivity.
Qed.

(** [int(str(z)) == z] *)
Lemma int_parse_repr (z : Z) : int_parse (int_repr z) = z.
Proof.
  unfold int_repr, int_parse.
  destruct (digits_spec (Z.to_N (Z.abs z))) as (_ & Hv & c & r & Hhead & Hc).
  fold (sign_str (z <? 0)%Z). rewrite Hhead, signed_sign by assumption.
  rewrite <- Hhead, Hv. destruct (Z.ltb_spec z 0); lia.
Qed.

Lemma int_repr_inj (z z' : Z) : int_repr z = int_repr z' -> z = z'.
Proof.
  intros E. rewrite <- (int_parse_repr z), <- (int_parse_repr z'), E. reflexivity.
Qed.

(** Two numbers followed by the same delimiter. *)
Lemma number_cut (c : ascii) (v v' r r' : string) :
  is_numeric c = false ->
  all_chars is_numeric v = true -> all_chars is_numeric v' = true ->
  v +:+ String c r = v' +:+ String c r' -> v = v' /\ r = r'.
Proof.
  intros Hc Hv Hv'. apply cut_inj; apply numeric_not; assumption.
Qed.

Lemma string_cons_inj (c : ascii) (a b : string) : String c a = String c b -> a = b.
Proof. congruence. Qed.

Lemma float_repr_same (f g : pyfloat) : canon f = canon g -> float_repr f = float_repr g.
Proof. intros E. rewrite <- (float_repr_canon f), <- (float_repr_canon g), E. reflexivity. Qed.

(** *** Two requests of the spec's example *)

(** radius 5.000001 and radius 5.000002 round to 5.0 and share their key. *)
Example jitter_shares_key :
  _generate_key (cone_cache_key (galactic_cone (mk false 5000001 (-6)))) =
  _generate_key (cone_cache_key (galactic_cone (mk false 5000002 (-6)))).
Proof. vm_compute. reflexivity. Qed.

(** radius 5.0 and radius 5.5 have different digests. *)
Example radius_changes_key :
  _generate_key (cone_cache_key (galactic_cone (mk false 5 0))) <>
  _generate_key (cone_cache_key (galactic_cone (mk false 55 (-1)))).
Proof. vm_compute. discriminate. Qed.

(** The digest of the example request, as hashlib prints it. *)
Example galactic_cone_key :
  _generate_key (cone_cache_key (galactic_cone (mk false 5 0))) =
  "cbe26481b6c4e8431aeafe6bc573080b7acdf8d7b5b0367469355bd1af995c6d".
Proof. vm_compute. reflexivity. Qed.

(** C1, at two requests of the cone route.  Both pass validation and differ
    only in the declination, -0.00001 and 0.00001.  Rounded to 4 decimals
    the declinations are -0.0 and 0.0: the two key dicts are equal in
    Python, field by field, and yet [json.dumps] prints -0.0 and 0.0, so
    the two requests get different digests. *)
Theorem signed_zero_splits_key :
  StarsApi.cone_valid south_of_equator = true /\
  StarsApi.cone_valid north_of_equator = true /\
  py_eq (cone_cache_key south_of_equator) (cone_cache_key north_of_equator) = true /\
  float_repr (py_round (cone_dec south_of_equator) 4) = "-0.0" /\
  float_repr (py_round (cone_dec north_of_equator) 4) = "0.0" /\
  _generate_key (cone_cache_key south_of_equator) = "d56988088092209b4bfbc59e5f008a77c14247bbafe6e63b02f3b12c7d11e9ac" /\
  _generate_key (cone_cache_key north_of_equator) = "412d114f781bdc5a1a44b9a762b58709a1f580601f3efe09370e4a9123f4a7d7" /\
  _generate_key (cone_cache_key south_of_equator) <>
  _generate_key (cone_cache_key north_of_equator).
Proof. vm_compute. repeat split; discriminate. Qed.

End KeySpec.

(** ** CacheService: maintenance and composition *)

Module CacheAdminSpec.
Import Key Cache CacheSpec CacheAdmin Examples MoreExamples.

Section Facts.
Context {V : Type}.
Variable json_dumps : V -> outcome string.
Variable json_loads : string -> outcome V.

Implicit Types (s : CacheService V) (o : faults) (e : mem_entry V) (r : db_row).

Ltac run_admin :=
  unfold clear_expired, clear_all, stats, db_count, get, set, get_memory, get_durable,
    set_durable, db_connect, db_select, db_execute, db_commit, raise_if, try_except,
    bind, ret, lift, get_state, modify;
  cbn [fst snd enabled ttl memory_cache query_cache with_memory with_table negb].

Lemma lookup_delete_keys (keys : list string) (m : gmap string (mem_entry V)) key :
  delete_keys keys m !! key = if decide (key ∈ keys) then None else m !! key.
Proof.
  unfold delete_keys. revert m. induction keys as [| k keys IH]; intros m; cbn.
  - destruct (decide (key ∈ [])) as [H | H]; [inversion H | reflexivity].
  - rewrite IH. destruct (decide (key ∈ keys)) as [Hin | Hin].
    + rewrite decide_True by (right; exact Hin). reflexivity.
    + destruct (decide (key = k)) as [-> | Hne].
      * rewrite decide_True by left. apply lookup_delete_eq.
      * rewrite decide_False by (intros H; inversion H; subst; contradiction).
        apply lookup_delete_ne. congruence.
Qed.

Lemma elem_of_expired_keys cutoff (m : gmap string (mem_entry V)) key :
  key ∈ expired_keys cutoff m <->
  exists e, m !! key = Some e /\ (timestamp e < cutoff)%Q.
Proof.
  unfold expired_keys. rewrite list_elem_of_In, in_map_iff. split.
  - intros ([k e] & <- & Hin). apply filter_In in Hin. destruct Hin as [Hin Hlt].
    apply list_elem_of_In, elem_of_map_to_list in Hin. cbn in *.
    exists e. split; [exact Hin | apply Qlt_bool_true, Hlt].
  - intros (e & Hm & Hlt). exists (key, e). split; [reflexivity |].
    apply filter_In. split.
    + apply list_elem_of_In, elem_of_map_to_list, Hm.
    + cbn. apply Qlt_bool_true, Hlt.
Qed.

(** The sweep of the volatile tier keeps exactly the entries stamped at or
    after the cutoff. *)
Lemma lookup_swept cutoff (m : gmap string (mem_entry V)) key e :
  delete_keys (expired_keys cutoff m) m !! key = Some e <->
  m !! key = Some e /\ (cutoff <= timestamp e)%Q.
Proof.
  rewrite lookup_delete_keys.
  destruct (decide (key ∈ expired_keys cutoff m)) as [Hin | Hin].
  - apply elem_of_expired_keys in Hin. destruct Hin as (e' & Hm & Hlt).
    split; [discriminate |]. intros [Hm' Hle]. rewrite Hm in Hm'. injection Hm' as ->.
    exfalso. apply (Qlt_not_le _ _ Hlt Hle).
  - split.
    + intros Hm. split; [exact Hm |].
      destruct (Qlt_le_dec (timestamp e) cutoff) as [Hlt | Hle]; [| exact Hle].
      exfalso. apply Hin, elem_of_expired_keys. eauto.
    + intros [Hm _]. exact Hm.
Qed.

Lemma lookup_delete_before cutoff (d : gmap string db_row) key r :
  delete_before cutoff d !! key = Some r <->
  d !! key = Some r /\ (cutoff <= row_timestamp r)%Q.
Proof.
  unfold delete_before. rewrite map_lookup_filter_Some. cbn [snd].
  rewrite Qlt_bool_false. reflexivity.
Qed.

(** The state [clear_expired] leaves. *)
Lemma clear_expired_unfold o now s :
  enabled s = true ->
  let cutoff := (now - inject_Z (ttl s))%Q in
  let swept := delete_keys (expired_keys cutoff (memory_cache s)) (memory_cache s) in
  clear_expired o now s =
    (Returns tt,
     if o OpConnect || o OpExecute || o OpCommit then with_memory swept s
     else with_table (delete_before cutoff (query_cache s)) (with_memory swept s)).
Proof.
  intros He. run_admin. rewrite He. cbn [negb].
  destruct (o OpConnect); [reflexivity |].
  destruct (o OpExecute); [reflexivity |].
  destruct (o OpCommit); reflexivity.
Qed.

(** X1: [clear_expired] returns whatever fails; afterwards the volatile tier
    holds exactly the entries stamped at or after [now - ttl]; so does the
    durable tier when its operations succeed, and it is left as it was when
    one of them raises. *)
Theorem clear_expired_sweeps o (now : Q) s :
  enabled s = true ->
  let cutoff := (now - inject_Z (ttl s))%Q in
  exists s',
    clear_expired o now s = (Returns tt, s') /\
    enabled s' = true /\ ttl s' = ttl s /\
    (forall key e, memory_cache s' !! key = Some e <->
                   memory_cache s !! key = Some e /\ (cutoff <= timestamp e)%Q) /\
    (o OpConnect = false -> o OpExecute = false -> o OpCommit = false ->
     forall key r, query_cache s' !! key = Some r <->
                   query_cache s !! key = Some r /\ (cutoff <= row_timestamp r)%Q) /\
    (o OpConnect = true \/ o OpExecute = true \/ o OpCommit = true ->
     query_cache s' = query_cache s).
Proof.
  intros He cutoff. rewrite clear_expired_unfold by assumption. cbn zeta. fold cutoff.
  eexists. split; [reflexivity |].
  destruct (o OpConnect || o OpExecute || o OpCommit) eqn:Ho.
  - cbn [enabled ttl memory_cache query_cache with_memory with_table].
    split; [exact He |]. split; [reflexivity |]. split; [apply lookup_swept |].
    split; [| reflexivity].
    intros H1 H2 H3. rewrite H1, H2, H3 in Ho. discriminate.
  - cbn [enabled ttl memory_cache query_cache with_memory with_table].
    split; [exact He |]. split; [reflexivity |]. split; [apply lookup_swept |].
    split; [intros _ _ _; apply lookup_delete_before |].
    intros H. apply orb_false_iff in Ho. destruct Ho as [Ho H3].
    apply orb_false_iff in Ho. destruct Ho as [H1 H2].
    destruct H as [H | [H | H]]; congruence.
Qed.

(** What [get] answers, read off the two entries under the key. *)
Lemma get_answers o now q s :
  enabled s = true ->
  fst (get json_loads o now q s) =
    Returns (answer json_loads o now (ttl s)
               (memory_cache s !! _generate_key q) (query_cache s !! _generate_key q)).
Proof.
  intros He. rewrite get_unfold by assumption. unfold answer.
  set (key := _generate_key q).
  assert (Hd : forall s1, query_cache s1 = query_cache s -> ttl s1 = ttl s ->
     fst (match get_durable json_loads o now key s1 with
          | (Returns r, s'') => (Returns r, s'')
          | (Raises _, s'') => (Returns None, s'')
          end) = Returns (durable_answer json_loads o now (ttl s) (query_cache s !! key))).
  { intros s1 Hq Ht. unfold durable_answer. run_admin.
    destruct (o OpConnect); [reflexivity |].
    destruct (o OpSelect); [reflexivity |]. cbn [orb]. rewrite Hq.
    destruct (query_cache s !! key) as [r |]; [| reflexivity].
    rewrite Ht. destruct (Qlt_bool _ _).
    - destruct (json_loads (row_value r)); reflexivity.
    - destruct (o OpExecute); [reflexivity |].
      destruct (o OpCommit); reflexivity. }
  destruct (memory_cache s !! key) as [e |] eqn:Hm.
  - destruct (Qlt_bool (now - timestamp e) (inject_Z (ttl s))) eqn:Hf.
    + rewrite (get_memory_fresh _ _ _ e Hm) by (apply Qlt_bool_true, Hf). reflexivity.
    + rewrite (get_memory_expired _ _ _ e Hm) by (apply Qlt_bool_false, Hf).
      apply Hd; reflexivity.
  - rewrite get_memory_absent by assumption. apply Hd; reflexivity.
Qed.

Lemma get_disabled o now q s :
  enabled s = false -> get json_loads o now q s = (Returns None, s).
Proof. intros He. unfold get, bind, get_state, ret. rewrite He. reflexivity. Qed.

Lemma set_disabled o now q v s :
  enabled s = false -> set json_dumps o now q v s = (Returns tt, s).
Proof. intros He. unfold set, bind, get_state, ret. rewrite He. reflexivity. Qed.

Lemma clear_expired_disabled o now s :
  enabled s = false -> clear_expired o now s = (Returns tt, s).
Proof. intros He. unfold clear_expired, bind, get_state, ret. rewrite He. reflexivity. Qed.

(** An entry that is fresh at [t'] is not older than the cutoff of a sweep
    made at or before [t']. *)
Lemma durable_answer_swept o (now t' : Q) (ttl : Z) (row row' : option db_row) :
  (now <= t')%Q ->
  (row' = row \/
   forall r, row' = Some r <-> row = Some r /\ (now - inject_Z ttl <= row_timestamp r)%Q) ->
  durable_answer json_loads o t' ttl row' = durable_answer json_loads o t' ttl row.
Proof.
  intros Hle [-> | Hrow]; [reflexivity |]. unfold durable_answer.
  destruct (o OpConnect || o OpSelect); [reflexivity |].
  destruct row as [r |].
  - destruct (Qlt_bool (t' - row_timestamp r) (inject_Z ttl)) eqn:Hf.
    + assert (Hk : row' = Some r).
      { apply Hrow. split; [reflexivity |]. apply Qlt_bool_true in Hf. lra. }
      rewrite Hk, Hf. reflexivity.
    + destruct row' as [r' |]; [| reflexivity].
      destruct (proj1 (Hrow r') eq_refl) as [[= ->] _]. rewrite Hf. reflexivity.
  - destruct row' as [r' |]; [| reflexivity].
    destruct (proj1 (Hrow r') eq_refl) as [[=] _].
Qed.

Lemma answer_swept o (now t' : Q) (ttl : Z) (cached cached' : option (mem_entry V))
    (row row' : option db_row) :
  (now <= t')%Q ->
  (forall e, cached' = Some e <->
             cached = Some e /\ (now - inject_Z ttl <= timestamp e)%Q) ->
  (row' = row \/
   forall r, row' = Some r <-> row = Some r /\ (now - inject_Z ttl <= row_timestamp r)%Q) ->
  answer json_loads o t' ttl cached' row' = answer json_loads o t' ttl cached row.
Proof.
  intros Hle Hmem Hrow. unfold answer.
  rewrite (durable_answer_swept o now t' ttl row row' Hle Hrow).
  destruct cached as [e |].
  - destruct (Qlt_bool (t' - timestamp e) (inject_Z ttl)) eqn:Hf.
    + assert (Hk : cached' = Some e).
      { apply Hmem. split; [reflexivity |]. apply Qlt_bool_true in Hf. lra. }
      rewrite Hk, Hf. reflexivity.
    + destruct cached' as [e' |]; [| reflexivity].
      destruct (proj1 (Hmem e') eq_refl) as [[= ->] _]. rewrite Hf. reflexivity.
  - destruct cached' as [e' |]; [| reflexivity].
    destruct (proj1 (Hmem e') eq_refl) as [[=] _].
Qed.

(** X2: A sweep changes no answer: whatever [get] returns at a time not before
    the sweep, it returns the same with and without the sweep, whichever
    durable operations fail in either call. *)
Theorem clear_expired_invisible o o' (now t' : Q) (q : Json.t) s :
  (now <= t')%Q ->
  fst (get json_loads o t' q (snd (clear_expired o' now s))) =
  fst (get json_loads o t' q s).
Proof.
  intros Hle. destruct (enabled s) eqn:He.
  - rewrite clear_expired_unfold by assumption. cbn zeta. cbn [snd].
    set (cutoff := (now - inject_Z (ttl s))%Q).
    set (s' := if o' OpConnect || o' OpExecute || o' OpCommit then _ else _).
    assert (He' : enabled s' = true).
    { unfold s'. destruct (o' OpConnect || o' OpExecute || o' OpCommit); exact He. }
    assert (Ht : ttl s' = ttl s).
    { unfold s'. destruct (o' OpConnect || o' OpExecute || o' OpCommit); reflexivity. }
    rewrite !get_answers by assumption. f_equal. rewrite Ht.
    apply (answer_swept o now t'); [exact Hle | |].
    + intros e. unfold s'.
      destruct (o' OpConnect || o' OpExecute || o' OpCommit); apply lookup_swept.
    + unfold s'. destruct (o' OpConnect || o' OpExecute || o' OpCommit).
      * left. reflexivity.
      * right. intros r. apply lookup_delete_before.
  - rewrite clear_expired_disabled by assumption. reflexivity.
Qed.

(** The state [set] leaves: the entry under the key in the volatile tier,
    the row under the key in the durable tier if it was written, the rest
    as before. *)
Lemma set_state o now q v s :
  enabled s = true ->
  let key := _generate_key q in
  let s' := snd (set json_dumps o now q v s) in
  enabled s' = true /\ ttl s' = ttl s /\
  memory_cache s' = <[key := {| value := v; timestamp := now |}]> (memory_cache s) /\
  (query_cache s' = query_cache s \/
   exists js, query_cache s' =
              <[key := {| row_value := js; row_timestamp := now |}]> (query_cache s)).
Proof.
  intros He key s'. unfold s'. rewrite set_unfold by assumption. cbn zeta. cbn [snd].
  fold key. set (s0 := with_memory _ s).
  destruct (set_durable_state json_dumps o now key v s0) as (Hm & He1 & Ht1 & Hq).
  rewrite He1, Ht1, Hm. auto.
Qed.

(** X3: Writing one key changes the answer for no other key. *)
Theorem set_leaves_other_keys o1 o2 (t t' : Q) (q q' : Json.t) (v : V) s :
  _generate_key q <> _generate_key q' ->
  fst (get json_loads o2 t' q' (snd (set json_dumps o1 t q v s))) =
  fst (get json_loads o2 t' q' s).
Proof.
  intros Hne. destruct (enabled s) eqn:He.
  - destruct (set_state o1 t q v s He) as (He' & Ht & Hm & Hq).
    rewrite !get_answers by assumption. rewrite Ht, Hm.
    rewrite lookup_insert_ne by exact Hne.
    destruct Hq as [-> | [js ->]]; [reflexivity |].
    rewrite lookup_insert_ne by exact Hne. reflexivity.
  - rewrite set_disabled by assumption. reflexivity.
Qed.

(** The state [get] leaves under its key: an entry of the volatile tier is
    the one that was there or carries the timestamp of the row it was
    promoted from; a row of the durable tier was there before. *)
Lemma get_state_after o now q s :
  let key := _generate_key q in
  let s' := snd (get json_loads o now q s) in
  enabled s' = enabled s /\ ttl s' = ttl s /\
  (forall e, memory_cache s' !! key = Some e ->
     memory_cache s !! key = Some e \/
     exists r, query_cache s !! key = Some r /\ timestamp e = row_timestamp r) /\
  (forall r, query_cache s' !! key = Some r -> query_cache s !! key = Some r).
Proof.
  intros key s'. unfold s'. destruct (enabled s) eqn:He.
  2:{ rewrite get_disabled by assumption. cbn [snd]. auto. }
  rewrite get_unfold by assumption. fold key.
  assert (Hd : forall s1, enabled s1 = enabled s -> ttl s1 = ttl s ->
            query_cache s1 = query_cache s ->
            (forall e, memory_cache s1 !! key = Some e -> memory_cache s !! key = Some e) ->
            let s2 := snd (match get_durable json_loads o now key s1 with
                           | (Returns r, s'') => (Returns r, s'')
                           | (Raises _, s'') => (Returns None, s'')
                           end) in
            enabled s2 = enabled s /\ ttl s2 = ttl s /\
            (forall e, memory_cache s2 !! key = Some e ->
               memory_cache s !! key = Some e \/
               exists r, query_cache s !! key = Some r /\ timestamp e = row_timestamp r) /\
            (forall r, query_cache s2 !! key = Some r -> query_cache s !! key = Some r)).
  { intros s1 He1 Ht1 Hq1 Hm1. run_admin.
    destruct (o OpConnect); [cbn [snd]; rewrite Hq1; auto 6 |].
    destruct (o OpSelect); [cbn [snd]; rewrite Hq1; auto 6 |].
    destruct (query_cache s1 !! key) as [r |] eqn:Hr; [| cbn [snd]; rewrite Hq1; auto 6].
    destruct (Qlt_bool _ _).
    - destruct (json_loads (row_value r)) as [v | e0]; cbn [snd]; [| rewrite Hq1; auto 6].
      cbn [enabled ttl memory_cache query_cache with_memory].
      rewrite Hq1 in *. split; [exact He1 |]. split; [exact Ht1 |]. split; [| auto].
      intros e. rewrite lookup_insert_eq. intros [= <-]. right. exists r. auto.
    - destruct (o OpExecute); [cbn [snd]; rewrite Hq1; auto 6 |].
      destruct (o OpCommit); cbn [snd]; [rewrite Hq1; auto 6 |].
      cbn [enabled ttl memory_cache query_cache with_table].
      split; [exact He1 |]. split; [exact Ht1 |]. split; [auto |].
      intros r'. rewrite lookup_delete_eq. discriminate. }
  rewrite He in Hd.
  destruct (memory_cache s !! key) as [e |] eqn:Hm.
  - destruct (Qlt_bool (now - timestamp e) (inject_Z (ttl s))) eqn:Hf.
    + rewrite (get_memory_fresh _ _ _ e Hm) by (apply Qlt_bool_true, Hf).
      cbn [snd]. rewrite Hm. auto 6.
    + rewrite (get_memory_expired _ _ _ e Hm) by (apply Qlt_bool_false, Hf).
      refine (Hd (with_memory (delete key (memory_cache s)) s) He eq_refl eq_refl _).
      cbn [memory_cache with_memory].
      intros e'. rewrite lookup_delete_eq. discriminate.
  - rewrite get_memory_absent by assumption.
    refine (Hd s He eq_refl eq_refl _).
    intros e'. rewrite Hm. discriminate.
Qed.

Lemma answer_expired o (t' : Q) (ttl : Z) (cached : option (mem_entry V))
    (row : option db_row) :
  (forall e, cached = Some e -> (inject_Z ttl <= t' - timestamp e)%Q) ->
  (forall r, row = Some r -> (inject_Z ttl <= t' - row_timestamp r)%Q) ->
  answer json_loads o t' ttl cached row = None.
Proof.
  intros Hm Hr.
  assert (Hd : durable_answer json_loads o t' ttl row = None).
  { unfold durable_answer. destruct (o OpConnect || o OpSelect); [reflexivity |].
    destruct row as [r |]; [| reflexivity].
    specialize (Hr r eq_refl). apply Qlt_bool_false in Hr. rewrite Hr. reflexivity. }
  unfold answer. destruct cached as [e |]; [| exact Hd].
  specialize (Hm e eq_refl). apply Qlt_bool_false in Hm. rewrite Hm. exact Hd.
Qed.

(** X4: Reading does not refresh: an entry whose age at [t'] has reached the
    TTL is not returned at [t'], however it was read in between -- a
    promotion keeps the timestamp of the write. *)
Theorem get_does_not_refresh o o' (t t' : Q) (q : Json.t) s :
  enabled s = true ->
  expired_at t' (_generate_key q) s ->
  fst (get json_loads o' t' q (snd (get json_loads o t q s))) = Returns None.
Proof.
  intros He [Hm Hr].
  destruct (get_state_after o t q s) as (He1 & Ht1 & Hm1 & Hr1).
  rewrite get_answers by (rewrite He1; exact He). f_equal.
  apply answer_expired; rewrite Ht1.
  - intros e Hl. destruct (Hm1 e Hl) as [Ho | (r & Hq & ->)]; [apply Hm, Ho | apply Hr, Hq].
  - intros r Hl. apply Hr, Hr1, Hl.
Qed.

(** X5: What [set] wrote to the durable tier is served after a restart: a new
    process, whose volatile tier is empty, finds the row, decodes it and
    promotes it with the timestamp of the write. *)
Theorem durable_survives_restart (t t' : Q) (q : Json.t) (v : V) (js : string) s :
  enabled s = true ->
  json_dumps v = Returns js ->
  json_loads js = Returns v ->
  (t' - t < inject_Z (ttl s))%Q ->
  let key := _generate_key q in
  let s1 := restart (snd (set json_dumps no_faults t q v s)) in
  query_cache s1 !! key = Some {| row_value := js; row_timestamp := t |} /\
  get json_loads no_faults t' q s1 =
    (Returns (Some v),
     with_memory {[ key := {| value := v; timestamp := t |} ]} s1).
Proof.
  intros He Hd Hl Hf key s1.
  assert (Hq : query_cache s1 !! key = Some {| row_value := js; row_timestamp := t |}).
  { unfold s1, restart. rewrite set_unfold by assumption. cbn zeta. cbn [snd].
    fold key. run_admin. rewrite Hd. cbn. apply lookup_insert_eq. }
  assert (Hs1 : enabled s1 = true /\ ttl s1 = ttl s /\ memory_cache s1 = ∅).
  { destruct (set_state no_faults t q v s He) as (He' & Ht & _ & _).
    unfold s1, restart. cbn [enabled ttl memory_cache with_memory]. auto. }
  destruct Hs1 as (He1 & Ht1 & Hm1).
  split; [exact Hq |].
  rewrite get_unfold by assumption. fold key.
  rewrite get_memory_absent by (rewrite Hm1; apply lookup_empty).
  rewrite (get_durable_promote json_loads _ _ _ _ _ v eq_refl eq_refl Hq);
    [| rewrite Ht1; exact Hf | exact Hl].
  rewrite Hm1. reflexivity.
Qed.

(** X6: [clear_all] returns whatever fails and empties the volatile tier; when
    the durable operations succeed the table is empty too, and every later
    [get] finds nothing. *)
Theorem clear_all_empties o s :
  exists s',
    clear_all o s = (Returns tt, s') /\
    memory_cache s' = ∅ /\ enabled s' = enabled s /\ ttl s' = ttl s /\
    (o OpConnect = false -> o OpExecute = false -> o OpCommit = false ->
     query_cache s' = ∅ /\
     forall o' now q, get json_loads o' now q s' = (Returns None, s')).
Proof.
  run_admin.
  destruct (o OpConnect) eqn:H1; [eexists; repeat split; try reflexivity; discriminate |].
  destruct (o OpExecute) eqn:H2; [eexists; repeat split; try reflexivity; discriminate |].
  destruct (o OpCommit) eqn:H3; [eexists; repeat split; try reflexivity; discriminate |].
  eexists. split; [reflexivity |]. cbn [memory_cache enabled ttl query_cache].
  repeat split; try reflexivity.
  intros o' now q. apply get_absent; apply lookup_empty.
Qed.

(** X7: When the durable part of [clear_all] fails, the failure is swallowed
    and the table keeps its rows: an unexpired row is served again by the
    next [get]. *)
Theorem clear_all_fault_keeps_rows o (now : Q) (q : Json.t) (v : V) r s :
  o OpConnect = true \/ o OpExecute = true \/ o OpCommit = true ->
  enabled s = true ->
  query_cache s !! _generate_key q = Some r ->
  (now - row_timestamp r < inject_Z (ttl s))%Q ->
  json_loads (row_value r) = Returns v ->
  fst (clear_all o s) = Returns tt /\
  query_cache (snd (clear_all o s)) = query_cache s /\
  fst (get json_loads no_faults now q (snd (clear_all o s))) = Returns (Some v).
Proof.
  intros Ho He Hq Hf Hl.
  assert (E : clear_all o s = (Returns tt, with_memory ∅ s)).
  { run_admin. destruct (o OpConnect); [reflexivity |].
    destruct (o OpExecute); [reflexivity |].
    destruct (o OpCommit); [reflexivity |].
    destruct Ho as [Ho | [Ho | Ho]]; discriminate. }
  rewrite E. cbn [fst snd]. split; [reflexivity |]. split; [reflexivity |].
  rewrite get_answers by exact He. cbn [memory_cache query_cache ttl with_memory].
  rewrite lookup_empty, Hq. unfold answer, durable_answer, no_faults. cbn [orb].
  apply Qlt_bool_true in Hf. rewrite Hf, Hl. reflexivity.
Qed.

Lemma stats_unfold o s :
  stats o s =
    (Returns {| stats_enabled := enabled s;
                memory_entries := size (memory_cache s);
                db_entries := if o OpConnect || o OpSelect then 0 else size (query_cache s);
                ttl_seconds := ttl s |}, s).
Proof.
  run_admin. destruct (o OpConnect); [reflexivity |].
  destruct (o OpSelect); reflexivity.
Qed.

(** X8: [stats] returns whatever fails and changes nothing; after a [set] whose
    durable write succeeded it counts one more entry in each tier when the
    key was new to that tier, and as many as before when the key was
    overwritten. *)
Theorem set_then_stats (t : Q) (q : Json.t) (v : V) (js : string) s :
  enabled s = true ->
  json_dumps v = Returns js ->
  let key := _generate_key q in
  let s1 := snd (set json_dumps no_faults t q v s) in
  exists st,
    stats no_faults s1 = (Returns st, s1) /\
    memory_entries st =
      match memory_cache s !! key with
      | Some _ => size (memory_cache s)
      | None => S (size (memory_cache s))
      end /\
    db_entries st =
      match query_cache s !! key with
      | Some _ => size (query_cache s)
      | None => S (size (query_cache s))
      end /\
    (forall o, exists st', stats o s1 = (Returns st', s1) /\
                           memory_entries st' = memory_entries st /\
                           (o OpConnect = true \/ o OpSelect = true -> db_entries st' = 0%nat)).
Proof.
  intros He Hd key s1.
  assert (Hs1 : memory_cache s1 = <[key := {| value := v; timestamp := t |}]> (memory_cache s) /\
                query_cache s1 = <[key := {| row_value := js; row_timestamp := t |}]> (query_cache s)).
  { unfold s1. rewrite set_unfold by assumption. cbn zeta. cbn [snd]. fold key.
    run_admin. rewrite Hd. cbn. auto. }
  destruct Hs1 as [Hm Hq].
  eexists. split; [apply stats_unfold |].
  cbn [memory_entries db_entries no_faults orb]. split; [| split].
  - rewrite Hm. destruct (memory_cache s !! key) eqn:E.
    + apply map_size_insert_Some. eauto.
    + apply map_size_insert_None, E.
  - rewrite Hq. destruct (query_cache s !! key) eqn:E.
    + apply map_size_insert_Some. eauto.
    + apply map_size_insert_None, E.
  - intros o. eexists. split; [apply stats_unfold |].
    cbn [memory_entries db_entries]. split; [reflexivity |].
    intros [-> | ->]; [reflexivity | rewrite orb_true_r; reflexivity].
Qed.

(** X9: With [CACHE_ENABLED] off nothing is stored and nothing is found: [set]
    and [clear_expired] leave the service as it is, and a [get] after a
    [set] returns nothing. *)
Theorem disabled_cache_stores_nothing o1 o2 o3 (t t' t'' : Q) (q : Json.t) (v : V) s :
  enabled s = false ->
  set json_dumps o1 t q v s = (Returns tt, s) /\
  get json_loads o2 t' q (snd (set json_dumps o1 t q v s)) = (Returns None, s) /\
  clear_expired o3 t'' s = (Returns tt, s).
Proof.
  intros He. rewrite set_disabled by assumption. cbn [snd].
  rewrite get_disabled by assumption. rewrite clear_expired_disabled by assumption.
  auto.
Qed.

End Facts.
Lemma demo_restarted_row r :
  query_cache demo_restarted !! _generate_key demo_query = Some r -> r = sirius_row.
Proof.
  unfold demo_restarted. cbn [query_cache]. rewrite lookup_singleton_eq.
  intros [= <-]. reflexivity.
Qed.

Lemma clear_expired_sweeps_witness :
  enabled demo_restarted = true /\
  exists s', clear_expired no_faults 4000 demo_restarted = (Returns tt, s') /\
             query_cache s' !! _generate_key demo_query = None.
Proof.
  split; [reflexivity |].
  destruct (clear_expired_sweeps no_faults 4000 demo_restarted eq_refl)
    as (s' & E & _ & _ & _ & Hq & _).
  exists s'. split; [exact E |].
  apply eq_None_not_Some. intros [r Hr].
  apply (Hq eq_refl eq_refl eq_refl) in Hr. destruct Hr as [Hr Hle].
  apply demo_restarted_row in Hr. subst r.
  revert Hle. unfold Qle. cbn. lia.
Defined.

Lemma clear_expired_invisible_witness :
  (0 <= 200)%Q /\
  fst (get demo_loads no_faults 200 demo_query
         (snd (clear_expired no_faults 0 demo_restarted))) =
  fst (get demo_loads no_faults 200 demo_query demo_restarted).
Proof.
  assert (H : (0 <= 200)%Q) by (unfold Qle; cbn; lia).
  split; [exact H |].
  exact (clear_expired_invisible demo_loads no_faults no_faults 0 200 demo_query
           demo_restarted H).
Defined.

Lemma set_leaves_other_keys_witness :
  _generate_key other_query <> _generate_key demo_query /\
  fst (get demo_loads no_faults 200 demo_query
         (snd (set demo_dumps no_faults 150 other_query "vega" demo_restarted))) =
  fst (get demo_loads no_faults 200 demo_query demo_restarted).
Proof.
  assert (H : _generate_key other_query <> _generate_key demo_query).
  { intros E. vm_compute in E. discriminate E. }
  split; [exact H |].
  exact (set_leaves_other_keys demo_dumps demo_loads no_faults no_faults 150 200
           other_query demo_query "vega" demo_restarted H).
Defined.

Lemma get_does_not_refresh_witness :
  enabled demo_restarted = true /\
  expired_at 3700 (_generate_key demo_query) demo_restarted /\
  fst (get demo_loads no_faults 3700 demo_query
         (snd (get demo_loads no_faults 200 demo_query demo_restarted))) = Returns None.
Proof.
  assert (H : expired_at 3700 (_generate_key demo_query) demo_restarted).
  { split.
    - intros e He. unfold demo_restarted in He. cbn [memory_cache] in He.
      rewrite lookup_empty in He. discriminate.
    - intros r Hr. apply demo_restarted_row in Hr. subst r.
      unfold Qle. cbn. lia. }
  split; [reflexivity |]. split; [exact H |].
  exact (get_does_not_refresh demo_loads no_faults no_faults 200 3700 demo_query
           demo_restarted eq_refl H).
Defined.

Lemma durable_survives_restart_witness :
  enabled demo_empty = true /\
  demo_dumps "sirius" = Returns "sirius" /\
  demo_loads "sirius" = Returns "sirius" /\
  (10 - 0 < inject_Z (ttl demo_empty))%Q /\
  fst (get demo_loads no_faults 10 demo_query
         (restart (snd (set demo_dumps no_faults 0 demo_query "sirius" demo_empty)))) =
    Returns (Some "sirius").
Proof.
  assert (H : (10 - 0 < inject_Z (ttl demo_empty))%Q) by (unfold Qlt; cbn; lia).
  split; [reflexivity |]. split; [reflexivity |]. split; [reflexivity |].
  split; [exact H |].
  destruct (durable_survives_restart demo_dumps demo_loads 0 10 demo_query "sirius"
              "sirius" demo_empty eq_refl eq_refl eq_refl H) as [_ E].
  rewrite E. reflexivity.
Defined.

Lemma clear_all_fault_keeps_rows_witness :
  demo_unavailable OpConnect = true /\
  enabled demo_restarted = true /\
  fst (get demo_loads no_faults 200 demo_query
         (snd (clear_all demo_unavailable demo_restarted))) = Returns (Some "sirius").
Proof.
  split; [reflexivity |]. split; [reflexivity |].
  assert (Hf : (200 - row_timestamp sirius_row < inject_Z (ttl demo_restarted))%Q)
    by (unfold Qlt; cbn; lia).
  assert (Hq : query_cache demo_restarted !! _generate_key demo_query = Some sirius_row).
  { unfold demo_restarted. cbn [query_cache]. apply lookup_singleton_eq. }
  exact (proj2 (proj2 (clear_all_fault_keeps_rows demo_loads demo_unavailable 200
           demo_query "sirius" sirius_row demo_restarted (or_introl eq_refl) eq_refl
           Hq Hf eq_refl))).
Defined.

Lemma set_then_stats_witness :
  enabled demo_empty = true /\
  demo_dumps "sirius" = Returns "sirius" /\
  exists st,
    stats no_faults (snd (set demo_dumps no_faults 0 demo_query "sirius" demo_empty))
      = (Returns st, snd (set demo_dumps no_faults 0 demo_query "sirius" demo_empty)) /\
    memory_entries st = 1%nat /\ db_entries st = 1%nat.
Proof.
  split; [reflexivity |]. split; [reflexivity |].
  destruct (set_then_stats demo_dumps 0 demo_query "sirius" "sirius" demo_empty
              eq_refl eq_refl) as (st & E & Hm & Hd & _).
  exists st. split; [exact E |].
  unfold demo_empty in Hm, Hd. cbn [memory_cache query_cache] in Hm, Hd.
  rewrite lookup_empty, map_size_empty in Hm.
  vm_compute in Hd. auto.
Defined.

Lemma disabled_cache_stores_nothing_witness :
  enabled demo_disabled = false /\
  get demo_loads no_faults 1 demo_query
    (snd (set demo_dumps no_faults 0 demo_query "sirius" demo_disabled)) =
    (Returns None, demo_disabled).
Proof.
  split; [reflexivity |].
  exact (proj1 (proj2 (disabled_cache_stores_nothing demo_dumps demo_loads
           no_faults no_faults no_faults 0 1 2 demo_query "sirius" demo_disabled
           eq_refl))).
Defined.

End CacheAdminSpec.

(** ** Rounding to a double keeps the order *)

Module DoubleSpec.
Import PyFloat.
Local Open Scope Q_scope.

Lemma pow2_power (e : Z) : pow2 e == 2 ^ e.
Proof.
  unfold pow2. destruct (Z.leb_spec 0 e) as [H | H].
  - rewrite Zpower_Qpower by exact H. reflexivity.
  - rewrite Zpower_Qpower by lia. rewrite Qpower_opp, Qinv_involutive. reflexivity.
Qed.

Lemma pow2_pos (e : Z) : 0 < pow2 e.
Proof. rewrite pow2_power. apply Qpower_0_lt. reflexivity. Qed.

Lemma pow2_add (a b : Z) : pow2 (a + b) == pow2 a * pow2 b.
Proof. rewrite !pow2_power. apply Qpower_plus. discriminate. Qed.

Lemma pow2_le (a b : Z) : (a <= b)%Z -> pow2 a <= pow2 b.
Proof.
  intros H. rewrite !pow2_power. apply Qpower_le_compat_l; [exact H |]. discriminate.
Qed.

Lemma pow2_int (k : Z) : (0 <= k)%Z -> pow2 k = inject_Z (2 ^ k).
Proof. intros H. unfold pow2. destruct (Z.leb_spec 0 k); [reflexivity | lia]. Qed.

Lemma floor_mono (x y : Q) : x <= y -> (Qfloor x <= Qfloor y)%Z.
Proof. apply Qfloor_resp_le. Qed.

Lemma round_half_even_floor (x : Q) :
  round_half_even x = Qfloor x \/ round_half_even x = (Qfloor x + 1)%Z.
Proof.
  unfold round_half_even. destruct (Qcompare _ _); auto. destruct (Z.even _); auto.
Qed.

Lemma round_half_even_mono (x y : Q) : x <= y -> (round_half_even x <= round_half_even y)%Z.
Proof.
  intros Hxy. pose proof (Qfloor_resp_le _ _ Hxy) as Hf.
  destruct (Z.eq_dec (Qfloor x) (Qfloor y)) as [E | N].
  - unfold round_half_even. rewrite <- E.
    destruct (Qcompare_spec (x - inject_Z (Qfloor x)) (1 # 2));
      destruct (Qcompare_spec (y - inject_Z (Qfloor x)) (1 # 2));
      try (destruct (Z.even (Qfloor x))); try lia; exfalso; lra.
  - destruct (round_half_even_floor x) as [-> | ->];
      destruct (round_half_even_floor y) as [-> | ->]; lia.
Qed.

Lemma round_half_even_int (z : Z) : round_half_even (inject_Z z) = z.
Proof.
  unfold round_half_even. rewrite Qfloor_Z.
  assert (E : inject_Z z - inject_Z z == 0) by ring.
  destruct (Qcompare_spec (inject_Z z - inject_Z z) (1 # 2)) as [C | C | C];
    [| reflexivity |]; rewrite E in C; discriminate C.
Qed.

Lemma binade (a : Q) :
  0 < a ->
  let k0 := (Z.log2 (Qnum a) - Z.log2 (Zpos (Qden a)))%Z in
  let k := if Qle_bool (pow2 k0) a then k0 else (k0 - 1)%Z in
  pow2 k <= a /\ a < pow2 (k + 1).
Proof.
  intros Ha. destruct a as [n d]. cbn [Qnum Qden].
  assert (Hn : (0 < n)%Z) by (unfold Qlt in Ha; cbn in Ha; lia).
  set (ln := Z.log2 n). set (ld := Z.log2 (Z.pos d)).
  destruct (Z.log2_spec n Hn) as [Hn1 Hn2]. fold ln in Hn1, Hn2.
  destruct (Z.log2_spec (Z.pos d) ltac:(lia)) as [Hd1 Hd2]. fold ld in Hd1, Hd2.
  assert (Lln : (0 <= ln)%Z) by apply Z.log2_nonneg.
  assert (Lld : (0 <= ld)%Z) by apply Z.log2_nonneg.
  set (k0 := (ln - ld)%Z).
  assert (E : pow2 ln == pow2 k0 * pow2 ld).
  { rewrite <- pow2_add. unfold k0. replace (ln - ld + ld)%Z with ln by lia. reflexivity. }
  assert (S1 : forall j, pow2 (j + 1) == 2 * pow2 j).
  { intros j. rewrite pow2_add. change (pow2 1) with 2. ring. }
  pose proof (pow2_pos k0) as P0. pose proof (pow2_pos ld) as Pd.
  set (N := inject_Z n). set (D := inject_Z (Z.pos d)).
  assert (HN1 : pow2 ln <= N).
  { rewrite pow2_int by exact Lln. unfold N. rewrite <- Zle_Qle. exact Hn1. }
  assert (HN2 : N < 2 * pow2 ln).
  { rewrite <- S1. rewrite pow2_int by lia. unfold N. rewrite <- Zlt_Qlt.
    replace (ln + 1)%Z with (Z.succ ln) by lia. exact Hn2. }
  assert (HD1 : pow2 ld <= D).
  { rewrite pow2_int by exact Lld. unfold D. rewrite <- Zle_Qle. exact Hd1. }
  assert (HD2 : D < 2 * pow2 ld).
  { rewrite <- S1. rewrite pow2_int by lia. unfold D. rewrite <- Zlt_Qlt.
    replace (ld + 1)%Z with (Z.succ ld) by lia. exact Hd2. }
  assert (HaD : (n # d) * D == N).
  { unfold D, N. rewrite (Qmake_Qdiv n d). field. discriminate. }
  assert (HDp : 0 < D) by lra.
  set (a := n # d) in *.
  assert (Hup : a < 2 * pow2 k0) by nra.
  assert (Hlo : pow2 k0 < 2 * a) by nra.
  cbv zeta. destruct (Qle_bool (pow2 k0) a) eqn:B.
  - apply Qle_bool_iff in B. split; [exact B |]. rewrite S1. exact Hup.
  - assert (B' : a < pow2 k0).
    { apply Qnot_le_lt. intros H. apply Qle_bool_iff in H. congruence. }
    replace (k0 - 1 + 1)%Z with k0 by lia. split; [| exact B'].
    assert (S2 : pow2 k0 == 2 * pow2 (k0 - 1)).
    { rewrite <- S1. replace (k0 - 1 + 1)%Z with k0 by lia. reflexivity. }
    lra.
Qed.

(** The rounding of a positive number, written out. *)
Lemma nearest_double_positive (a : Q) :
  0 < a ->
  exists k : Z,
    let e := Z.max (k - 52) (-1074) in
    pow2 k <= a /\ a < pow2 (k + 1) /\
    nearest_double a == inject_Z (round_half_even (a / pow2 e)) * pow2 e.
Proof.
  intros Ha. pose proof (binade a Ha) as Hb. cbv zeta in Hb.
  destruct a as [n d].
  assert (Hn : (0 < n)%Z) by (unfold Qlt in Ha; cbn in Ha; lia).
  destruct n as [| p | p]; try lia.
  unfold nearest_double. cbn [Qnum Qabs Z.abs Qden] in *.
  set (k := if Qle_bool _ _ then _ else _) in *.
  exists k. cbv zeta. destruct Hb as [H1 H2]. split; [exact H1 |]. split; [exact H2 |].
  assert (B : Qle_bool 0 (Z.pos p # d) = true) by (apply Qle_bool_iff; lra).
  rewrite B. apply Qred_correct.
Qed.

Lemma nearest_double_nonneg (a : Q) : 0 < a -> 0 <= nearest_double a.
Proof.
  intros Ha. destruct (nearest_double_positive a Ha) as (k & _ & _ & ->).
  set (e := Z.max _ _). pose proof (pow2_pos e) as Pe.
  assert (H : (0 <= round_half_even (a / pow2 e))%Z).
  { rewrite <- (round_half_even_int 0). apply round_half_even_mono.
    apply Qle_shift_div_l; [exact Pe |]. change (inject_Z 0) with 0. lra. }
  rewrite Zle_Qle in H. change (inject_Z 0) with 0 in H.
  apply Qmult_le_0_compat; lra.
Qed.

Lemma nearest_double_mono_pos (x y : Q) :
  0 < x -> x <= y -> nearest_double x <= nearest_double y.
Proof.
  intros Hx Hxy. assert (Hy : 0 < y) by lra.
  destruct (nearest_double_positive x Hx) as (kx & X1 & X2 & ->).
  destruct (nearest_double_positive y Hy) as (ky & Y1 & Y2 & ->).
  set (ex := Z.max (kx - 52) (-1074)). set (ey := Z.max (ky - 52) (-1074)).
  pose proof (pow2_pos ex) as Pex. pose proof (pow2_pos ey) as Pey.
  assert (Hk : (kx <= ky)%Z).
  { destruct (Z.le_gt_cases kx ky) as [H | H]; [exact H |].
    pose proof (pow2_le (ky + 1) kx ltac:(lia)). exfalso. lra. }
  destruct (Z.eq_dec ex ey) as [E | N].
  - rewrite <- E.
    assert (H : (round_half_even (x / pow2 ex) <= round_half_even (y / pow2 ex))%Z).
    { apply round_half_even_mono. unfold Qdiv. apply Qmult_le_compat_r; [exact Hxy |].
      apply Qlt_le_weak, Qinv_lt_0_compat, Pex. }
    rewrite Zle_Qle in H. apply Qmult_le_compat_r; lra.
  - assert (Hlt : (kx < ky)%Z) by (unfold ex, ey in N; lia).
    assert (Eey : ey = (ky - 52)%Z) by (unfold ex, ey in *; lia).
    (* the rounded y is at least 2^ky *)
    assert (Ylo : pow2 ky <= inject_Z (round_half_even (y / pow2 ey)) * pow2 ey).
    { assert (H : (2 ^ 52 <= round_half_even (y / pow2 ey))%Z).
      { rewrite <- (round_half_even_int (2 ^ 52)). apply round_half_even_mono.
        apply Qle_shift_div_l; [exact Pey |].
        assert (E52 : inject_Z (2 ^ 52) * pow2 ey == pow2 ky).
        { rewrite <- (pow2_int 52) by lia. rewrite <- pow2_add. rewrite Eey.
          replace (52 + (ky - 52))%Z with ky by lia. reflexivity. }
        lra. }
      rewrite Zle_Qle in H.
      assert (E52 : inject_Z (2 ^ 52) * pow2 ey == pow2 ky).
      { rewrite <- (pow2_int 52) by lia. rewrite <- pow2_add. rewrite Eey.
        replace (52 + (ky - 52))%Z with ky by lia. reflexivity. }
      nra. }
    (* the rounded x is at most 2^(kx+1) *)
    assert (Xhi : inject_Z (round_half_even (x / pow2 ex)) * pow2 ex <= pow2 (kx + 1)).
    { destruct (Z.le_gt_cases ex (kx + 1)) as [Hs | Hs].
      - set (j := (kx + 1 - ex)%Z).
        assert (Ej : inject_Z (2 ^ j) * pow2 ex == pow2 (kx + 1)).
        { rewrite <- (pow2_int j) by (unfold j; lia). rewrite <- pow2_add.
          unfold j. replace (kx + 1 - ex + ex)%Z with (kx + 1)%Z by lia. reflexivity. }
        assert (H : (round_half_even (x / pow2 ex) <= 2 ^ j)%Z).
        { rewrite <- (round_half_even_int (2 ^ j)). apply round_half_even_mono.
          apply Qle_shift_div_r; [exact Pex |]. lra. }
        rewrite Zle_Qle in H. nra.
      - assert (H : (round_half_even (x / pow2 ex) <= 0)%Z).
        { assert (Hh : x / pow2 ex <= 1 # 2).
          { apply Qle_shift_div_r; [exact Pex |].
            pose proof (pow2_le (kx + 1) (ex - 1) ltac:(lia)) as Hp.
            assert (S1 : pow2 ex == 2 * pow2 (ex - 1)).
            { replace ex with (ex - 1 + 1)%Z at 1 by lia. rewrite pow2_add.
              change (pow2 1) with 2. ring. }
            lra. }
          apply round_half_even_mono in Hh.
          assert (Eh : round_half_even (1 # 2) = 0%Z) by reflexivity.
          lia. }
        rewrite Zle_Qle in H. change (inject_Z 0) with 0 in H.
        pose proof (pow2_pos (kx + 1)). nra. }
    pose proof (pow2_le (kx + 1) ky ltac:(lia)). lra.
Qed.

Lemma nearest_double_zero (q : Q) : q == 0 -> nearest_double q = 0.
Proof.
  intros H. destruct q as [n d]. unfold Qeq in H. cbn in H.
  assert (n = 0%Z) by lia. subst n. reflexivity.
Qed.

Lemma nearest_double_negative (q : Q) : q < 0 -> nearest_double q == - nearest_double (- q).
Proof.
  intros H. destruct q as [n d].
  assert (Hn : (n < 0)%Z) by (unfold Qlt in H; cbn in H; lia).
  destruct n as [| p | p]; try lia.
  change (- (Z.neg p # d)) with (Z.pos p # d).
  unfold nearest_double. cbn [Qnum Qabs Z.abs Qden].
  assert (B1 : Qle_bool 0 (Z.neg p # d) = false) by reflexivity.
  assert (B2 : Qle_bool 0 (Z.pos p # d) = true) by reflexivity.
  rewrite B1, B2. reflexivity.
Qed.

(** Rounding to the nearest double keeps the order. *)
Lemma nearest_double_mono (x y : Q) : x <= y -> nearest_double x <= nearest_double y.
Proof.
  intros Hxy.
  destruct (Q_dec x 0) as [[Hx | Hx] | Hx]; destruct (Q_dec y 0) as [[Hy | Hy] | Hy];
    try (exfalso; lra).
  - rewrite (nearest_double_negative x Hx), (nearest_double_negative y Hy).
    apply Qopp_le_compat. apply nearest_double_mono_pos; lra.
  - rewrite (nearest_double_negative x Hx).
    pose proof (nearest_double_nonneg (- x) ltac:(lra)).
    pose proof (nearest_double_nonneg y Hy). lra.
  - rewrite (nearest_double_negative x Hx), (nearest_double_zero y Hy).
    pose proof (nearest_double_nonneg (- x) ltac:(lra)). lra.
  - apply nearest_double_mono_pos; assumption.
  - rewrite (nearest_double_zero x Hx). apply nearest_double_nonneg, Hy.
  - rewrite (nearest_double_zero x Hx), (nearest_double_zero y Hy). lra.
Qed.

End DoubleSpec.

(** ** GaiaService and the catalog build: distances and colours *)

Module StarSpec.
Import Cache CacheSpec Examples MoreExamples.
Local Open Scope Q_scope.

Ltac split_bool H :=
  first [ apply Qlt_bool_true in H | apply Qlt_bool_false in H
        | apply Qle_bool_iff in H
        | apply not_true_iff_false in H; rewrite Qle_bool_iff in H; apply Qnot_le_lt in H ].

Ltac case_bools :=
  repeat match goal with
         | |- context [if Qlt_bool ?a ?b then _ else _] =>
             let H := fresh "B" in destruct (Qlt_bool a b) eqn:H; split_bool H
         | _ : context [if Qlt_bool ?a ?b then _ else _] |- _ =>
             let H := fresh "B" in destruct (Qlt_bool a b) eqn:H; split_bool H
         end.

Lemma Qle_bool_false (x y : Q) : Qle_bool x y = false -> y < x.
Proof.
  intros H. apply Qnot_le_lt. intros Hle. apply Qle_bool_iff in Hle. congruence.
Qed.

Lemma inverse_antitone (a b : Q) : 0 < a -> a <= b -> 1000 / b <= 1000 / a.
Proof.
  intros Ha Hab.
  assert (Hb : 0 < b) by lra.
  apply Qle_shift_div_r; [exact Hb |].
  assert (Hd : 0 < 1000 / a) by (apply Qlt_shift_div_l; lra).
  assert (E : 1000 / a * a == 1000) by (field; lra).
  nra.
Qed.

Lemma inverse_between (p lo hi : Q) :
  0 < lo -> lo <= p -> p <= hi -> 1000 / hi <= 1000 / p /\ 1000 / p <= 1000 / lo.
Proof.
  intros Hlo H1 H2. split; apply inverse_antitone; lra.
Qed.

Lemma distance_bounds p :
  1 # 10 <= Gaia._parallax_to_distance p /\ Gaia._parallax_to_distance p <= 100000.
Proof.
  destruct p as [p |]; unfold Gaia._parallax_to_distance; [| lra].
  destruct (Qle_bool p 0); [lra |]. case_bools; lra.
Qed.

(** X10: The service's distance is always between 0.1 and 100000 parsecs; it is
    1000 / parallax whenever that lies in the range, that is for a parallax
    between 0.01 and 10000 mas; and a larger positive parallax never gives a
    larger distance. *)
Theorem parallax_to_distance_range :
  (forall p, 1 # 10 <= Gaia._parallax_to_distance p /\
             Gaia._parallax_to_distance p <= 100000) /\
  (forall q, 1 # 100 <= q -> q <= 10000 ->
             Gaia._parallax_to_distance (Some q) == 1000 / q) /\
  (forall q1 q2, 0 < q1 -> q1 <= q2 ->
             Gaia._parallax_to_distance (Some q2) <= Gaia._parallax_to_distance (Some q1)).
Proof.
  split; [| split].
  - apply distance_bounds.
  - intros q Hlo Hhi. unfold Gaia._parallax_to_distance.
    destruct (Qle_bool q 0) eqn:H0; [apply Qle_bool_iff in H0; lra |].
    destruct (inverse_between q (1 # 100) 10000 ltac:(lra) Hlo Hhi) as [Ha Hb].
    assert (E1 : 1000 / 10000 == 1 # 10) by reflexivity.
    assert (E2 : 1000 / (1 # 100) == 100000) by reflexivity.
    rewrite E1 in Ha. rewrite E2 in Hb.
    destruct (Qlt_bool 100000 (1000 / q)) eqn:H1;
      destruct (Qlt_bool (1 # 10) _) eqn:H2; split_bool H1; split_bool H2; lra.
  - intros q1 q2 H1 H12. unfold Gaia._parallax_to_distance.
    destruct (Qle_bool q1 0) eqn:Ha; [apply Qle_bool_iff in Ha; lra |].
    destruct (Qle_bool q2 0) eqn:Hb; [apply Qle_bool_iff in Hb; lra |].
    pose proof (inverse_antitone q1 q2 H1 H12) as Hd.
    case_bools; lra.
Qed.

(** X11: The build script and the service turn a parallax into a distance
    differently outside the service's range: they agree for a parallax
    between 0.01 and 10000 mas; for a parallax that is zero or negative the
    script stores 1000000 pc where the service reports 1000 pc. *)
Theorem download_distance_vs_service :
  (forall p, 1 # 100 <= p -> p <= 10000 ->
             Download.distance_pc p == Gaia._parallax_to_distance (Some p)) /\
  (forall p, p <= 0 ->
             Download.distance_pc p == 1000000 /\
             Gaia._parallax_to_distance (Some p) == 1000).
Proof.
  split.
  - intros p Hlo Hhi. unfold Download.distance_pc, Download.clip_lower.
    destruct (Qlt_bool p (1 # 1000)) eqn:Hc; split_bool Hc; [lra |].
    unfold Gaia._parallax_to_distance.
    destruct (Qle_bool p 0) eqn:H0; [apply Qle_bool_iff in H0; lra |].
    destruct (inverse_between p (1 # 100) 10000 ltac:(lra) Hlo Hhi) as [Ha Hb].
    assert (E1 : 1000 / 10000 == 1 # 10) by reflexivity.
    assert (E2 : 1000 / (1 # 100) == 100000) by reflexivity.
    rewrite E1 in Ha. rewrite E2 in Hb.
    case_bools; lra.
  - intros p Hp. split.
    + unfold Download.distance_pc, Download.clip_lower.
      destruct (Qlt_bool p (1 # 1000)) eqn:Hc; split_bool Hc; [reflexivity | lra].
    + unfold Gaia._parallax_to_distance.
      apply Qle_bool_iff in Hp. rewrite Hp. reflexivity.
Qed.

(** X12: A row the download selects with a positive [max_distance_pc] is
    stored with a distance that is not negative and not above
    [max_distance_pc], and has a magnitude below [mag_limit]: the bound on
    the parallax in the WHERE clause carries over to the distance computed
    from the clipped parallax, both divisions being rounded to doubles.
    The distance can be [max_distance_pc] itself. *)
Theorem download_distance_bound (mag_limit d : Q) (rw : Gaia.row) (p : Q) :
  0 < d -> PyFloat.is_double d -> PyFloat.is_double p ->
  Gaia.parallax rw = Some p ->
  Download.where_clause mag_limit (Some d) rw = true ->
  0 <= Download.stored_distance_pc p /\ Download.stored_distance_pc p <= d /\
  Gaia.phot_g_mean_mag rw < mag_limit.
Proof.
  intros Hd Dd Dp Hp Hw. unfold Download.where_clause in Hw. rewrite Hp in Hw.
  apply andb_true_iff in Hw. destruct Hw as [Hm Hw]. split_bool Hm.
  destruct (Qeq_bool d 0) eqn:Hz; [apply Qeq_bool_iff in Hz; lra |].
  split_bool Hw. unfold Download.min_parallax in Hw.
  unfold Download.stored_distance_pc.
  set (c := PyFloat.nearest_double (1 # 1000)).
  assert (Dc : PyFloat.is_double c) by (vm_compute; reflexivity).
  assert (Hc : 0 < c) by (vm_compute; reflexivity).
  set (q := Download.clip_lower c p).
  assert (Hq : p <= q /\ PyFloat.is_double q /\ 0 < q).
  { unfold q, Download.clip_lower. destruct (Qlt_bool p c) eqn:B; split_bool B.
    - split; [lra |]. split; [exact Dc | exact Hc].
    - split; [lra |]. split; [exact Dp | lra]. }
  destruct Hq as (Hpq & Dq & Hq).
  assert (Hx : 1000 / d < q).
  { apply Qnot_le_lt. intros Hle. apply DoubleSpec.nearest_double_mono in Hle.
    unfold PyFloat.is_double in Dq. rewrite Dq in Hle. lra. }
  assert (Hxd : 1000 / d * d == 1000) by (field; lra).
  assert (Hy : 1000 / q <= d).
  { apply Qle_shift_div_r; [exact Hq |]. nra. }
  split; [| split; [| exact Hm]].
  - apply DoubleSpec.nearest_double_nonneg. apply Qlt_shift_div_l; lra.
  - apply DoubleSpec.nearest_double_mono in Hy.
    unfold PyFloat.is_double in Dd. rewrite Dd in Hy. exact Hy.
Qed.


Section Engine.
Variable SQRT : Q -> Q.
Variables np_radians np_degrees np_cos np_sin np_sqrt np_arcsin np_log10 : Q -> Q.
Variable np_arctan2 : Q -> Q -> Q.
Variable CONTAINS : Q -> Q -> Q -> Q -> Q -> bool.

Let sync := Gaia._query_cone_sync np_radians np_cos np_sin CONTAINS.
Let cone := Gaia.query_cone_async np_radians np_cos np_sin CONTAINS.
Let frustum := Gaia.query_frustum_async np_radians np_degrees np_cos np_sin
                 np_sqrt np_arcsin np_log10 np_arctan2 CONTAINS.
Let direction := Gaia._cartesian_to_equatorial np_degrees np_sqrt np_arcsin np_arctan2.

Let cone_star := ConeSelection.cone_star CONTAINS.

Lemma sync_selection answer ra dec radius max_stars min_magnitude stars :
  sync answer ra dec radius max_stars min_magnitude = Returns stars ->
  Forall (cone_star ra dec radius min_magnitude) stars.
Proof.
  unfold sync, Gaia._query_cone_sync, Gaia.adql_cone.
  destruct answer as [table |]; [| discriminate].
  destruct (max_stars <? 0)%Z; [discriminate |].
  intros [= <-]. apply Forall_forall. intros p Hp.
  apply list_elem_of_In, in_map_iff in Hp. destruct Hp as (rw & <- & Hin).
  apply list_elem_of_In, elem_of_take in Hin. destruct Hin as (i & Hin & _).
  apply list_elem_of_lookup_2 in Hin. rewrite merge_sort_Permutation in Hin.
  apply list_elem_of_In, filter_In in Hin. destruct Hin as [_ Hsel].
  apply andb_true_iff in Hsel. destruct Hsel as [Hc Hm].
  unfold cone_star, ConeSelection.cone_star, Gaia.star_of_row.
  cbn [Star.magnitude Star.ra Star.dec Star.distance_pc].
  split; [apply Qlt_bool_true, Hm |]. split; [exact Hc |]. apply distance_bounds.
Qed.

Lemma cone_selection_holds gaia ra dec radius max_stars min_magnitude stars :
  cone gaia ra dec radius max_stars min_magnitude = Returns stars ->
  Forall (cone_star ra dec radius min_magnitude) stars.
Proof.
  intros H. unfold cone, Gaia.query_cone_async in H.
  apply QuerySpec.retry_3_returns in H.
  destruct H as [H | [H | H]]; exact (sync_selection _ _ _ _ _ _ _ H).
Qed.

(** X14: Every star of a cone result is brighter than the requested limit, lies
    in the requested circle, and is placed between 0.1 and 100000 parsecs
    away. *)
Theorem cone_selection gaia ra dec radius max_stars min_magnitude stars :
  cone gaia ra dec radius max_stars min_magnitude = Returns stars ->
  Forall (fun p => Star.magnitude p < min_magnitude /\
                   CONTAINS (Star.ra p) (Star.dec p) ra dec radius = true /\
                   1 # 10 <= Star.distance_pc p /\ Star.distance_pc p <= 100000) stars.
Proof. apply cone_selection_holds. Qed.

(** X15: The cone query asks the archive at most three times: its outcome
    depends on the first three answers only; it is the result of the first
    attempt that returns; and it raises when all three attempts fail. *)
Theorem cone_retries_three_times ra dec radius max_stars min_magnitude :
  (forall gaia gaia',
      gaia 0%nat = gaia' 0%nat -> gaia 1%nat = gaia' 1%nat -> gaia 2%nat = gaia' 2%nat ->
      cone gaia ra dec radius max_stars min_magnitude =
      cone gaia' ra dec radius max_stars min_magnitude) /\
  (forall gaia,
      gaia 0%nat = None -> gaia 1%nat = None -> gaia 2%nat = None ->
      cone gaia ra dec radius max_stars min_magnitude = Raises UpstreamError) /\
  (forall gaia stars,
      sync (gaia 0%nat) ra dec radius max_stars min_magnitude = Returns stars ->
      cone gaia ra dec radius max_stars min_magnitude = Returns stars) /\
  (forall gaia stars,
      gaia 0%nat = None ->
      sync (gaia 1%nat) ra dec radius max_stars min_magnitude = Returns stars ->
      cone gaia ra dec radius max_stars min_magnitude = Returns stars) /\
  (forall gaia stars,
      gaia 0%nat = None -> gaia 1%nat = None ->
      sync (gaia 2%nat) ra dec radius max_stars min_magnitude = Returns stars ->
      cone gaia ra dec radius max_stars min_magnitude = Returns stars).
Proof.
  unfold cone, sync, Gaia.query_cone_async. cbn [Gaia.retry].
  split; [| split; [| split; [| split]]].
  - intros gaia gaia' -> -> ->. reflexivity.
  - intros gaia -> -> ->. reflexivity.
  - intros gaia stars ->. reflexivity.
  - intros gaia stars -> ->. reflexivity.
  - intros gaia stars -> -> ->. reflexivity.
Qed.

(** X16: The frustum query is a cone query around the view direction: every
    star it returns lies within 0.75 fov degrees of that direction and is
    brighter than magnitude 20, and the camera position plays no part in
    the result. *)
Theorem frustum_is_a_cone gaia pos pos' dir fov_deg max_distance max_stars :
  frustum gaia pos dir fov_deg max_distance max_stars =
  frustum gaia pos' dir fov_deg max_distance max_stars /\
  forall stars,
    frustum gaia pos dir fov_deg max_distance max_stars = Returns stars ->
    let '(dx, dy, dz) := dir in
    let centre := direction dx dy dz in
    Forall (fun p => Star.magnitude p < 20 /\
                     CONTAINS (Star.ra p) (Star.dec p) (fst centre) (snd centre)
                              (fov_deg * (75 # 100)) = true) stars.
Proof.
  split; [reflexivity |].
  intros stars. unfold frustum, Gaia.query_frustum_async, direction.
  destruct dir as [[dx dy] dz].
  destruct (Gaia._cartesian_to_equatorial _ _ _ _ dx dy dz) as [ra dec]. cbn [fst snd].
  intros H. apply cone_selection_holds in H.
  eapply Forall_impl; [exact H |].
  intros p (Hm & Hc & _). split; [| exact Hc].
  revert Hm. case_bools; lra.
Qed.

Let nearby := Catalog._query_nearby_stars_sync SQRT.

(** X17: The nearby-star query finds nothing: whatever the catalog holds and
    whatever camera, distance, count and magnitude it is asked for, it
    returns the empty list.  SQLite does not accept a HAVING clause in a
    statement without GROUP BY or aggregate, [conn.execute] raises, and the
    function answers every exception with []. *)
Theorem nearby_query_finds_nothing db cx cy cz max_distance max_stars mag_limit :
  Catalog.sqlite_prepare Catalog.nearby_statement = Raises OperationalError /\
  nearby db cx cy cz max_distance max_stars mag_limit = [] /\
  Catalog.query_nearby_stars_async SQRT db cx cy cz max_distance max_stars mag_limit = [] /\
  Api.region_stars SQRT db = [].
Proof.
  assert (H : forall a b c d n m, Catalog._query_nearby_stars_sync SQRT db a b c d n m = []).
  { intros. unfold Catalog._query_nearby_stars_sync. destruct db; reflexivity. }
  split; [reflexivity |]. split; [apply H |]. split; apply H.
Qed.

End Engine.

(** *** The bright-star query of the local catalog *)

Global Instance bright_le_total : Total BrightCatalog.bright_le.
Proof.
  intros a b. unfold BrightCatalog.bright_le, BrightCatalog.bright_leb.
  destruct (Qlt_le_dec (Catalog.magnitude b) (Catalog.magnitude a)) as [H | H].
  - right. apply Qle_bool_iff, Qlt_le_weak, H.
  - left. apply Qle_bool_iff, H.
Qed.

(** X19: The bright-star query returns every row brighter than the limit, each
    once, in magnitude order, and no others: it has no cap.  Without a
    database the result is empty. *)
Theorem bright_stars_all_sorted stars (mag_limit : Q) :
  let result := BrightCatalog._query_all_bright_stars_sync (Catalog.Table stars) mag_limit in
  Sorted Gaia.by_magnitude result /\
  Forall (fun p => Star.magnitude p < mag_limit) result /\
  result ≡ₚ map Catalog.star_of_row
              (List.filter (fun rw => Qlt_bool (Catalog.magnitude rw) mag_limit) stars) /\
  BrightCatalog._query_all_bright_stars_sync Catalog.NotFound mag_limit = [].
Proof.
  cbv zeta. unfold BrightCatalog._query_all_bright_stars_sync, BrightCatalog.select_bright.
  split; [| split; [| split; [| reflexivity]]].
  - apply (QuerySpec.Sorted_map _ BrightCatalog.bright_le).
    + intros a b Hab. unfold Gaia.by_magnitude, Catalog.star_of_row.
      cbn [Star.magnitude]. apply Qle_bool_iff, Hab.
    + apply Sorted_merge_sort. apply _.
  - apply Forall_forall. intros p Hp.
    apply list_elem_of_In, in_map_iff in Hp. destruct Hp as (rw & <- & Hin).
    apply list_elem_of_In in Hin. rewrite merge_sort_Permutation in Hin.
    apply list_elem_of_In, filter_In in Hin. destruct Hin as [_ Hm].
    apply Qlt_bool_true, Hm.
  - rewrite merge_sort_Permutation. reflexivity.
Qed.

(** X20: Zero is reported as missing: a star of the local catalog never carries
    a parallax, radial velocity or temperature equal to 0 -- a stored 0 comes
    back as None -- while its colour index is always present and a missing
    or zero proper motion is reported as 0. *)
Theorem catalog_star_zero_is_missing (rw : Catalog.row) :
  let p := Catalog.star_of_row rw in
  (forall q, Star.parallax p = Some q -> ~ q == 0) /\
  (forall q, Star.radial_velocity p = Some q -> ~ q == 0) /\
  (forall q, Star.temperature p = Some q -> ~ q == 0) /\
  (forall q, Catalog.radial_velocity rw = Some q -> q == 0 -> Star.radial_velocity p = None) /\
  Star.color_bp_rp p <> None /\
  (Catalog.pmra rw = None -> Star.pm_ra p = 0).
Proof.
  cbv zeta. unfold Catalog.star_of_row.
  cbn [Star.parallax Star.radial_velocity Star.temperature Star.color_bp_rp Star.pm_ra].
  assert (H : forall v q, Catalog.if_true v = Some q -> ~ q == 0).
  { intros [v |] q; unfold Catalog.if_true; [| discriminate].
    destruct (Qeq_bool v 0) eqn:E; [discriminate |].
    intros [= <-] Hz. apply Qeq_bool_iff in Hz. congruence. }
  repeat split; try (intros q; apply H).
  - intros q Hq Hz. rewrite Hq. unfold Catalog.if_true.
    apply Qeq_bool_iff in Hz. rewrite Hz. reflexivity.
  - discriminate.
  - intros ->. reflexivity.
Qed.

Lemma download_distance_bound_witness :
  0 < 17 /\ PyFloat.is_double 17 /\ PyFloat.is_double parallax_17 /\
  Gaia.parallax at_17_parsecs = Some parallax_17 /\
  Download.where_clause 8 (Some 17) at_17_parsecs = true /\
  Download.stored_distance_pc parallax_17 <= 17 /\
  Download.stored_distance_pc parallax_17 == 17.
Proof.
  assert (H1 : 0 < 17) by reflexivity.
  assert (H2 : PyFloat.is_double 17) by (vm_compute; reflexivity).
  assert (H3 : PyFloat.is_double parallax_17) by (vm_compute; reflexivity).
  assert (H4 : Download.where_clause 8 (Some 17) at_17_parsecs = true)
    by (vm_compute; reflexivity).
  split; [exact H1 |]. split; [exact H2 |]. split; [exact H3 |].
  split; [reflexivity |]. split; [exact H4 |].
  destruct (download_distance_bound 8 17 at_17_parsecs parallax_17 H1 H2 H3 eq_refl H4)
    as (_ & Hb & _).
  split; [exact Hb |]. vm_compute. reflexivity.
Defined.

Lemma cone_selection_witness :
  exists stars,
    demo_cone 10 = Returns stars /\
    Forall (fun p => Star.magnitude p < 20 /\
                     1 # 10 <= Star.distance_pc p /\ Star.distance_pc p <= 100000) stars.
Proof.
  destruct (demo_cone 10) as [stars | e] eqn:E; [| vm_compute in E; discriminate E].
  exists stars. split; [reflexivity |].
  pose proof (cone_selection (fun v => v) (fun v => v) (fun v => v)
                (fun _ _ _ _ _ => true) demo_archive 0 0 5 10 20 stars E) as H.
  eapply Forall_impl; [exact H |]. intros p (Hm & _ & Hd). auto.
Defined.

End StarSpec.

(** ** CoordinateMath: norm, range and round trip *)

Module EquatorialSpec.
Import Coord Equatorial.
Local Open Scope R_scope.

Lemma sin2_cos2_mul (a : R) : sin a * sin a + cos a * cos a = 1.
Proof. pose proof (sin2_cos2 a) as H. unfold Rsqr in H. exact H. Qed.

Lemma sum_of_squares (a b d : R) :
  (d * cos b * cos a) ^ 2 + (d * cos b * sin a) ^ 2 + (d * sin b) ^ 2 = d ^ 2.
Proof.
  transitivity (d ^ 2 * (cos b * cos b * (sin a * sin a + cos a * cos a) + sin b * sin b)).
  - ring.
  - rewrite sin2_cos2_mul. rewrite Rmult_1_r.
    rewrite (Rplus_comm (cos b * cos b)), sin2_cos2_mul. ring.
Qed.

Lemma sqrt_square_abs (d : R) : sqrt (d ^ 2) = Rabs d.
Proof.
  replace (d ^ 2) with (Rsqr d) by (unfold Rsqr; ring). apply sqrt_Rsqr_abs.
Qed.

(** X21: Both conversions put the star at its distance: the point they return
    lies at |d| from the origin, in the service's convention and in the
    build script's. *)
Theorem projection_preserves_distance (ra dec d : R) :
  norm (service_xyz ra dec d) = Rabs d /\
  norm (catalog_xyz ra dec d) = Rabs d.
Proof.
  unfold norm, service_xyz, catalog_xyz, Coord._equatorial_to_cartesian, download_xyz.
  split.
  - rewrite sum_of_squares. apply sqrt_square_abs.
  - rewrite <- sqrt_square_abs. f_equal.
    rewrite <- (sum_of_squares (radians ra) (radians dec) d). ring.
Qed.

(** *** arctan2 *)






Lemma degrees_radians (deg : R) : degrees (radians deg) = deg.
Proof. unfold degrees, radians. field. apply PI_neq0. Qed.

Lemma degrees_scale (a : R) : degrees a = a * 180 / PI.
Proof. unfold degrees. field. apply PI_neq0. Qed.






(** *** The round trip *)

Lemma tan_shift (a : R) : cos a <> 0 -> tan (a + PI) = tan a.
Proof.
  intros Hc. unfold tan. rewrite neg_sin, neg_cos. field. exact Hc.
Qed.

Lemma polar_quotient (c a : R) : 0 < c -> cos a <> 0 -> c * sin a / (c * cos a) = tan a.
Proof. intros Hc Ha. unfold tan. field. split; lra. Qed.

(** The angle of the point at angle [a] on a circle of radius [c]. *)
Lemma arctan2_polar (c a : R) :
  0 < c -> - PI < a <= PI -> arctan2 (c * sin a) (c * cos a) = a.
Proof.
  intros Hc [Hlo Hhi]. pose proof PI_RGT_0 as Hpi. unfold arctan2.
  destruct (Rlt_le_dec a (- (PI / 2))) as [H1 | H1].
  - (* third quadrant *)
    assert (Hcos : cos a < 0).
    { rewrite <- cos_neg. apply cos_lt_0; lra. }
    assert (Hsin : sin a < 0) by (apply sin_lt_0_var; lra).
    destruct (Rlt_dec 0 (c * cos a)) as [H | _]; [nra |].
    destruct (Rlt_dec (c * cos a) 0) as [_ | H]; [| nra].
    destruct (Rle_dec 0 (c * sin a)) as [H | _]; [nra |].
    rewrite polar_quotient by lra. rewrite <- tan_shift by lra.
    rewrite atan_tan by lra. lra.
  - destruct (Rle_lt_or_eq_dec _ _ H1) as [H1' | H1'].
    + destruct (Rlt_le_dec a (PI / 2)) as [H2 | H2].
      * (* right half plane *)
        assert (Hcos : 0 < cos a) by (apply cos_gt_0; lra).
        destruct (Rlt_dec 0 (c * cos a)) as [_ | H]; [| nra].
        rewrite polar_quotient by lra. apply atan_tan. lra.
      * destruct (Rle_lt_or_eq_dec _ _ H2) as [H2' | H2'].
        -- (* second quadrant *)
           assert (Hcos : cos a < 0) by (apply cos_lt_0; lra).
           assert (Hsin : 0 <= sin a) by (apply sin_ge_0; lra).
           destruct (Rlt_dec 0 (c * cos a)) as [H | _]; [nra |].
           destruct (Rlt_dec (c * cos a) 0) as [_ | H]; [| nra].
           destruct (Rle_dec 0 (c * sin a)) as [_ | H]; [| nra].
           rewrite polar_quotient by lra.
           replace a with ((a - PI) + PI) at 1 by ring.
           rewrite tan_shift.
           ++ rewrite atan_tan by lra. ring.
           ++ intros E. replace a with ((a - PI) + PI) in Hcos by ring.
              rewrite neg_cos in Hcos. lra.
        -- (* a = pi/2 *)
           subst a. rewrite cos_PI2, sin_PI2, Rmult_0_r, Rmult_1_r.
           destruct (Rlt_dec 0 0) as [H | _]; [lra |].
           destruct (Rlt_dec 0 c) as [_ | H]; [reflexivity | lra].
    + (* a = -pi/2 *)
      subst a. rewrite cos_neg, sin_neg, cos_PI2, sin_PI2, Rmult_0_r.
      destruct (Rlt_dec 0 0) as [H | _]; [lra |].
      destruct (Rlt_dec 0 (c * - (1))) as [H | _]; [lra |].
      destruct (Rlt_dec (c * - (1)) 0) as [_ | H]; [reflexivity | lra].
Qed.

Lemma sin_cos_turn (a : R) : sin (a - 2 * PI) = sin a /\ cos (a - 2 * PI) = cos a.
Proof.
  split.
  - rewrite <- (sin_period (a - 2 * PI) 1). f_equal. cbn [INR]. ring.
  - rewrite <- (cos_period (a - 2 * PI) 1). f_equal. cbn [INR]. ring.
Qed.

(** X23: In exact arithmetic the two conversions are inverse to each other away
    from the poles: for a positive distance, a right ascension in [0, 360)
    and a declination strictly between -90 and 90, converting to Cartesian
    coordinates and back returns the right ascension and declination. *)
Theorem equatorial_round_trip (ra dec d : R) :
  0 < d -> 0 <= ra < 360 -> -90 < dec < 90 ->
  let '(x, y, z) := service_xyz ra dec d in
  _cartesian_to_equatorial x y z = (ra, dec).
Proof.
  intros Hd [Hra0 Hra1] [Hdec0 Hdec1]. pose proof PI_RGT_0 as Hpi.
  unfold service_xyz, Coord._equatorial_to_cartesian.
  set (a := radians ra). set (b := radians dec).
  assert (Ha : 0 <= a < 2 * PI).
  { unfold a, radians. split; [nra |].
    replace (2 * PI) with (360 * (PI / 180)) by field. nra. }
  assert (Hb : - (PI / 2) < b < PI / 2).
  { unfold b, radians.
    replace (- (PI / 2)) with (-90 * (PI / 180)) by field.
    replace (PI / 2) with (90 * (PI / 180)) by field. split; nra. }
  assert (Hc : 0 < d * cos b).
  { apply Rmult_lt_0_compat; [exact Hd | apply cos_gt_0; lra]. }
  unfold _cartesian_to_equatorial.
  rewrite sum_of_squares, sqrt_square_abs, Rabs_pos_eq by lra.
  destruct (Req_dec_T d 0) as [E | _]; [lra |].
  f_equal.
  - destruct (Rle_lt_dec a PI) as [Hle | Hgt].
    + rewrite arctan2_polar by lra.
      unfold a. rewrite degrees_radians.
      destruct (Rlt_dec ra 0); [lra | reflexivity].
    + destruct (sin_cos_turn a) as [Es Ec]. rewrite <- Es, <- Ec.
      rewrite arctan2_polar by lra.
      assert (Ed : degrees (a - 2 * PI) = ra - 360).
      { unfold a, degrees, radians. field. apply PI_neq0. }
      rewrite Ed. destruct (Rlt_dec (ra - 360) 0); lra.
  - replace (d * sin b / d) with (sin b) by (field; lra).
    rewrite asin_sin by lra. apply degrees_radians.
Qed.

Lemma equatorial_round_trip_witness :
  0 < 10 /\ 0 <= 270 < 360 /\ -90 < -45 < 90 /\
  (let '(x, y, z) := service_xyz 270 (-45) 10 in _cartesian_to_equatorial x y z)
    = (270, -45).
Proof.
  assert (H1 : 0 < 10) by lra.
  assert (H2 : 0 <= 270 < 360) by lra.
  assert (H3 : -90 < -45 < 90) by lra.
  split; [exact H1 |]. split; [exact H2 |]. split; [exact H3 |].
  exact (equatorial_round_trip 270 (-45) 10 H1 H2 H3).
Defined.

End EquatorialSpec.

(** ** Routes: what the handlers answer *)

Module StarsApiSpec.
Import PyFloat Key Cache CacheSpec CacheAdmin CacheAdminSpec Api StarsApi Examples MoreExamples.
Local Open Scope Q_scope.

Lemma gaia_service_undefined :
  existsb (String.eqb "gaia_service") module_globals = false.
Proof. reflexivity. Qed.

Section Handlers.
Variable SQRT : Q -> Q.
Variables np_radians np_degrees np_cos np_sin np_sqrt np_arcsin np_log10 : Q -> Q.
Variable np_arctan2 : Q -> Q -> Q.
Variable CONTAINS : Q -> Q -> Q -> Q -> Q -> bool.
Variable json_dumps : list Star.t -> outcome string.
Variable json_loads : string -> outcome (list Star.t).

Let region := query_region SQRT json_dumps json_loads.
Let bright := get_bright_catalog json_dumps json_loads.
Let cone := query_cone np_radians np_cos np_sin CONTAINS json_dumps json_loads.
Let frustum := query_frustum np_radians np_degrees np_cos np_sin np_sqrt np_arcsin
                 np_log10 np_arctan2 CONTAINS json_dumps json_loads.
Let galactic_center := query_galactic_center np_radians np_cos np_sin CONTAINS
                         json_dumps json_loads.

(** X24: The cone and frustum handlers never reach the archive: the name
    [gaia_service] is not defined in the module, so a request that the cache
    does not answer with a non-empty list ends in HTTP 500; the handlers
    answer from the cache or not at all, and never write to it. *)
Theorem gaia_routes_answer_from_cache_only gaia o_get o_set clk
    (p : ConeQueryParams) (f : FrustumQueryParams) s :
  let answer key :=
    (match cache_hit (fst (get json_loads o_get (get_time clk) key s)) with
     | Some found => Returns {| count := List.length found; stars := found;
                                cached := true; query_time_ms := None |}
     | None => Raises HTTPException
     end,
     snd (get json_loads o_get (get_time clk) key s)) in
  cone gaia o_get o_set clk p s = answer (cone_cache_key p) /\
  frustum gaia o_get o_set clk f s = answer (frustum_cache_key f).
Proof.
  cbv zeta. split.
  - unfold cone, query_cone, or_http_500, hbind, of_service.
    destruct (get json_loads o_get (get_time clk) (cone_cache_key p) s)
      as [[[[| st rest] |] | e] s']; cbn [fst snd cache_hit]; try reflexivity.
  - unfold frustum, query_frustum, or_http_500, hbind, of_service.
    destruct (get json_loads o_get (get_time clk) (frustum_cache_key f) s)
      as [[[[| st rest] |] | e] s']; cbn [fst snd cache_hit]; try reflexivity.
Qed.

(** X25: /galactic-center accepts a radius up to 20 degrees, the request model
    it builds only up to 10: a validated request with a radius above 10
    raises a validation error before anything is looked up, and one with a
    radius up to 10 is the cone request at (266.4, -29.0) with
    min_magnitude 18. *)
Theorem galactic_center_radius_gap gaia o_get o_set clk (radius : pyfloat)
    (max_stars : Z) s :
  galactic_center_valid radius max_stars = true ->
  (10 < float_value radius ->
   galactic_center gaia o_get o_set clk radius max_stars s =
     (inr (ValidationError "ConeQueryParams"), s)) /\
  (float_value radius <= 10 ->
   galactic_center gaia o_get o_set clk radius max_stars s =
     of_service
       (cone gaia o_get o_set clk
          {| cone_ra := mk false 2664 (-1); cone_dec := mk true 29 0;
             cone_radius := radius; cone_max_stars := max_stars;
             cone_min_magnitude := mk false 18 0 |}) s).
Proof.
  intros Hv. unfold galactic_center_valid in Hv.
  repeat (apply andb_true_iff in Hv; destruct Hv as [Hv ?]).
  assert (Hfixed :
    Qle_bool 0 (float_value (mk false 2664 (-1))) &&
    Qle_bool (float_value (mk false 2664 (-1))) 360 &&
    Qle_bool (-90) (float_value (mk true 29 0)) &&
    Qle_bool (float_value (mk true 29 0)) 90 = true) by (vm_compute; reflexivity).
  assert (Hmag :
    Qle_bool 0 (float_value (mk false 18 0)) &&
    Qle_bool (float_value (mk false 18 0)) 25 = true) by (vm_compute; reflexivity).
  apply andb_true_iff in Hmag. destruct Hmag as [Hm1 Hm2].
  unfold galactic_center, query_galactic_center, ConeQueryParams_init, cone_valid, hbind.
  cbn [cone_ra cone_dec cone_radius cone_max_stars cone_min_magnitude].
  rewrite Hfixed, Hm1, Hm2. cbn [andb].
  split.
  - intros Hr. assert (E : Qle_bool (float_value radius) 10 = false).
    { apply not_true_iff_false. intros Hle. apply Qle_bool_iff in Hle. lra. }
    rewrite E, andb_false_r. reflexivity.
  - intros Hr. apply Qle_bool_iff in Hr. rewrite Hr.
    assert (E0 : Qlt_bool 0 (float_value radius) = true).
    { apply Qlt_bool_true. apply Qle_bool_iff in Hv. lra. }
    assert (E1 : (1 <=? max_stars)%Z = true) by lia.
    rewrite E0, E1. cbn [andb].
    match goal with H : (_ <=? 100000)%Z = true |- _ => rewrite H end.
    reflexivity.
Qed.

(** The two handlers on the local catalog, whatever the cache holds. *)
Lemma region_answers db o_get o_set clk ra dec radius limit s :
  let key := region_cache_key ra dec radius limit in
  let looked := get json_loads o_get (get_time clk) key s in
  region db o_get o_set clk ra dec radius limit s =
    match cache_hit (fst looked) with
    | Some found =>
        (Returns {| count := List.length found; stars := found;
                    cached := true; query_time_ms := Some 0 |}, snd looked)
    | None =>
        (Returns {| count := List.length (region_stars SQRT db);
                    stars := region_stars SQRT db;
                    cached := false;
                    query_time_ms := Some ((end_time clk - start_time clk) * 1000) |},
         snd (set json_dumps o_set (set_time clk) key (region_stars SQRT db) (snd looked)))
    end.
Proof.
  cbv zeta. unfold region, query_region, try_except, bind at 1.
  destruct (get_never_raises json_loads o_get (get_time clk)
              (region_cache_key ra dec radius limit) s) as (r & s' & ->).
  cbn [fst snd cache_hit].
  destruct (set_never_raises json_dumps o_set (set_time clk)
              (region_cache_key ra dec radius limit) (region_stars SQRT db) s') as [s'' E].
  destruct r as [[| st rest] |]; try reflexivity; unfold bind; rewrite E; reflexivity.
Qed.

Lemma bright_answers db o_get o_set clk mag_limit s :
  let key := bright_cache_key mag_limit in
  let looked := get json_loads o_get (get_time clk) key s in
  let fresh := BrightCatalog._query_all_bright_stars_sync db (float_value mag_limit) in
  bright db o_get o_set clk mag_limit s =
    match cache_hit (fst looked) with
    | Some found =>
        (Returns {| bright_count := List.length found; bright_stars := found;
                    magnitude_limit := mag_limit; bright_cached := true;
                    bright_query_time_ms := Some 0 |}, snd looked)
    | None =>
        (Returns {| bright_count := List.length fresh; bright_stars := fresh;
                    magnitude_limit := mag_limit; bright_cached := false;
                    bright_query_time_ms := Some ((end_time clk - start_time clk) * 1000) |},
         snd (set json_dumps o_set (set_time clk) key fresh (snd looked)))
    end.
Proof.
  cbv zeta. unfold bright, get_bright_catalog, or_http_500, hbind, of_service.
  destruct (get_never_raises json_loads o_get (get_time clk)
              (bright_cache_key mag_limit) s) as (r & s' & ->).
  cbn [fst snd cache_hit].
  destruct (set_never_raises json_dumps o_set (set_time clk)
              (bright_cache_key mag_limit)
              (BrightCatalog._query_all_bright_stars_sync db (float_value mag_limit)) s')
    as [s'' E].
  destruct r as [[| st rest] |]; try reflexivity;
    unfold BrightCatalog.query_all_bright_stars_async; rewrite E; reflexivity.
Qed.

(** X26: The handlers on the local catalog always answer: whatever the cache
    holds, whichever durable operations fail, with or without a catalog
    database, /region and /bright-catalog return a response, never HTTP
    500; its count is the length of its list, and a response marked as
    cached is never empty. *)
Theorem local_routes_always_answer db o_get o_set clk ra dec radius limit mag_limit s :
  (exists resp s',
      region db o_get o_set clk ra dec radius limit s = (Returns resp, s') /\
      count resp = List.length (stars resp) /\
      (cached resp = true -> stars resp <> [])) /\
  (exists resp s',
      bright db o_get o_set clk mag_limit s = (Returns resp, s') /\
      bright_count resp = List.length (bright_stars resp) /\
      magnitude_limit resp = mag_limit /\
      (bright_cached resp = true -> bright_stars resp <> [])).
Proof.
  split.
  - rewrite region_answers. cbv zeta.
    destruct (cache_hit _) as [found |] eqn:Hh.
    + do 2 eexists. split; [reflexivity |]. cbn. split; [reflexivity |].
      intros _ ->. destruct (fst _) as [[[| ? ?] |] |]; discriminate.
    + do 2 eexists. split; [reflexivity |]. cbn. split; [reflexivity | discriminate].
  - rewrite bright_answers. cbv zeta.
    destruct (cache_hit _) as [found |] eqn:Hh.
    + do 2 eexists. split; [reflexivity |]. cbn. repeat split.
      intros _ ->. destruct (fst _) as [[[| ? ?] |] |]; discriminate.
    + do 2 eexists. split; [reflexivity |]. cbn. repeat split. discriminate.
Qed.

(** X27: An empty list in the cache is not a hit: the handler takes it for a
    miss, queries the catalog again and writes the result back. *)
Theorem region_empty_list_is_a_miss db o_get o_set clk ra dec radius limit s :
  enabled s = true ->
  fst (get json_loads o_get (get_time clk) (region_cache_key ra dec radius limit) s)
    = Returns (Some []) ->
  exists s',
    region db o_get o_set clk ra dec radius limit s =
      (Returns {| count := List.length (region_stars SQRT db);
                  stars := region_stars SQRT db;
                  cached := false;
                  query_time_ms := Some ((end_time clk - start_time clk) * 1000) |}, s') /\
    memory_cache s' !! _generate_key (region_cache_key ra dec radius limit) =
      Some {| value := region_stars SQRT db; timestamp := set_time clk |}.
Proof.
  intros He Hg. rewrite region_answers. cbv zeta. rewrite Hg. cbn [cache_hit].
  eexists. split; [reflexivity |].
  destruct (get_state_after json_loads o_get (get_time clk)
              (region_cache_key ra dec radius limit) s) as (He' & _).
  rewrite He in He'.
  destruct (set_state json_dumps o_set (set_time clk)
              (region_cache_key ra dec radius limit) (region_stars SQRT db) _ He')
    as (_ & _ & Hm & _).
  rewrite Hm. apply lookup_insert_eq.
Qed.

(** X28: The /region route never answers from the cache what it has written
    itself.  After a request that found no entry, the same request is again
    answered uncached and with no stars -- within the TTL or after it,
    whatever the catalog holds by then and whichever durable operations
    fail in either request: the list the first request stored is empty, and
    the handler takes an empty list for a miss. *)
Theorem region_repeat_is_not_cached db db' o1 o2 o3 o4 clk clk' ra dec radius limit s :
  uncached ra dec radius limit s ->
  let s1 := snd (region db o1 o2 clk ra dec radius limit s) in
  exists s2,
    region db' o3 o4 clk' ra dec radius limit s1 =
      (Returns {| count := 0; stars := []; cached := false;
                  query_time_ms := Some ((end_time clk' - start_time clk') * 1000) |}, s2).
Proof.
  intros [Hm Hd] s1.
  set (key := region_cache_key ra dec radius limit) in *.
  assert (Hstars : forall d, region_stars SQRT d = []).
  { intros d. unfold region_stars, Catalog.query_nearby_stars_async,
      Catalog._query_nearby_stars_sync. destruct d; reflexivity. }
  assert (Hs1 : s1 = snd (set json_dumps o2 (set_time clk) key [] s)).
  { unfold s1. rewrite region_answers. cbv zeta. fold key.
    rewrite (get_absent json_loads o1 _ _ s Hm Hd). cbn [fst snd cache_hit].
    rewrite Hstars. reflexivity. }
  assert (Hmiss : cache_hit (fst (get json_loads o3 (get_time clk') key s1)) = None).
  { destruct (enabled s) eqn:He.
    - destruct (set_state json_dumps o2 (set_time clk) key [] s He) as (He1 & Ht1 & Hm1 & Hq1).
      rewrite <- Hs1 in He1, Ht1, Hm1, Hq1.
      rewrite get_answers by exact He1. rewrite Hm1, lookup_insert_eq.
      unfold answer. cbn [timestamp value].
      destruct (Qlt_bool (get_time clk' - set_time clk) (inject_Z (ttl s1))) eqn:Hf;
        [reflexivity |].
      unfold durable_answer. destruct (o3 OpConnect || o3 OpSelect); [reflexivity |].
      destruct Hq1 as [-> | [js ->]].
      + rewrite Hd. reflexivity.
      + rewrite lookup_insert_eq. cbn [row_timestamp]. rewrite Hf. reflexivity.
    - rewrite Hs1. rewrite set_disabled by exact He.
      rewrite get_disabled by exact He. reflexivity. }
  rewrite region_answers. cbv zeta. fold key. rewrite Hmiss, Hstars.
  eexists. reflexivity.
Qed.

End Handlers.

Lemma galactic_center_radius_gap_witness :
  galactic_center_valid (mk false 15 0) 50000 = true /\
  10 < float_value (mk false 15 0) /\
  query_galactic_center (fun v => v) (fun v => v) (fun v => v) (fun _ _ _ _ _ => true)
    never_dumps never_loads demo_archive no_faults no_faults noon (mk false 15 0) 50000
    cold_cache = (inr (ValidationError "ConeQueryParams"), cold_cache).
Proof.
  assert (Hv : galactic_center_valid (mk false 15 0) 50000 = true)
    by (vm_compute; reflexivity).
  assert (Hr : 10 < float_value (mk false 15 0)) by (vm_compute; reflexivity).
  split; [exact Hv |]. split; [exact Hr |].
  exact (proj1 (galactic_center_radius_gap (fun v => v) (fun v => v) (fun v => v)
           (fun _ _ _ _ _ => true) never_dumps never_loads demo_archive no_faults
           no_faults noon (mk false 15 0) 50000 cold_cache Hv) Hr).
Defined.

Lemma region_empty_list_is_a_miss_witness :
  enabled empty_cached = true /\
  fst (get never_loads no_faults (get_time noon) small_region empty_cached)
    = Returns (Some []) /\
  exists resp s',
    query_region (fun v => v) never_dumps never_loads two_stars no_faults no_faults noon
      (mk false 10 0) (mk false 20 0) (mk false 1 0) 1 empty_cached = (Returns resp, s') /\
    cached resp = false /\
    stars resp = region_stars (fun v => v) two_stars.
Proof.
  assert (Hg : fst (get never_loads no_faults (get_time noon) small_region empty_cached)
               = Returns (Some [])).
  { rewrite get_unfold by reflexivity.
    rewrite (get_memory_fresh _ _ _ {| value := []; timestamp := 0 |}).
    - reflexivity.
    - unfold empty_cached. cbn [memory_cache]. apply lookup_singleton_eq.
    - reflexivity. }
  split; [reflexivity |]. split; [exact Hg |].
  destruct (region_empty_list_is_a_miss (fun v => v) never_dumps never_loads two_stars
              no_faults no_faults noon (mk false 10 0) (mk false 20 0) (mk false 1 0) 1
              empty_cached eq_refl Hg) as (s' & E & _).
  eexists _, s'. split; [exact E |]. split; reflexivity.
Defined.

Lemma region_repeat_is_not_cached_witness :
  uncached (mk false 10 0) (mk false 20 0) (mk false 1 0) 1 cold_cache /\
  exists resp s2,
    query_region (fun v => v) never_dumps never_loads two_stars no_faults no_faults noon
      (mk false 10 0) (mk false 20 0) (mk false 1 0) 1
      (snd (query_region (fun v => v) never_dumps never_loads two_stars
              no_faults no_faults noon
              (mk false 10 0) (mk false 20 0) (mk false 1 0) 1 cold_cache)) =
      (Returns resp, s2) /\
    cached resp = false /\ stars resp = [].
Proof.
  assert (Hu : uncached (mk false 10 0) (mk false 20 0) (mk false 1 0) 1 cold_cache)
    by (split; apply lookup_empty).
  split; [exact Hu |].
  destruct (region_repeat_is_not_cached (fun v => v) never_dumps never_loads two_stars
              two_stars no_faults no_faults no_faults no_faults noon noon
              (mk false 10 0) (mk false 20 0) (mk false 1 0) 1 cold_cache Hu) as [s2 E].
  eexists _, s2. split; [exact E |]. split; reflexivity.
Defined.

End StarsApiSpec.

(** ** Cache keys: their form, and the key texts of the catalog routes *)

Module KeyTextSpec.
Import PyFloat Text Json Key KeySpec Sha256 KeyText Api StarsApi.
#[local] Arguments String.append !_ _ / : simpl nomatch.

Lemma length_string_of_list (l : list ascii) :
  String.length (string_of_list_ascii l) = List.length l.
Proof. induction l as [| c l IH]; cbn; [reflexivity | now rewrite IH]. Qed.

Lemma all_chars_string_of_list P (l : list ascii) :
  Forall (fun c => P c = true) l -> all_chars P (string_of_list_ascii l) = true.
Proof.
  induction 1 as [| c l Hc _ IH]; cbn; [reflexivity |]. now rewrite Hc, IH.
Qed.

Lemma hex_digit_ok (d : Z) : (0 <= d < 16)%Z -> is_hex (hex_digit d) = true.
Proof.
  intros Hd.
  assert (H : (d = 0 \/ d = 1 \/ d = 2 \/ d = 3 \/ d = 4 \/ d = 5 \/ d = 6 \/ d = 7 \/
               d = 8 \/ d = 9 \/ d = 10 \/ d = 11 \/ d = 12 \/ d = 13 \/ d = 14 \/
               d = 15)%Z) by lia.
  repeat destruct H as [-> | H]; try subst d; reflexivity.
Qed.

Lemma hex_word_ok (w : Z) :
  List.length (hex_word w) = 8%nat /\ Forall (fun c => is_hex c = true) (hex_word w).
Proof.
  unfold hex_word. split; [rewrite length_map; reflexivity |].
  apply Forall_forall. intros c Hc.
  apply list_elem_of_In, in_map_iff in Hc. destruct Hc as (i & <- & _).
  apply hex_digit_ok. apply Z.mod_pos_bound. lia.
Qed.

(** X29: Every cache key is 64 lowercase hexadecimal digits, whatever the
    query parameters. *)
Theorem cache_key_is_64_hex (q : Json.t) :
  String.length (_generate_key q) = 64%nat /\
  all_chars is_hex (_generate_key q) = true.
Proof.
  unfold _generate_key, hexdigest.
  set (s := digest_words _). unfold words.
  pose proof (hex_word_ok (ra s)) as [La Ha]. pose proof (hex_word_ok (rb s)) as [Lb Hb].
  pose proof (hex_word_ok (rc s)) as [Lc Hc]. pose proof (hex_word_ok (rd s)) as [Ld Hd].
  pose proof (hex_word_ok (re s)) as [Le He]. pose proof (hex_word_ok (rf s)) as [Lf Hf].
  pose proof (hex_word_ok (rg s)) as [Lg Hg]. pose proof (hex_word_ok (rh s)) as [Lh Hh].
  split.
  - rewrite length_string_of_list. cbn [map List.concat].
    rewrite !length_app, La, Lb, Lc, Ld, Le, Lf, Lg, Lh. reflexivity.
  - apply all_chars_string_of_list. cbn [map List.concat].
    repeat (apply Forall_app; split; [assumption |]). constructor.
Qed.

(** *** Key texts of /region and /bright-catalog *)

Lemma escape_char_plain (c : ascii) :
  is_plain c = true -> escape_char c = String c EmptyString.
Proof.
  destruct c as [[] [] [] [] [] [] [] []]; intros H; try discriminate H; reflexivity.
Qed.

Lemma escape_plain (s : string) : all_chars is_plain s = true -> escape s = s.
Proof.
  induction s as [| c s IH]; cbn; [reflexivity |].
  intros H. apply andb_true_iff in H. destruct H as [Hc Hs].
  rewrite (escape_char_plain c Hc), (IH Hs). reflexivity.
Qed.

Lemma numeric_plain (c : ascii) : is_numeric c = true -> is_plain c = true.
Proof.
  destruct c as [[] [] [] [] [] [] [] []]; intros H; try discriminate H; reflexivity.
Qed.

Lemma plain_not_quote (s : string) :
  all_chars is_plain s = true -> all_chars (is_not dquote) s = true.
Proof.
  apply all_chars_impl. intros c.
  destruct c as [[] [] [] [] [] [] [] []]; intros H; try discriminate H; reflexivity.
Qed.

(** Quoting plain strings loses nothing. *)
Lemma quote_plain_inj (s s' : string) :
  all_chars is_plain s = true -> all_chars is_plain s' = true ->
  quote s = quote s' -> s = s'.
Proof.
  intros Hs Hs'. unfold quote. rewrite (escape_plain s Hs), (escape_plain s' Hs').
  intros E. apply string_cons_inj in E.
  apply (cut_inj dquote s s' EmptyString EmptyString); [apply plain_not_quote, Hs
    | apply plain_not_quote, Hs' | exact E].
Qed.

Lemma format_f_numeric (f : pyfloat) (prec : nat) :
  all_chars is_numeric (format_f f prec) = true.
Proof.
  unfold format_f.
  set (ds := zeros _ +:+ digits _).
  assert (Hds : all_chars is_numeric ds = true).
  { unfold ds. rewrite all_chars_app, zeros_numeric, digits_numeric. reflexivity. }
  rewrite !all_chars_app. rewrite (take_numeric _ _ Hds).
  assert (Hsign : all_chars is_numeric (if f_neg f then "-" else EmptyString) = true)
    by (destruct (f_neg f); reflexivity).
  rewrite Hsign. cbn [andb].
  destruct (Nat.eqb prec 0); [reflexivity |].
  change ("." +:+ ?a) with (String "." a). cbn [all_chars].
  rewrite (drop_numeric _ _ Hds). reflexivity.
Qed.

Lemma numeric_is_plain (s : string) :
  all_chars is_numeric s = true -> all_chars is_plain s = true.
Proof. apply all_chars_impl, numeric_plain. Qed.

(** The f-string of a region key, piece by piece. *)
Lemma region_text_plain (a b c l : string) :
  all_chars is_numeric a = true -> all_chars is_numeric b = true ->
  all_chars is_numeric c = true -> all_chars is_numeric l = true ->
  all_chars is_plain ("stars:region:" +:+ a +:+ ":" +:+ b +:+ ":" +:+ c +:+ ":" +:+ l) = true.
Proof.
  intros Ha Hb Hc Hl.
  rewrite !all_chars_app.
  rewrite (numeric_is_plain a Ha), (numeric_is_plain b Hb), (numeric_is_plain c Hc),
    (numeric_is_plain l Hl). reflexivity.
Qed.

Lemma colon_not_numeric : is_numeric ":" = false.
Proof. reflexivity. Qed.

(** X30: The text hashed for a region request is the quoted f-string: two
    region requests hash the same text exactly when ra, dec and radius
    print alike to two decimals and the limits are equal; two
    bright-catalog requests hash the same text exactly when their limits
    are the same float. *)
Theorem catalog_route_key_texts :
  (forall ra dec radius limit ra' dec' radius' limit',
      dumps true (region_cache_key ra dec radius limit) =
      dumps true (region_cache_key ra' dec' radius' limit') <->
      format_f ra 2 = format_f ra' 2 /\ format_f dec 2 = format_f dec' 2 /\
      format_f radius 2 = format_f radius' 2 /\ limit = limit') /\
  (forall m m',
      dumps true (bright_cache_key m) = dumps true (bright_cache_key m') <->
      canon m = canon m').
Proof.
  split.
  - intros ra dec radius limit ra' dec' radius' limit'. split.
    + unfold region_cache_key. cbn [dumps]. intros E.
      apply quote_plain_inj in E;
        try (apply region_text_plain;
             first [apply format_f_numeric | apply int_repr_numeric]).
      apply (inj (String.append "stars:region:")) in E.
      change (":" +:+ ?x) with (String ":" x) in E.
      apply number_cut in E;
        [| exact colon_not_numeric | apply format_f_numeric | apply format_f_numeric].
      destruct E as [E1 E].
      apply number_cut in E;
        [| exact colon_not_numeric | apply format_f_numeric | apply format_f_numeric].
      destruct E as [E2 E].
      apply number_cut in E;
        [| exact colon_not_numeric | apply format_f_numeric | apply format_f_numeric].
      destruct E as [E3 E].
      apply int_repr_inj in E. auto.
    + intros (E1 & E2 & E3 & ->). unfold region_cache_key. rewrite E1, E2, E3. reflexivity.
  - intros m m'. split.
    + unfold bright_cache_key. cbn [dumps]. intros E.
      apply quote_plain_inj in E.
      * apply (inj (String.append "stars:bright_catalog:")) in E.
        apply float_repr_inj, E.
      * rewrite all_chars_app, (numeric_is_plain _ (float_repr_numeric m)). reflexivity.
      * rewrite all_chars_app, (numeric_is_plain _ (float_repr_numeric m')). reflexivity.
    + intros E. unfold bright_cache_key. rewrite (float_repr_same m m' E). reflexivity.
Qed.

End KeyTextSpec.
